(** * The dbt-to-explore translator of Lightdash, embedded in Rocq

    The TypeScript module that turns dbt models and dbt metrics into
    Lightdash tables and explores ([convertDimension],
    [convertDbtMetricToLightdashMetric], [convertTable], [modelCanUseMetric],
    [convertExplores], [attachTypesToModels]) is translated function by
    function.  A [throw] is the [Throw] case of [result], [try]/[catch] is
    [try_catch], a JavaScript object used as a record of named entries is an
    association list kept in property-enumeration order, and the helpers the
    module imports from its sibling modules are the fields of the [Host]
    class. *)

From Stdlib Require Import List String Ascii Bool Arith Lia ZArith NArith.
From Stdlib Require Import DecimalString Relations.
Import ListNotations.
Open Scope string_scope.

Set Implicit Arguments.

(** ** Exceptions *)

(** A thrown [Error] value: the two properties the translator reads back. *)
Record JsError := mkError { err_name : string; err_message : string }.

Inductive result (A : Type) : Type :=
| Return (a : A)
| Throw (e : JsError).
Arguments Return {A} a.
Arguments Throw {A} e.

Definition bind {A B} (c : result A) (k : A -> result B) : result B :=
  match c with
  | Return a => k a
  | Throw e => Throw e
  end.

Notation "x <- c ;; k" := (bind c (fun x => k))
  (at level 61, c at next level, right associativity).
Notation "' pat <- c ;; k" := (bind c (fun x => match x with pat => k end))
  (at level 61, pat pattern, c at next level, right associativity).

(** [try { body } catch (e) { handler }] *)
Definition try_catch {A} (body : result A) (handler : JsError -> result A)
  : result A :=
  match body with
  | Return a => Return a
  | Throw e => handler e
  end.

(** [xs.map(f)] when [f] may throw: the first throw, left to right, wins. *)
Fixpoint mapM {A B} (f : A -> result B) (xs : list A) : result (list B) :=
  match xs with
  | [] => Return []
  | x :: xs' => y <- f x ;; ys <- mapM f xs' ;; Return (y :: ys)
  end.

(** [xs.reduce(f, init)] when [f] may throw. *)
Fixpoint reduceM {A B} (f : B -> A -> result B) (xs : list A) (init : B)
  : result B :=
  match xs with
  | [] => Return init
  | x :: xs' => acc <- f init x ;; reduceM f xs' acc
  end.

(** [xs.forEach(f)] when [f] may throw. *)
Fixpoint forEachM {A} (f : A -> result unit) (xs : list A) : result unit :=
  match xs with
  | [] => Return tt
  | x :: xs' => _ <- f x ;; forEachM f xs'
  end.

(** The error classes of [types/errors] and the built-in [Error]; each sets
    [name] to the name of its class. *)
Definition NonCompiledModelError (message : string) : JsError :=
  mkError "NonCompiledModelError" message.
Definition MissingCatalogEntryError (message : string) : JsError :=
  mkError "MissingCatalogEntryError" message.
Definition ParseError (message : string) : JsError :=
  mkError "ParseError" message.
Definition Error (message : string) : JsError :=
  mkError "Error" message.
(** What the engine throws when unbounded recursion exhausts the call stack. *)
Definition RangeError (message : string) : JsError :=
  mkError "RangeError" message.

(** ** JavaScript strings and truthiness *)

Definition lower_ascii (c : ascii) : ascii :=
  let n := nat_of_ascii c in
  if (65 <=? n)%nat && (n <=? 90)%nat then ascii_of_nat (n + 32) else c.

(** [s.toLowerCase()], on the ASCII letters (identifiers of a dbt project). *)
Fixpoint toLowerCase (s : string) : string :=
  match s with
  | EmptyString => EmptyString
  | String c s' => String (lower_ascii c) (toLowerCase s')
  end.

(** The text between double quotes, as the messages interpolate it. *)
Definition quoted (s : string) : string :=
  let q := String (ascii_of_nat 34) EmptyString in q ++ s ++ q.

(** A possibly [undefined] string is truthy when it is present and not empty. *)
Definition truthy (v : option string) : bool :=
  match v with
  | Some s => negb (s =? "")
  | None => false
  end.

(** [a || b] with [b] a string. *)
Definition js_or (a : option string) (b : string) : string :=
  match a with
  | Some s => if s =? "" then b else s
  | None => b
  end.

(** [a || b] with [b] possibly [undefined]. *)
Definition js_or_opt (a b : option string) : option string :=
  if truthy a then a else b.

(** [xs.includes(x)] on strings. *)
Definition includes (xs : list string) (x : string) : bool :=
  existsb (String.eqb x) xs.

(** [xs.find(p)] *)
Definition js_find {A} (p : A -> bool) (xs : list A) : option A := find p xs.

(** [xs.join(sep)] on strings. *)
Definition join (sep : string) (xs : list string) : string :=
  String.concat sep xs.

(** ** Objects as ordered records of entries

    An object's own properties are listed in the order [Object.keys] gives
    them: array-index names in increasing numeric order first, then the other
    names in the order of their creation. *)

Definition obj (V : Type) := list (string * V).

Definition Object_keys {V} (o : obj V) : list string := map fst o.
Definition Object_values {V} (o : obj V) : list V := map snd o.
Definition Object_entries {V} (o : obj V) : list (string * V) := o.

Fixpoint obj_get {V} (k : string) (o : obj V) : option V :=
  match o with
  | [] => None
  | (k', v) :: o' => if k' =? k then Some v else obj_get k o'
  end.

Definition obj_has {V} (k : string) (o : obj V) : bool :=
  includes (Object_keys o) k.

(** A property name is an array index when it is the canonical decimal
    writing of an integer below 2^32 - 1. *)
Definition array_index (k : string) : option N :=
  match NilEmpty.uint_of_string k with
  | Some u =>
      let n := N.of_uint u in
      if (NilEmpty.string_of_uint (N.to_uint n) =? k) && (n <=? 4294967294)%N
      then Some n else None
  | None => None
  end.

Fixpoint obj_replace {V} (k : string) (v : V) (o : obj V) : obj V :=
  match o with
  | [] => []
  | (k', v') :: o' =>
      if k' =? k then (k', v) :: o' else (k', v') :: obj_replace k v o'
  end.

Definition index_below (n : N) (k' : string) : bool :=
  match array_index k' with
  | Some n' => (n' <? n)%N
  | None => false
  end.

Fixpoint obj_insert_index {V} (n : N) (k : string) (v : V) (o : obj V)
  : obj V :=
  match o with
  | [] => [(k, v)]
  | (k', v') :: o' =>
      if index_below n k' then (k', v') :: obj_insert_index n k v o'
      else (k, v) :: o
  end.

(** [{ ...o, [k]: v }]: an existing property keeps its place, a new one takes
    the place its name gives it. *)
Definition obj_set {V} (k : string) (v : V) (o : obj V) : obj V :=
  if obj_has k o then obj_replace k v o
  else match array_index k with
       | Some n => obj_insert_index n k v o
       | None => (o ++ [(k, v)])%list
       end.

(** [{ ...target, ...source }] *)
Definition obj_spread {V} (target : obj V) (source : list (string * V))
  : obj V :=
  fold_left (fun acc kv => obj_set (fst kv) (snd kv) acc) source target.

(** [Object.fromEntries(entries)] *)
Definition Object_fromEntries {V} (entries : list (string * V)) : obj V :=
  obj_spread [] entries.

(** ** Data model *)

(** The types this module only passes along: their declarations live in the
    sibling modules [types/dbt], [types/field], [types/explore] and in the
    dependency-graph library. *)
Class HostTypes := {
  Source : Type;
  UrlTemplate : Type;
  DbtColumnLightdashMetric : Type;
  RawFilter : Type;
  MetricFilterRule : Type;
  MetricType : Type;
  LineageNodeDependency : Type;
  DepGraph : Type;
  Explore : Type;
}.

(** Modelled from the spec: the enum [DimensionType] of [types/field], whose
    declaration is not part of the sources at hand; the data model names its
    members STRING, NUMBER, BOOLEAN, DATE and TIMESTAMP.  At run time a member
    is a string ([Host.DimensionType_value]). *)
Inductive DimensionType := STRING | NUMBER | BOOLEAN | DATE | TIMESTAMP.

Definition DimensionType_members : list DimensionType :=
  [STRING; NUMBER; BOOLEAN; DATE; TIMESTAMP].

Inductive FieldType := DIMENSION | METRIC.

(** [SupportedDbtAdapter]; the last case stands for a run-time value outside
    the enum, which the [default] branch of [convertTimezone] handles. *)
Inductive SupportedDbtAdapter :=
| BIGQUERY | DATABRICKS | SNOWFLAKE | REDSHIFT | POSTGRES | TRINO
| OtherAdapter (raw : string).

(** A member of the string enum [TimeFrames]. *)
Definition TimeFrames := string.

(** [meta.dimension.time_intervals]: a string (["default"], ["OFF"]) or an
    array of interval names. *)
Inductive TimeIntervals :=
| IntervalsString (s : string)
| IntervalsArray (xs : list string).

Section DataModel.
Context {T : HostTypes}.

Record DbtColumnLightdashDimension := {
  dim_name : option string;
  dim_label : option string;
  dim_type : option string;
  dim_description : option string;
  dim_sql : option string;
  dim_time_intervals : option TimeIntervals;
  dim_hidden : option bool;
  dim_round : option Z;
  dim_compact : option string;
  dim_format : option string;
  dim_group_label : option string;
  dim_urls : option (list UrlTemplate);
}.

Record DbtColumnMetadata := {
  cmeta_dimension : option DbtColumnLightdashDimension;
  cmeta_metrics : option (obj DbtColumnLightdashMetric);
}.

Record DbtModelColumn := {
  col_name : string;
  col_description : option string;
  col_meta : DbtColumnMetadata;
  col_data_type : option string;
}.

Record DbtModelJoin := { join_join : string; join_sql_on : string }.

Record DbtModelMetadata := {
  mmeta_label : option string;
  mmeta_joins : option (list DbtModelJoin);
}.

Record DbtModelConfig := { config_meta : option DbtModelMetadata }.

Record DbtModelNode := {
  unique_id : string;
  model_name : string;
  model_database : string;
  model_schema : string;
  relation_name : option string;
  model_description : option string;
  columns : obj DbtModelColumn;
  model_config : option DbtModelConfig;
  model_meta : DbtModelMetadata;
  model_tags : option (list string);
  depends_on_nodes : list string;
  patch_path : option string;
  compiled : bool;
}.

Record DbtMetricFilter := {
  filter_field : string;
  filter_operator : string;
  filter_value : string;
}.

Record DbtMetricMeta := {
  metmeta_hidden : option bool;
  metmeta_round : option Z;
  metmeta_compact : option string;
  metmeta_format : option string;
  metmeta_group_label : option string;
  metmeta_show_underlying_values : option (list string);
  metmeta_filters : option (list RawFilter);
  metmeta_urls : option (list UrlTemplate);
}.

Record DbtMetric := {
  metric_unique_id : string;
  metric_name : string;
  metric_label : option string;
  metric_description : option string;
  calculation_method : string;
  expression : option string;
  metric_filters : option (list DbtMetricFilter);
  metric_metrics : option (list (list string));
  metric_refs : option (list (list string));
  metric_meta : option DbtMetricMeta;
}.

Record Dimension := {
  d_fieldType : FieldType;
  d_name : string;
  d_label : string;
  d_sql : string;
  d_table : string;
  d_tableLabel : string;
  d_type : string;
  d_description : option string;
  d_source : option Source;
  d_group : option string;
  d_timeInterval : option TimeFrames;
  d_hidden : bool;
  d_format : option string;
  d_round : option Z;
  d_compact : option string;
  d_groupLabel : option string;
  d_urls : option (list UrlTemplate);
}.

Record Metric := {
  m_fieldType : FieldType;
  m_type : MetricType;
  m_isAutoGenerated : bool;
  m_name : string;
  m_label : string;
  m_table : string;
  m_tableLabel : string;
  m_sql : string;
  m_description : option string;
  m_source : option Source;
  m_hidden : bool;
  m_round : option Z;
  m_compact : option string;
  m_format : option string;
  m_groupLabel : option string;
  m_showUnderlyingValues : option (list string);
  m_filters : list MetricFilterRule;
  m_urls : option (list UrlTemplate);
}.

Definition LineageGraph := obj (list LineageNodeDependency).

Record Table := {
  t_name : string;
  t_label : string;
  t_database : string;
  t_schema : string;
  t_sqlTable : string;
  t_description : string;
  t_dimensions : obj Dimension;
  t_metrics : obj Metric;
  t_lineageGraph : option LineageGraph;
}.

Record ExploreErrorEntry := { ee_type : string; ee_message : string }.

Record ExploreError := {
  xe_name : string;
  xe_label : string;
  xe_tags : option (list string);
  xe_errors : list ExploreErrorEntry;
}.

(** The argument of [convertMetric]. *)
Record ConvertMetricArgs := {
  cm_modelName : string;
  cm_dimensionName : string;
  cm_dimensionSql : string;
  cm_name : string;
  cm_metric : DbtColumnLightdashMetric;
  cm_tableLabel : string;
}.

Record ExploreJoin := { ej_table : string; ej_sqlOn : string }.

(** The argument of [compileExplore]. *)
Record CompileExploreArgs := {
  ce_name : string;
  ce_label : string;
  ce_tags : list string;
  ce_baseTable : string;
  ce_joinedTables : list ExploreJoin;
  ce_tables : obj Table;
  ce_targetDatabase : SupportedDbtAdapter;
}.

(** [warehouseCatalog]: database, schema, table, column, type. *)
Definition WarehouseCatalog := obj (obj (obj (obj DimensionType))).

End DataModel.

(** ** The imported helpers

    What the module imports from [types/dbt], [types/field],
    [types/filterGrammar], [utils/timeFrames] and [exploreCompiler].  A helper
    that can throw returns a [result]. *)
Class Host {T : HostTypes} := {
  (** the run-time string of an enum member *)
  DimensionType_value : DimensionType -> string;
  MetricType_NUMBER : MetricType;
  friendlyName : string -> string;
  defaultSql : string -> string;
  parseMetricType : string -> result MetricType;
  parseFilters : option (list RawFilter) -> result (list MetricFilterRule);
  convertMetric : ConvertMetricArgs -> result Metric;
  (** [timeFrameConfigs[interval].getSql], [.getLabel], [.getDimensionType] *)
  timeFrame_getSql :
    TimeFrames -> SupportedDbtAdapter -> TimeFrames -> string -> string ->
    result string;
  timeFrame_getLabel : TimeFrames -> string;
  timeFrame_getDimensionType : TimeFrames -> string -> string;
  validateTimeFrames : list string -> result (list TimeFrames);
  getDefaultTimeFrames : string -> list TimeFrames;
  buildModelGraph : list DbtModelNode -> DepGraph;
  dependantsOf : DepGraph -> string -> list string;
  dependenciesOf : DepGraph -> string -> list string;
  directDependenciesOf : DepGraph -> string -> list string;
  getNodeData : DepGraph -> string -> LineageNodeDependency;
  nodeName : LineageNodeDependency -> string;
  compileExplore : CompileExploreArgs -> result Explore;
}.

Section Translator.
Context {T : HostTypes} {H : Host}.

(** [Object.values(DimensionType)] *)
Definition DimensionType_values : list string :=
  map DimensionType_value DimensionType_members.

(** ** convertTimezone *)

Definition convertTimezone (timestampSql default_source_tz target_tz : string)
  (adapterType : SupportedDbtAdapter) : result string :=
  match adapterType with
  | BIGQUERY => Return timestampSql
  | SNOWFLAKE =>
      Return ("TO_TIMESTAMP_NTZ(CONVERT_TIMEZONE('UTC', " ++ timestampSql ++ "))")
  | REDSHIFT => Return timestampSql
  | POSTGRES => Return timestampSql
  | DATABRICKS => Return timestampSql
  | TRINO => Return timestampSql
  | OtherAdapter raw =>
      (* assertUnreachable throws the error it is given *)
      Throw (ParseError ("Cannot recognise warehouse " ++ raw))
  end.

(** ** convertDimension *)

(** [column.meta.dimension?.field] *)
Definition dimension_field {A} (field : DbtColumnLightdashDimension -> option A)
  (column : DbtModelColumn) : option A :=
  match cmeta_dimension (col_meta column) with
  | Some d => field d
  | None => None
  end.

(** [column.meta.dimension?.type || column.data_type || DimensionType.STRING] *)
Definition columnType (column : DbtModelColumn) : string :=
  js_or (dimension_field dim_type column)
        (js_or (col_data_type column) (DimensionType_value STRING)).

Definition unrecognisedTypeError (type : string) (column : DbtModelColumn)
  (model : DbtModelNode) : JsError :=
  MissingCatalogEntryError
    ("Could not recognise type " ++ quoted type ++ " for dimension "
     ++ quoted (col_name column) ++ " in dbt model "
     ++ quoted (model_name model)
     ++ ". Valid types are: " ++ join ", " DimensionType_values).

Definition convertDimension (targetWarehouse : SupportedDbtAdapter)
  (model : DbtModelNode) (tableLabel : string) (column : DbtModelColumn)
  (source : option Source) (timeInterval : option TimeFrames)
  : result Dimension :=
  let type := columnType column in
  if negb (includes DimensionType_values type) then
    Throw (unrecognisedTypeError type column model)
  else
    let name := js_or (dimension_field dim_name column) (col_name column) in
    let sql := js_or (dimension_field dim_sql column)
                     (defaultSql (col_name column)) in
    let label := js_or (dimension_field dim_label column) (friendlyName name) in
    sql <- (if type =? DimensionType_value TIMESTAMP
            then convertTimezone sql "UTC" "UTC" targetWarehouse
            else Return sql) ;;
    let finish (name label sql type : string) (group : option string) :=
      {| d_fieldType := DIMENSION;
         d_name := name;
         d_label := label;
         d_sql := sql;
         d_table := model_name model;
         d_tableLabel := tableLabel;
         d_type := type;
         d_description := js_or_opt (dimension_field dim_description column)
                                    (col_description column);
         d_source := source;
         d_group := group;
         d_timeInterval := timeInterval;
         d_hidden := match dimension_field dim_hidden column with
                     | Some b => b
                     | None => false
                     end;
         d_format := dimension_field dim_format column;
         d_round := dimension_field dim_round column;
         d_compact := dimension_field dim_compact column;
         d_groupLabel := dimension_field dim_group_label column;
         d_urls := dimension_field dim_urls column |} in
    match timeInterval with
    | Some interval =>
        if truthy timeInterval then
          sql' <- timeFrame_getSql interval targetWarehouse interval sql type ;;
          Return (finish
                    (col_name column ++ "_" ++ toLowerCase interval)
                    (label ++ " " ++ toLowerCase (timeFrame_getLabel interval))
                    sql'
                    (timeFrame_getDimensionType interval type)
                    (Some (col_name column)))
        else Return (finish name label sql type None)
    | None => Return (finish name label sql type None)
    end.

(** ** Lineage *)

Definition generateTableLineage (model : DbtModelNode) (depGraph : DepGraph)
  : LineageGraph :=
  let modelFamilyIds :=
    (dependantsOf depGraph (unique_id model)
     ++ dependenciesOf depGraph (unique_id model)
     ++ [unique_id model])%list in
  fold_left
    (fun prev nodeId =>
       obj_set (nodeName (getNodeData depGraph nodeId))
               (map (getNodeData depGraph)
                    (directDependenciesOf depGraph nodeId))
               prev)
    modelFamilyIds [].

Definition translateDbtModelsToTableLineage (models : list DbtModelNode)
  : obj LineageGraph :=
  let graph := buildModelGraph models in
  fold_left
    (fun previousValue currentValue =>
       obj_set (model_name currentValue)
               (generateTableLineage currentValue graph) previousValue)
    models [].

(** ** convertDbtMetricToLightdashMetric *)

(** The characters of [[a-zA-Z0-9_]]. *)
Definition is_word_char (c : ascii) : bool :=
  let n := nat_of_ascii c in
  ((48 <=? n)%nat && (n <=? 57)%nat)
  || ((65 <=? n)%nat && (n <=? 90)%nat)
  || ((97 <=? n)%nat && (n <=? 122)%nat)
  || (n =? 95)%nat.

Fixpoint all_word_chars (s : string) : bool :=
  match s with
  | EmptyString => true
  | String c s' => is_word_char c && all_word_chars s'
  end.

(** [/^[a-zA-Z0-9_]+$/g.test(s)] *)
Definition isSingleColumnName (s : string) : bool :=
  negb (s =? "") && all_word_chars s.

(** Scan for a non-empty pattern: [skip] counts the characters of a match that
    are still to be stepped over. *)
Fixpoint replace_scan (pat rep : string) (skip : nat) (s : string) : string :=
  match s with
  | EmptyString => EmptyString
  | String c s' =>
      match skip with
      | S k => replace_scan pat rep k s'
      | O =>
          if String.prefix pat s
          then rep ++ replace_scan pat rep (String.length pat - 1) s'
          else String c (replace_scan pat rep 0 s')
      end
  end.

(** The empty pattern matches before every character and at the end. *)
Fixpoint replace_empty (rep : string) (s : string) : string :=
  match s with
  | EmptyString => rep
  | String c s' => rep ++ String c (replace_empty rep s')
  end.

(** [s.replace(new RegExp(pat, 'g'), rep)] for a pattern made of word
    characters, which a regular expression matches literally, and a
    replacement text in which no dollar sign is followed by a character that
    makes it a substitution pattern: every match, leftmost first and without
    overlap, gives way to [rep]. *)
Definition replace_all (pat rep s : string) : string :=
  if pat =? "" then replace_empty rep s else replace_scan pat rep 0 s.

(** [(metric.metrics || []).map((m) => m[0])]; an empty entry gives
    [undefined]. *)
Definition referencedMetrics (metric : DbtMetric) : list (option string) :=
  map (fun m => hd_error m)
      (match metric_metrics metric with Some ms => ms | None => [] end).

(** One step of the [forEach] over the referenced metrics.  An [undefined]
    reference builds the empty pattern and is written [undefined] in the
    placeholder. *)
Definition substituteReference (sql : string) (ref : option string) : string :=
  match ref with
  | Some r => replace_all r ("${" ++ r ++ "}") sql
  | None => replace_all "" "${undefined}" sql
  end.

(** [metric.meta?.field] *)
Definition metric_meta_field {A} (field : DbtMetricMeta -> option A)
  (metric : DbtMetric) : option A :=
  match metric_meta metric with
  | Some m => field m
  | None => None
  end.

Definition filterSqlOf (filters : list DbtMetricFilter) : string :=
  join " AND "
    (map (fun filter =>
            "(${TABLE}." ++ filter_field filter ++ " "
            ++ filter_operator filter ++ " " ++ filter_value filter ++ ")")
         filters).

Definition convertDbtMetricToLightdashMetric (metric : DbtMetric)
  (tableName tableLabel : string) : result Metric :=
  '(type, sql) <-
    (if calculation_method metric =? "expression" then
       let type := MetricType_NUMBER in
       let referenced := referencedMetrics metric in
       if negb (truthy (expression metric)) then
         Throw (ParseError ("dbt expression metric "
                            ++ quoted (metric_name metric)
                            ++ " must have the sql field set"))
       else
         let sql := js_or (expression metric) "" in
         Return (type, fold_left substituteReference referenced sql)
     else
       type <- try_catch (parseMetricType (calculation_method metric))
                 (fun e =>
                    Throw (ParseError
                             ("Cannot parse metric '" ++ metric_unique_id metric
                              ++ ": type " ++ calculation_method metric
                              ++ " is not a valid Lightdash metric type"))) ;;
       let sql := defaultSql (metric_name metric) in
       let sql :=
         match expression metric with
         | Some e =>
             if truthy (expression metric) then
               if isSingleColumnName e then defaultSql e else e
             else sql
         | None => sql
         end in
       Return (type, sql)) ;;
  let sql :=
    match metric_filters metric with
    | Some filters =>
        if (0 <? List.length filters)%nat then
          "CASE WHEN " ++ filterSqlOf filters ++ " THEN " ++ sql
          ++ " ELSE NULL END"
        else sql
    | None => sql
    end in
  filters <- parseFilters (metric_meta_field metmeta_filters metric) ;;
  Return {| m_fieldType := METRIC;
            m_type := type;
            m_isAutoGenerated := false;
            m_name := metric_name metric;
            m_label := js_or (metric_label metric)
                             (friendlyName (metric_name metric));
            m_table := tableName;
            m_tableLabel := tableLabel;
            m_sql := sql;
            m_description := metric_description metric;
            m_source := None;
            m_hidden := match metric_meta_field metmeta_hidden metric with
                        | Some b => b
                        | None => false
                        end;
            m_round := metric_meta_field metmeta_round metric;
            m_compact := metric_meta_field metmeta_compact metric;
            m_format := metric_meta_field metmeta_format metric;
            m_groupLabel := metric_meta_field metmeta_group_label metric;
            m_showUnderlyingValues :=
              metric_meta_field metmeta_show_underlying_values metric;
            m_filters := filters;
            m_urls := metric_meta_field metmeta_urls metric |}.

(** ** convertTable *)

(** [model.config?.meta || model.meta]: the config block takes priority. *)
Definition modelMeta (model : DbtModelNode) : DbtModelMetadata :=
  match model_config model with
  | Some config =>
      match config_meta config with
      | Some meta => meta
      | None => model_meta model
      end
  | None => model_meta model
  end.

(** [meta.label || friendlyName(model.name)] *)
Definition modelLabel (model : DbtModelNode) : string :=
  js_or (mmeta_label (modelMeta model)) (friendlyName (model_name model)).

(** Truthiness of [time_intervals]: an array is truthy even when empty. *)
Definition intervals_truthy (ti : option TimeIntervals) : bool :=
  match ti with
  | Some (IntervalsString s) => negb (s =? "")
  | Some (IntervalsArray _) => true
  | None => false
  end.

(** [time_intervals !== 'OFF'] *)
Definition intervals_not_OFF (ti : option TimeIntervals) : bool :=
  match ti with
  | Some (IntervalsString s) => negb (s =? "OFF")
  | _ => true
  end.

(** The test that opens the expansion into time intervals. *)
Definition expandsTimeIntervals (dimension : Dimension)
  (column : DbtModelColumn) : bool :=
  let ti := dimension_field dim_time_intervals column in
  includes [DimensionType_value DATE; DimensionType_value TIMESTAMP]
           (d_type dimension)
  && ((intervals_truthy ti && intervals_not_OFF ti)
      || negb (intervals_truthy ti)).

(** The intervals a column is expanded into. *)
Definition columnIntervals (dimension : Dimension) (column : DbtModelColumn)
  : result (list TimeFrames) :=
  match dimension_field dim_time_intervals column with
  | Some (IntervalsArray xs) => validateTimeFrames xs
  | _ => Return (getDefaultTimeFrames (d_type dimension))
  end.

(** The inner [intervals.reduce] that builds [extraDimensions]. *)
Definition extraDimensionsOf (adapterType : SupportedDbtAdapter)
  (model : DbtModelNode) (tableLabel : string) (column : DbtModelColumn)
  (intervals : list TimeFrames) : result (obj Dimension) :=
  reduceM
    (fun acc interval =>
       d <- convertDimension adapterType model tableLabel column None
              (Some interval) ;;
       Return (obj_set (col_name column ++ "_" ++ interval) d acc))
    intervals [].

(** The metrics declared under [column.meta.metrics]. *)
Definition columnMetricsOf (model : DbtModelNode) (tableLabel : string)
  (dimension : Dimension) (column : DbtModelColumn) : result (obj Metric) :=
  entries <-
    mapM (fun entry =>
            m <- convertMetric
                   {| cm_modelName := model_name model;
                      cm_dimensionName := d_name dimension;
                      cm_dimensionSql := d_sql dimension;
                      cm_name := fst entry;
                      cm_metric := snd entry;
                      cm_tableLabel := tableLabel |} ;;
            Return (fst entry, m))
         (Object_entries
            (match cmeta_metrics (col_meta column) with
             | Some ms => ms
             | None => []
             end)) ;;
  Return (Object_fromEntries entries).

(** The callback of the [reduce] over [Object.values(model.columns)]. *)
Definition convertColumn (adapterType : SupportedDbtAdapter)
  (model : DbtModelNode) (tableLabel : string)
  (prev : obj Dimension * obj Metric) (column : DbtModelColumn)
  : result (obj Dimension * obj Metric) :=
  let '(prevDimensions, prevMetrics) := prev in
  dimension <- convertDimension adapterType model tableLabel column None None ;;
  extraDimensions <-
    (if expandsTimeIntervals dimension column then
       intervals <- columnIntervals dimension column ;;
       extraDimensionsOf adapterType model tableLabel column intervals
     else Return []) ;;
  columnMetrics <- columnMetricsOf model tableLabel dimension column ;;
  Return (obj_spread (obj_set (col_name column) dimension prevDimensions)
                     extraDimensions,
          obj_spread prevMetrics columnMetrics).

(** The [dimensions] and [metrics] that the columns of a model give. *)
Definition convertColumns (adapterType : SupportedDbtAdapter)
  (model : DbtModelNode) (tableLabel : string)
  : result (obj Dimension * obj Metric) :=
  reduceM (convertColumn adapterType model tableLabel)
          (Object_values (columns model)) ([], []).

(** [Object.fromEntries(dbtMetrics.map(...))] *)
Definition convertedDbtMetricsOf (model : DbtModelNode) (tableLabel : string)
  (dbtMetrics : list DbtMetric) : result (obj Metric) :=
  entries <-
    mapM (fun metric =>
            m <- convertDbtMetricToLightdashMetric metric (model_name model)
                   tableLabel ;;
            Return (metric_name metric, m))
         dbtMetrics ;;
  Return (Object_fromEntries entries).

(** The names that are both a metric and a dimension. *)
Definition duplicatedNamesOf (allMetrics : obj Metric)
  (dimensions : obj Dimension) : list string :=
  filter (fun metric => includes (Object_keys dimensions) metric)
         (Object_keys allMetrics).

Definition duplicatedNamesError (duplicatedNames : list string) : JsError :=
  let message :=
    if (1 <? List.length duplicatedNames)%nat
    then "Found multiple metrics and a dimensions with the same name:"
    else "Found a metric and a dimension with the same name:" in
  ParseError (message ++ " " ++ join "," duplicatedNames).

Definition convertTable (adapterType : SupportedDbtAdapter)
  (model : DbtModelNode) (dbtMetrics : list DbtMetric) : result Table :=
  if negb (compiled model) then
    Throw (NonCompiledModelError "Model has not been compiled by dbt")
  else
    let tableLabel := modelLabel model in
    '(dimensions, metrics) <- convertColumns adapterType model tableLabel ;;
    convertedDbtMetrics <- convertedDbtMetricsOf model tableLabel dbtMetrics ;;
    let allMetrics := obj_spread convertedDbtMetrics metrics in
    let duplicatedNames := duplicatedNamesOf allMetrics dimensions in
    if (0 <? List.length duplicatedNames)%nat then
      Throw (duplicatedNamesError duplicatedNames)
    else if negb (truthy (relation_name model)) then
      Throw (Error "Model has no table relation")
    else
      Return {| t_name := model_name model;
                t_label := tableLabel;
                t_database := model_database model;
                t_schema := model_schema model;
                t_sqlTable := js_or (relation_name model) "";
                t_description := js_or (model_description model)
                                       (model_name model ++ " table");
                t_dimensions := dimensions;
                t_metrics := allMetrics;
                t_lineageGraph := None |}.

(** ** modelCanUseMetric *)

(** [xs.every(p)] for a test that may not come back: it stops at the first
    element that fails. *)
Fixpoint everyM {A} (p : A -> option bool) (xs : list A) : option bool :=
  match xs with
  | [] => Some true
  | x :: xs' =>
      match p x with
      | Some true => everyM p xs'
      | Some false => Some false
      | None => None
      end
  end.

(** [metrics.find((m) => m.name === metricName)] *)
Definition findMetric (metricName : string) (metrics : list DbtMetric)
  : option DbtMetric :=
  js_find (fun m => metric_name m =? metricName) metrics.

(** [metric.refs?.[0]?.[0]] *)
Definition modelRefOf (metric : DbtMetric) : option string :=
  match metric_refs metric with
  | Some (ref :: _) => hd_error ref
  | _ => None
  end.

(** [modelRef === modelName] *)
Definition sameModel (modelRef : option string) (modelName : string) : bool :=
  match modelRef with
  | Some r => r =? modelName
  | None => false
  end.

(** The recursion of the source has no bound of its own; [fuel] bounds its
    depth, and [None] is a recursion deeper than [fuel]. *)
Fixpoint modelCanUseMetric (fuel : nat) (metricName modelName : string)
  (metrics : list DbtMetric) : option bool :=
  match fuel with
  | O => None
  | S fuel' =>
      match findMetric metricName metrics with
      | None => Some false
      | Some metric =>
          if sameModel (modelRefOf metric) modelName then Some true
          else if calculation_method metric =? "expression" then
            everyM (fun m =>
                      match m with
                      | Some name =>
                          modelCanUseMetric fuel' name modelName metrics
                      | None =>
                          (* no metric is named [undefined] *)
                          Some false
                      end)
                   (referencedMetrics metric)
          else Some false
      end
  end.

(** ** convertExplores *)

(** [xs.filter(p)] when [p] may throw. *)
Fixpoint filterM {A} (p : A -> result bool) (xs : list A) : result (list A) :=
  match xs with
  | [] => Return []
  | x :: xs' =>
      b <- p x ;;
      ys <- filterM p xs' ;;
      Return (if b then x :: ys else ys)
  end.

(** The call of [modelCanUseMetric] made by [convertExplores].  A depth of
    one more than the number of metrics is enough for every recursion that
    ends at all ([modelCanUseMetric_fuel_adequate]); a recursion that does not
    end exhausts the call stack, which the engine reports by throwing a
    [RangeError]. *)
Definition modelCanUseMetric_call (metricName modelName : string)
  (metrics : list DbtMetric) : result bool :=
  match modelCanUseMetric (S (List.length metrics)) metricName modelName
          metrics with
  | Some b => Return b
  | None => Throw (RangeError "Maximum call stack size exceeded")
  end.

(** [{ ...table, ...tableLineage[model.name] }] *)
Definition withLineage (table : Table) (lineage : option LineageGraph)
  : Table :=
  match lineage with
  | Some g =>
      {| t_name := t_name table;
         t_label := t_label table;
         t_database := t_database table;
         t_schema := t_schema table;
         t_sqlTable := t_sqlTable table;
         t_description := t_description table;
         t_dimensions := t_dimensions table;
         t_metrics := t_metrics table;
         t_lineageGraph := Some g |}
  | None => table
  end.

(** The body of the [try] of the first phase: the table of one model. *)
Definition tableOfModel (tableLineage : obj LineageGraph) (loadSources : bool)
  (adapterType : SupportedDbtAdapter) (metrics : list DbtMetric)
  (model : DbtModelNode) : result Table :=
  tableMetrics <-
    filterM (fun metric =>
               modelCanUseMetric_call (metric_name metric) (model_name model)
                 metrics)
            metrics ;;
  table <- convertTable adapterType model tableMetrics ;;
  _ <- (if loadSources
           && match patch_path model with Some _ => true | None => false end
        then Throw (Error "Not Implemented")
        else Return tt) ;;
  Return (withLineage table (obj_get (model_name model) tableLineage)).

(** The [ExploreError] built by the [catch] of the first phase. *)
Definition tableExploreError (model : DbtModelNode) (e : JsError)
  : ExploreError :=
  {| xe_name := model_name model;
     xe_label := modelLabel model;
     xe_tags := model_tags model;
     xe_errors :=
       [ {| ee_type := err_name e;
            ee_message :=
              js_or (Some (err_message e))
                    ("Could not convert dbt model: "
                     ++ quoted (model_name model)
                     ++ " in to a Lightdash explore") |} ] |}.

(** The callback of the first [reduce]. *)
Definition convertModelStep (tableLineage : obj LineageGraph)
  (loadSources : bool) (adapterType : SupportedDbtAdapter)
  (metrics : list DbtMetric)
  (acc : list Table * list ExploreError) (model : DbtModelNode)
  : result (list Table * list ExploreError) :=
  let '(accTables, accErrors) := acc in
  try_catch
    (tableWithLineage <-
       tableOfModel tableLineage loadSources adapterType metrics model ;;
     Return ((accTables ++ [tableWithLineage])%list, accErrors))
    (fun e =>
       Return (accTables, (accErrors ++ [tableExploreError model e])%list)).

Definition compileExploreArgsOf (adapterType : SupportedDbtAdapter)
  (tableLookup : obj Table) (model : DbtModelNode) : CompileExploreArgs :=
  {| ce_name := model_name model;
     ce_label := modelLabel model;
     ce_tags := match model_tags model with Some tags => tags | None => [] end;
     ce_baseTable := model_name model;
     ce_joinedTables :=
       map (fun join =>
              {| ej_table := join_join join; ej_sqlOn := join_sql_on join |})
           (match mmeta_joins (modelMeta model) with
            | Some joins => joins
            | None => []
            end);
     ce_tables := tableLookup;
     ce_targetDatabase := adapterType |}.

(** The [ExploreError] built by the [catch] of the second phase. *)
Definition joinExploreError (model : DbtModelNode) (e : JsError)
  : ExploreError :=
  {| xe_name := model_name model;
     xe_label := modelLabel model;
     xe_tags := None;
     xe_errors := [ {| ee_type := err_name e; ee_message := err_message e |} ]
  |}.

(** The callback of the [map] of the second phase. *)
Definition compileModel (adapterType : SupportedDbtAdapter)
  (tableLookup : obj Table) (model : DbtModelNode)
  : result (Explore + ExploreError) :=
  try_catch
    (explore <-
       compileExplore (compileExploreArgsOf adapterType tableLookup model) ;;
     Return (inl explore))
    (fun e => Return (inr (joinExploreError model e))).

(** [tables.reduce((prev, table) => ({ ...prev, [table.name]: table }), {})] *)
Definition tableLookupOf (tables : list Table) : obj Table :=
  fold_left (fun prev table => obj_set (t_name table) table prev) tables [].

(** The properties that every plain object inherits from
    [Object.prototype]: reading one of these names on an object written
    [{}] gives a value, also when the object has no property of that name of
    its own. *)
Definition Object_prototype_keys : list string :=
  ["constructor"; "hasOwnProperty"; "isPrototypeOf"; "propertyIsEnumerable";
   "toLocaleString"; "toString"; "valueOf"; "__proto__";
   "__defineGetter__"; "__defineSetter__"; "__lookupGetter__";
   "__lookupSetter__"].

(** [o[key] !== undefined] on a plain object whose own values are defined:
    the object has the property, or inherits it. *)
Definition obj_defined {V} (key : string) (o : obj V) : bool :=
  obj_has key o || includes Object_prototype_keys key.

(** [models.filter((model) => tableLookup[model.name] !== undefined)] *)
Definition validModelsOf (tableLookup : obj Table) (models : list DbtModelNode)
  : list DbtModelNode :=
  filter (fun model => obj_defined (model_name model) tableLookup) models.

(** [convertExplores] from its second statement on, the table lineage being
    built. *)
Definition convertExploresFrom (tableLineage : obj LineageGraph)
  (models : list DbtModelNode) (loadSources : bool)
  (adapterType : SupportedDbtAdapter) (metrics : list DbtMetric)
  : result (list (Explore + ExploreError)) :=
  '(tables, exploreErrors) <-
    reduceM (convertModelStep tableLineage loadSources adapterType metrics)
            models ([], []) ;;
  let tableLookup := tableLookupOf tables in
  let validModels := validModelsOf tableLookup models in
  explores <- mapM (compileModel adapterType tableLookup) validModels ;;
  Return (explores ++ map inr exploreErrors)%list.

Definition convertExplores (models : list DbtModelNode) (loadSources : bool)
  (adapterType : SupportedDbtAdapter) (metrics : list DbtMetric)
  : result (list (Explore + ExploreError)) :=
  let tableLineage := translateDbtModelsToTableLineage models in
  convertExploresFrom tableLineage models loadSources adapterType metrics.

(** ** attachTypesToModels *)

(** The comparison of a catalog key with the name looked for. *)
Definition catalogKeyMatches (caseSensitiveMatching : bool) (wanted key : string)
  : bool :=
  if caseSensitiveMatching then key =? wanted
  else toLowerCase key =? toLowerCase wanted.

(** [previousMatch && Object.keys(level).find(...)]: a match that is missing
    or empty stops the chain. *)
Definition matchWithin {V} (caseSensitiveMatching : bool)
  (level : option (obj V)) (wanted : string) : option string :=
  match level with
  | Some o =>
      match js_find (catalogKeyMatches caseSensitiveMatching wanted)
              (Object_keys o) with
      | Some key => if truthy (Some key) then Some key else None
      | None => None
      end
  | None => None
  end.

(** [level[match]] once [match] is a truthy key. *)
Definition descend {V} (level : option (obj V)) (key : option string)
  : option V :=
  match level, key with
  | Some o, Some k => obj_get k o
  | _, _ => None
  end.

(** The table of the catalog that a model resolves to, when there is one. *)
Definition findCatalogTable (warehouseCatalog : WarehouseCatalog)
  (caseSensitiveMatching : bool) (model : DbtModelNode)
  : option (obj DimensionType) :=
  let databaseMatch :=
    matchWithin caseSensitiveMatching (Some warehouseCatalog)
      (model_database model) in
  let database := descend (Some warehouseCatalog) databaseMatch in
  let schemaMatch :=
    matchWithin caseSensitiveMatching database (model_schema model) in
  let schema := descend database schemaMatch in
  let tableMatch :=
    matchWithin caseSensitiveMatching schema (model_name model) in
  descend schema tableMatch.

Definition missingModelError (model : DbtModelNode) : JsError :=
  MissingCatalogEntryError
    ("Model " ++ quoted (model_name model)
     ++ " was expected in your target warehouse at "
     ++ quoted (model_database model ++ "." ++ model_schema model ++ "."
                ++ model_name model)
     ++ ". Does the table exist in your target data warehouse?").

Definition missingColumnError (model : DbtModelNode) (columnName : string)
  : JsError :=
  let newline := String (ascii_of_nat 10) EmptyString in
  MissingCatalogEntryError
    ("Column " ++ quoted columnName ++ " from model "
     ++ quoted (model_name model) ++ " does not exist." ++ newline ++ " "
     ++ quoted (model_name model ++ "." ++ columnName)
     ++ " was not found in your target warehouse at "
     ++ model_database model ++ "." ++ model_schema model ++ "."
     ++ model_name model ++ ". Try rerunning dbt to update your warehouse.").

(** The check that every model appears in the warehouse. *)
Definition checkModelInCatalog (warehouseCatalog : WarehouseCatalog)
  (throwOnMissingCatalogEntry caseSensitiveMatching : bool)
  (model : DbtModelNode) : result unit :=
  match findCatalogTable warehouseCatalog caseSensitiveMatching model with
  | Some _ => Return tt
  | None =>
      if throwOnMissingCatalogEntry then Throw (missingModelError model)
      else Return tt
  end.

Definition getType (warehouseCatalog : WarehouseCatalog)
  (throwOnMissingCatalogEntry caseSensitiveMatching : bool)
  (model : DbtModelNode) (columnName : string) : result (option DimensionType) :=
  let table := findCatalogTable warehouseCatalog caseSensitiveMatching model in
  let columnMatch := matchWithin caseSensitiveMatching table columnName in
  match descend table columnMatch with
  | Some type => Return (Some type)
  | None =>
      if throwOnMissingCatalogEntry
      then Throw (missingColumnError model columnName)
      else Return None
  end.

(** [{ ...column, data_type: type }] *)
Definition withDataType (column : DbtModelColumn)
  (type : option DimensionType) : DbtModelColumn :=
  {| col_name := col_name column;
     col_description := col_description column;
     col_meta := col_meta column;
     col_data_type := option_map DimensionType_value type |}.

(** [{ ...model, columns }] *)
Definition withColumns (model : DbtModelNode) (cols : obj DbtModelColumn)
  : DbtModelNode :=
  {| unique_id := unique_id model;
     model_name := model_name model;
     model_database := model_database model;
     model_schema := model_schema model;
     relation_name := relation_name model;
     model_description := model_description model;
     columns := cols;
     model_config := model_config model;
     model_meta := model_meta model;
     model_tags := model_tags model;
     depends_on_nodes := depends_on_nodes model;
     patch_path := patch_path model;
     compiled := compiled model |}.

Definition attachTypesToModel (warehouseCatalog : WarehouseCatalog)
  (throwOnMissingCatalogEntry caseSensitiveMatching : bool)
  (model : DbtModelNode) : result DbtModelNode :=
  entries <-
    mapM (fun entry =>
            type <- getType warehouseCatalog throwOnMissingCatalogEntry
                      caseSensitiveMatching model (fst entry) ;;
            Return (fst entry, withDataType (snd entry) type))
         (Object_entries (columns model)) ;;
  Return (withColumns model (Object_fromEntries entries)).

Definition attachTypesToModels (models : list DbtModelNode)
  (warehouseCatalog : WarehouseCatalog)
  (throwOnMissingCatalogEntry caseSensitiveMatching : bool)
  : result (list DbtModelNode) :=
  _ <- forEachM (checkModelInCatalog warehouseCatalog
                   throwOnMissingCatalogEntry caseSensitiveMatching)
                models ;;
  mapM (attachTypesToModel warehouseCatalog throwOnMissingCatalogEntry
          caseSensitiveMatching)
       models.

End Translator.

(** ** The words of the specification *)

Section Specification.
Context {T : HostTypes}.

(** A metric is usable by a model when its first declared model reference is
    that model, or when it is an expression metric and every metric it
    references is usable by the model in its turn. *)
Inductive Usable (metrics : list DbtMetric) (modelName : string)
  : string -> Prop :=
| Usable_direct metricName metric :
    findMetric metricName metrics = Some metric ->
    modelRefOf metric = Some modelName ->
    Usable metrics modelName metricName
| Usable_expression metricName metric :
    findMetric metricName metrics = Some metric ->
    calculation_method metric = "expression" ->
    ~ In None (referencedMetrics metric) ->
    (forall name, In (Some name) (referencedMetrics metric) ->
                  Usable metrics modelName name) ->
    Usable metrics modelName metricName.

(** The reference relation of the expression metrics: a metric name is
    related to the names listed in the [metrics] field of the metric it
    denotes. *)
Definition references (metrics : list DbtMetric) (a b : string) : Prop :=
  exists metric,
    findMetric a metrics = Some metric
    /\ calculation_method metric = "expression"
    /\ In (Some b) (referencedMetrics metric).

(** No metric name reaches itself through references. *)
Definition acyclic (metrics : list DbtMetric) : Prop :=
  forall a, ~ clos_trans string (references metrics) a a.

End Specification.

(** ** The two phases of [convertExplores], model by model *)

Section Phases.
Context {T : HostTypes} {H : Host}.

(** The tables of the models whose conversion comes back, in model order. *)
Definition convertedTables (tableLineage : obj LineageGraph)
  (loadSources : bool) (adapterType : SupportedDbtAdapter)
  (metrics : list DbtMetric) (models : list DbtModelNode) : list Table :=
  flat_map
    (fun model =>
       match tableOfModel tableLineage loadSources adapterType metrics model
       with
       | Return table => [table]
       | Throw _ => []
       end)
    models.

(** One [ExploreError] for each model whose conversion throws, in model
    order. *)
Definition tableExploreErrors (tableLineage : obj LineageGraph)
  (loadSources : bool) (adapterType : SupportedDbtAdapter)
  (metrics : list DbtMetric) (models : list DbtModelNode)
  : list ExploreError :=
  flat_map
    (fun model =>
       match tableOfModel tableLineage loadSources adapterType metrics model
       with
       | Return _ => []
       | Throw e => [tableExploreError model e]
       end)
    models.

(** What the second phase makes of one model. *)
Definition compiledOrError (adapterType : SupportedDbtAdapter)
  (tableLookup : obj Table) (model : DbtModelNode) : Explore + ExploreError :=
  match compileExplore (compileExploreArgsOf adapterType tableLookup model) with
  | Return explore => inl explore
  | Throw e => inr (joinExploreError model e)
  end.


End Phases.

Section WrittenKeys.
Context {T : HostTypes} {H : Host}.

(** The keys that the conversion of a column writes in the dimension map:
    the name of the column and, when the column is expanded into time
    intervals, that name followed by an underscore and one of the intervals
    of the column. *)
Definition writesKey (adapterType : SupportedDbtAdapter)
  (model : DbtModelNode) (tableLabel : string)
  (column : DbtModelColumn) (key : string) : Prop :=
  col_name column = key
  \/ exists base intervals interval,
       convertDimension adapterType model tableLabel column None None
       = Return base
       /\ expandsTimeIntervals base column = true
       /\ columnIntervals base column = Return intervals
       /\ In interval intervals
       /\ col_name column ++ "_" ++ interval = key.

End WrittenKeys.

(** The pattern occurs somewhere in the text. *)
Fixpoint occurs (pat s : string) : bool :=
  String.prefix pat s
  || match s with
     | EmptyString => false
     | String _ s' => occurs pat s'
     end.

Section ExpressionMetrics.
Context {T : HostTypes}.

(** The words of the specification for an expression metric: for each
    referenced metric name, in order, every occurrence of the name in the
    text gives way to the name between [${] and [}]. *)
Definition substituteNames (names : list string) (text : string) : string :=
  fold_left (fun sql name => replace_all name ("${" ++ name ++ "}") sql)
            names text.

(** The references of a metric are names made of word characters. *)
Definition wordReferences (metric : DbtMetric) (names : list string) : Prop :=
  referencedMetrics metric = map Some names
  /\ Forall (fun name => all_word_chars name = true) names.

(** [metric.filters && metric.filters.length > 0] *)
Definition declaredFilters (metric : DbtMetric) : list DbtMetricFilter :=
  match metric_filters metric with
  | Some filters => filters
  | None => []
  end.

End ExpressionMetrics.

(** ** A concrete host

    One implementation of the imported helpers, small enough to evaluate,
    on which the statements below are exercised. *)
Module Demo.

Definition demoTypes : HostTypes :=
  {| Source := unit;
     UrlTemplate := string;
     DbtColumnLightdashMetric := string;
     RawFilter := string;
     MetricFilterRule := string;
     MetricType := string;
     LineageNodeDependency := string;
     DepGraph := list (string * list string);
     Explore := string * list string |}.

Definition demoMetricType (s : string) : @MetricType demoTypes := s.

Definition demoColumnMetrics (sqlByName : list (string * string))
  : obj (@DbtColumnLightdashMetric demoTypes) := sqlByName.

Definition demoMetric (args : @ConvertMetricArgs demoTypes)
  : @Metric demoTypes :=
  {| m_fieldType := METRIC;
     m_type := demoMetricType "sum";
     m_isAutoGenerated := false;
     m_name := cm_name args;
     m_label := cm_name args;
     m_table := cm_modelName args;
     m_tableLabel := cm_tableLabel args;
     m_sql := cm_metric args;
     m_description := None;
     m_source := None;
     m_hidden := false;
     m_round := None;
     m_compact := None;
     m_format := None;
     m_groupLabel := None;
     m_showUnderlyingValues := None;
     m_filters := [];
     m_urls := None |}.

Definition demoTimeFrames : list string := ["DAY"; "WEEK"; "MONTH"; "YEAR"].

Definition demoCompileExplore (args : @CompileExploreArgs demoTypes)
  : result (string * list string) :=
  match
    find (fun join => negb (obj_has (ej_table join) (ce_tables args)))
         (ce_joinedTables args)
  with
  | Some join =>
      Throw (mkError "CompileError"
               ("Failed to compile explore " ++ quoted (ce_name args)
                ++ ". Tried to join table " ++ quoted (ej_table join)
                ++ " but it does not exist."))
  | None => Return (ce_name args, map ej_table (ce_joinedTables args))
  end.

Definition demoHost : @Host demoTypes :=
  {| DimensionType_value := fun t =>
       match t with
       | STRING => "string"
       | NUMBER => "number"
       | TIMESTAMP => "timestamp"
       | DATE => "date"
       | BOOLEAN => "boolean"
       end;
     MetricType_NUMBER := demoMetricType "number";
     friendlyName := fun s => s;
     defaultSql := fun columnName => "${TABLE}." ++ columnName;
     parseMetricType := fun s =>
       if includes ["average"; "count"; "count_distinct"; "sum"; "min"; "max"]
                   s
       then Return (demoMetricType s)
       else Throw (ParseError ("Cannot parse metric type " ++ s));
     parseFilters := fun raw =>
       Return (match raw with Some fs => fs | None => [] end
               : list (@MetricFilterRule demoTypes));
     convertMetric := fun args => Return (demoMetric args);
     timeFrame_getSql := fun _ _ interval sql _ =>
       Return ("DATE_TRUNC('" ++ interval ++ "', " ++ sql ++ ")");
     timeFrame_getLabel := fun interval => interval;
     timeFrame_getDimensionType := fun _ type => type;
     validateTimeFrames := fun xs =>
       mapM (fun x =>
               if includes demoTimeFrames x then Return x
               else Throw (ParseError ("Unknown time interval " ++ x)))
            xs;
     getDefaultTimeFrames := fun _ => demoTimeFrames;
     buildModelGraph := fun models =>
       map (fun m => (unique_id m, depends_on_nodes m)) models;
     dependantsOf := fun graph id =>
       map fst (filter (fun node => includes (snd node) id) graph);
     dependenciesOf := fun graph id =>
       match obj_get id graph with Some deps => deps | None => [] end;
     directDependenciesOf := fun graph id =>
       match obj_get id graph with Some deps => deps | None => [] end;
     getNodeData := fun _ id => id : @LineageNodeDependency demoTypes;
     nodeName := fun node => node;
     compileExplore := demoCompileExplore |}.

(** *** Sample data *)

Definition noDimension : @DbtColumnMetadata demoTypes :=
  {| cmeta_dimension := None; cmeta_metrics := None |}.

Definition dimensionWith (type : option string)
  (time_intervals : option TimeIntervals) : @DbtColumnMetadata demoTypes :=
  {| cmeta_dimension :=
       Some {| dim_name := None; dim_label := None; dim_type := type;
               dim_description := None; dim_sql := None;
               dim_time_intervals := time_intervals; dim_hidden := None;
               dim_round := None; dim_compact := None; dim_format := None;
               dim_group_label := None; dim_urls := None |};
     cmeta_metrics := None |}.

Definition column (name : string) (meta : @DbtColumnMetadata demoTypes)
  (data_type : option string) : @DbtModelColumn demoTypes :=
  {| col_name := name; col_description := None; col_meta := meta;
     col_data_type := data_type |}.

Definition model (name : string) (isCompiled : bool)
  (cols : list (@DbtModelColumn demoTypes)) (joins : list string)
  : @DbtModelNode demoTypes :=
  {| unique_id := "model.demo." ++ name;
     model_name := name;
     model_database := "analytics";
     model_schema := "public";
     relation_name := Some ("analytics.public." ++ name);
     model_description := None;
     columns := map (fun c => (col_name c, c)) cols;
     model_config := None;
     model_meta :=
       {| mmeta_label := None;
          mmeta_joins :=
            Some (map (fun t => {| join_join := t;
                                   join_sql_on := "${" ++ name ++ ".id} = ${"
                                                  ++ t ++ ".id}" |})
                      joins) |};
     model_tags := Some [];
     depends_on_nodes := [];
     patch_path := None;
     compiled := isCompiled |}.

Definition metric (name method : string) (expr : option string)
  (filters : list DbtMetricFilter)
  (references : list (list string)) (modelRef : string)
  : @DbtMetric demoTypes :=
  {| metric_unique_id := "metric.demo." ++ name;
     metric_name := name;
     metric_label := None;
     metric_description := None;
     calculation_method := method;
     expression := expr;
     metric_filters := Some filters;
     metric_metrics := Some references;
     metric_refs := Some [[modelRef]];
     metric_meta := None |}.

(** Two models: [orders] joins a table that no model provides, [users] is
    plain. *)
Definition ordersJoiningMissing : @DbtModelNode demoTypes :=
  model "orders" true [column "amount" noDimension (Some "number")]
        ["payments"].
Definition users : @DbtModelNode demoTypes :=
  model "users" true [column "id" noDimension (Some "number")] [].

(** The metrics of the scenario: two sums on [orders] and their
    difference. *)
Definition total_revenue : @DbtMetric demoTypes :=
  metric "total_revenue" "sum" (Some "amount") [] [] "orders".
Definition total_cost : @DbtMetric demoTypes :=
  metric "total_cost" "sum" (Some "cost") [] [] "orders".
Definition net : @DbtMetric demoTypes :=
  metric "net" "expression" (Some "total_revenue - total_cost") []
         [["total_revenue"]; ["total_cost"]] "finance".
Definition scenarioMetrics : list (@DbtMetric demoTypes) :=
  [total_revenue; total_cost; net].

(** The same difference, counted on paid orders only. *)
Definition netPaid : @DbtMetric demoTypes :=
  metric "net_paid" "expression" (Some "total_revenue - total_cost")
         [ {| filter_field := "status"; filter_operator := "=";
              filter_value := "'paid'" |} ]
         [["total_revenue"]; ["total_cost"]] "finance".

(** A metric that refers to itself. *)
Definition loop : @DbtMetric demoTypes :=
  metric "loop" "expression" (Some "loop + 1") [] [["loop"]] "finance".

(** A model with a column named like a dbt metric. *)
Definition revenue : @DbtModelNode demoTypes :=
  model "orders" true
        [column "amount" noDimension (Some "number");
         column "total_revenue" noDimension (Some "number")] [].
Definition revenueColumns
  : obj (@Dimension demoTypes) * obj (@Metric demoTypes) :=
  Eval vm_compute in
    match @convertColumns demoTypes demoHost POSTGRES revenue
            (@modelLabel demoTypes demoHost revenue) with
    | Return acc => acc
    | Throw _ => ([], [])
    end.
Definition revenueConverted : obj (@Metric demoTypes) :=
  Eval vm_compute in
    match @convertedDbtMetricsOf demoTypes demoHost revenue
            (@modelLabel demoTypes demoHost revenue) [total_revenue] with
    | Return converted => converted
    | Throw _ => []
    end.

(** A model whose column declares a metric named like a dbt metric. *)
Definition amountWithMetric : @DbtModelColumn demoTypes :=
  column "amount"
         {| cmeta_dimension := None;
            cmeta_metrics :=
              Some (demoColumnMetrics
                      [("total_cost", "${TABLE}.amount * 0.4")]) |}
         (Some "number").
Definition costed : @DbtModelNode demoTypes :=
  model "orders" true [amountWithMetric] [].
Definition costedTable : @Table demoTypes :=
  Eval vm_compute in
    match @convertTable demoTypes demoHost POSTGRES costed
            [total_revenue; total_cost] with
    | Return table => table
    | Throw _ =>
        {| t_name := ""; t_label := ""; t_database := ""; t_schema := "";
           t_sqlTable := ""; t_description := ""; t_dimensions := [];
           t_metrics := []; t_lineageGraph := None |}
    end.

(** A date column, and a column whose name is the key of one of its
    intervals. *)
Definition created : @DbtModelColumn demoTypes :=
  column "created" noDimension (Some "date").
Definition created_DAY : @DbtModelColumn demoTypes :=
  column "created_DAY" noDimension (Some "string").
Definition events : @DbtModelNode demoTypes :=
  model "events" true [created; created_DAY] [].
Definition eventsTable : @Table demoTypes :=
  Eval vm_compute in
    match @convertTable demoTypes demoHost POSTGRES events [] with
    | Return table => table
    | Throw _ => costedTable
    end.
Definition createdBase : @Dimension demoTypes :=
  Eval vm_compute in
    match @convertDimension demoTypes demoHost POSTGRES events
            (@modelLabel demoTypes demoHost events) created None None with
    | Return d => d
    | Throw _ =>
        {| d_fieldType := DIMENSION; d_name := ""; d_label := ""; d_sql := "";
           d_table := ""; d_tableLabel := ""; d_type := "";
           d_description := None; d_source := None; d_group := None;
           d_timeInterval := None; d_hidden := false; d_format := None;
           d_round := None; d_compact := None; d_groupLabel := None;
           d_urls := None |}
    end.

(** The catalog of the warehouse, and a model one of whose columns overrides
    its type with a word that is no [DimensionType]. *)
Definition catalog : WarehouseCatalog :=
  [("analytics",
    [("public",
      [("orders", [("amount", NUMBER); ("paid_at", TIMESTAMP)]);
       ("users", [("id", NUMBER)])])])].
Definition ordersInWarehouse : @DbtModelNode demoTypes :=
  model "orders" true
        [column "amount" (dimensionWith (Some "money") None) None;
         column "paid_at" noDimension None] [].
Definition ordersTyped : list (@DbtModelNode demoTypes) :=
  Eval vm_compute in
    match @attachTypesToModels demoTypes demoHost [ordersInWarehouse; users]
            catalog true true with
    | Return out => out
    | Throw _ => []
    end.

End Demo.

(** ** getSchemaStructureFromDbtModels *)

Section SchemaStructure.
Context {T : HostTypes}.

Record SchemaStructure := {
  ss_database : string;
  ss_schema : string;
  ss_table : string;
}.

Definition getSchemaStructureFromDbtModels (dbtModels : list DbtModelNode)
  : list SchemaStructure :=
  map (fun model =>
         {| ss_database := model_database model;
            ss_schema := model_schema model;
            ss_table := model_name model |})
      dbtModels.

End SchemaStructure.

(** The text is made of ASCII characters: on such a text [toLowerCase]
    above is [String.prototype.toLowerCase]. *)
Definition isAscii (s : string) : bool :=
  forallb (fun c => (nat_of_ascii c <? 128)%nat) (list_ascii_of_string s).

(** The names of a list are ASCII texts and no two of them differ by case
    only. *)
Definition caseDistinct (names : list string) : Prop :=
  Forall (fun name => isAscii name = true) names
  /\ forall a b, In a names -> In b names ->
                 toLowerCase a = toLowerCase b -> a = b.

(** The keys of every level of the catalog are ASCII texts, and no two keys
    of one level differ by case only. *)
Definition catalogCaseDistinct (warehouseCatalog : WarehouseCatalog) : Prop :=
  caseDistinct (Object_keys warehouseCatalog)
  /\ forall db schemas, In (db, schemas) warehouseCatalog ->
       caseDistinct (Object_keys schemas)
       /\ forall s tables, In (s, tables) schemas ->
            caseDistinct (Object_keys tables)
            /\ forall t cols, In (t, cols) tables ->
                 caseDistinct (Object_keys cols).

(** ** The state of the pie chart configuration (usePieChartConfig) *)

(** A [Set] of strings, as the list of its values in insertion order. *)
Definition Set_add (set : list string) (x : string) : list string :=
  if includes set x then set else (set ++ [x])%list.

(** [new Set(xs)] *)
Definition Set_from (xs : list string) : list string :=
  fold_left Set_add xs [].

(** [set.delete(x)] *)
Definition Set_delete (set : list string) (x : string) : list string :=
  filter (fun y => negb (y =? x)) set.

(** lodash [uniq]: the first occurrence of every value, in order. *)
Definition uniq (xs : list string) : list string := Set_from xs.

(** The updater of [handleGroupChange]. *)
Definition handleGroupChange (prevValue newValue : string)
  (prev : list string) : list string :=
  let newSet := Set_from prev in
  let newSet := Set_delete newSet prevValue in
  let newSet := Set_add newSet newValue in
  newSet.

(** The updater of [handleGroupAdd]. *)
Definition handleGroupAdd (dimensionIds prev : list string) : list string :=
  let nextId := js_find (fun id => negb (includes prev id)) dimensionIds in
  match nextId with
  | Some id =>
      if negb (truthy nextId) then prev
      else Set_add (Set_from prev) id
  | None => prev
  end.

(** The updater of [handleRemoveGroup]. *)
Definition handleRemoveGroup (dimensionId : string) (prev : list string)
  : list string :=
  Set_delete (Set_from prev) dimensionId.

(** lodash [isEqual] on arrays of strings. *)
Definition isEqual (xs ys : list string) : bool :=
  if list_eq_dec string_dec xs ys then true else false.

(** The first effect: the group fields after it has run. *)
Definition groupFieldIdsEffect (isLoading : bool)
  (dimensionIds groupFieldIds : list string) : list string :=
  if isLoading then groupFieldIds
  else
    let newGroupFieldIds :=
      filter (fun id => includes dimensionIds id) groupFieldIds in
    let firstDimensionId := hd_error dimensionIds in
    match firstDimensionId with
    | Some first =>
        if (List.length newGroupFieldIds =? 0)%nat && truthy firstDimensionId
        then [first]
        else if isEqual newGroupFieldIds groupFieldIds then groupFieldIds
        else newGroupFieldIds
    | None =>
        if isEqual newGroupFieldIds groupFieldIds then groupFieldIds
        else newGroupFieldIds
    end.

(** The second effect: the metric after it has run; [None] is [null]. *)
Definition metricIdEffect (isLoading : bool)
  (allNumericMetricIds : list string) (metricId : option string)
  : option string :=
  if isLoading then metricId
  else
    match metricId with
    | Some id =>
        if truthy metricId && includes allNumericMetricIds id then metricId
        else hd_error allNumericMetricIds
    | None => hd_error allNumericMetricIds
    end.

(** A value of an option of a group: [valueLabel] is a string,
    [showValue] and [showPercentage] are booleans, and a property can hold
    [undefined]. *)
Inductive OptionValue :=
| IsUndefined
| IsString (s : string)
| IsBool (b : bool).

(** [Partial<PieChartValueOptions>] *)
Definition PartialValueOptions := obj OptionValue.

(** [({ [key]: _, ...rest }) => rest] *)
Definition obj_rest {V} (key : string) (o : obj V) : obj V :=
  filter (fun kv => negb (fst kv =? key)) o.

(** lodash [mapValues] *)
Definition mapValues {V W} (o : obj V) (f : V -> W) : obj W :=
  Object_fromEntries (map (fun kv => (fst kv, f (snd kv))) o).

(** The updater of [handleGroupLabelChange] and of
    [handleGroupColorChange]. *)
Definition handleGroupLabelChange (key value : string) (prev : obj string)
  : obj string :=
  let rest := obj_rest key prev in
  if value =? "" then rest else obj_set key value rest.

Definition handleGroupColorChange (key value : string) (prev : obj string)
  : obj string :=
  let rest := obj_rest key prev in
  if value =? "" then rest else obj_set key value rest.

(** The updater of [handleGroupValueOptionChange]:
    [{ ...prev, [label]: { ...prev[label], ...value } }] *)
Definition handleGroupValueOptionChange (label : string)
  (value : PartialValueOptions) (prev : obj PartialValueOptions)
  : obj PartialValueOptions :=
  obj_set label
    (obj_spread (match obj_get label prev with Some o => o | None => [] end)
                value)
    prev.

(** The updater that [handleValueLabelChange], [handleToggleShowValue] and
    [handleToggleShowPercentage] apply to the overrides of the groups:
    [mapValues(prev, ({ [option]: _, ...rest }) => ({ ...rest }))] *)
Definition dropOption (optionName : string) (prev : obj PartialValueOptions)
  : obj PartialValueOptions :=
  mapValues prev (fun value => obj_rest optionName value).

(** [value[option] !== undefined] *)
Definition optionDefined (optionName : string) (value : PartialValueOptions)
  : bool :=
  match obj_get optionName value with
  | Some IsUndefined => false
  | Some _ => true
  | None => false
  end.

(** [Object.values(groupValueOptionOverrides).some(...)] of
    [isValueLabelOverriden], [isShowValueOverriden] and
    [isShowPercentageOverriden]. *)
Definition isOptionOverriden (optionName : string)
  (groupValueOptionOverrides : obj PartialValueOptions) : bool :=
  existsb (optionDefined optionName)
          (Object_values groupValueOptionOverrides).

(** The state that the hook keeps. *)
Record PieChartState := {
  groupFieldIds : list string;
  metricId : option string;
  isDonut : bool;
  valueLabel : string;
  showValue : bool;
  showPercentage : bool;
  groupLabelOverrides : obj string;
  groupColorOverrides : obj string;
  groupValueOptionOverrides : obj PartialValueOptions;
  showLegend : bool;
}.

Definition handleValueLabelChange (newValueLabel : string)
  (st : PieChartState) : PieChartState :=
  {| groupFieldIds := groupFieldIds st;
     metricId := metricId st;
     isDonut := isDonut st;
     valueLabel := newValueLabel;
     showValue := showValue st;
     showPercentage := showPercentage st;
     groupLabelOverrides := groupLabelOverrides st;
     groupColorOverrides := groupColorOverrides st;
     groupValueOptionOverrides :=
       dropOption "valueLabel" (groupValueOptionOverrides st);
     showLegend := showLegend st |}.

Definition handleToggleShowValue (st : PieChartState) : PieChartState :=
  {| groupFieldIds := groupFieldIds st;
     metricId := metricId st;
     isDonut := isDonut st;
     valueLabel := valueLabel st;
     showValue := negb (showValue st);
     showPercentage := showPercentage st;
     groupLabelOverrides := groupLabelOverrides st;
     groupColorOverrides := groupColorOverrides st;
     groupValueOptionOverrides :=
       dropOption "showValue" (groupValueOptionOverrides st);
     showLegend := showLegend st |}.

Definition handleToggleShowPercentage (st : PieChartState) : PieChartState :=
  {| groupFieldIds := groupFieldIds st;
     metricId := metricId st;
     isDonut := isDonut st;
     valueLabel := valueLabel st;
     showValue := showValue st;
     showPercentage := negb (showPercentage st);
     groupLabelOverrides := groupLabelOverrides st;
     groupColorOverrides := groupColorOverrides st;
     groupValueOptionOverrides :=
       dropOption "showPercentage" (groupValueOptionOverrides st);
     showLegend := showLegend st |}.

(** A cell of a row of results: [row[id]?.value?.formatted]. *)
Record ResultValue := { rv_formatted : option string }.
Record ResultCell := { rc_value : option ResultValue }.
Definition ResultRow := obj ResultCell.

Definition formattedOf (row : ResultRow) (id : string) : option string :=
  match obj_get id row with
  | Some cell =>
      match rc_value cell with
      | Some value => rv_formatted value
      | None => None
      end
  | None => None
  end.

(** [xs.join(sep)] when an element can be [undefined], which is written as
    the empty text. *)
Definition join_defined (sep : string) (xs : list (option string)) : string :=
  join sep (map (fun x => match x with Some s => s | None => "" end) xs).

(** The label of a row. *)
Definition rowLabel (groupFieldIds : list string) (row : ResultRow) : string :=
  join_defined " - " (map (formattedOf row) groupFieldIds).

(** [groupLabels]; the rows are absent while the results are. *)
Definition groupLabels (rows : option (list ResultRow)) (hasExplore : bool)
  (groupFieldIds : list string) : list string :=
  match rows with
  | Some rows =>
      if negb hasExplore || (List.length groupFieldIds =? 0)%nat then []
      else uniq (map (rowLabel groupFieldIds) rows)
  | None => []
  end.

(** [xs.map((x, index) => f(x, index))] *)
Fixpoint mapi_from {A B} (f : A -> nat -> B) (index : nat) (xs : list A)
  : list B :=
  match xs with
  | [] => []
  | x :: xs' => f x index :: mapi_from f (S index) xs'
  end.

(** [groupColorDefaults]; a colour is [undefined] when there is no default
    colour at all. *)
Definition groupColorDefaults (labels defaultColors : list string)
  : obj (option string) :=
  Object_fromEntries
    (mapi_from
       (fun name index =>
          (name,
           nth_error defaultColors (index mod List.length defaultColors)))
       0 labels).

(** ** The Add Group button (PieChartLayoutConfig) *)

(** [dimensions.length === 0 || groupFieldIds.length === dimensions.length] *)
Definition addGroupDisabled (dimensions : nat) (groupFields : list string)
  : bool :=
  (dimensions =? 0)%nat || (List.length groupFields =? dimensions)%nat.

(** ** The project types on offer (DbtSettingsForm) *)

Inductive DbtProjectType :=
| DBT | DBT_CLOUD_IDE | GITHUB | GITLAB | BITBUCKET | AZURE_DEVOPS | NONE.

Definition DbtProjectType_eqb (a b : DbtProjectType) : bool :=
  match a, b with
  | DBT, DBT | DBT_CLOUD_IDE, DBT_CLOUD_IDE | GITHUB, GITHUB
  | GITLAB, GITLAB | BITBUCKET, BITBUCKET | AZURE_DEVOPS, AZURE_DEVOPS
  | NONE, NONE => true
  | _, _ => false
  end.

(** The [enabledTypes] of the [options] memo. *)
Definition enabledTypes (localDbtEnabled : bool) (type : DbtProjectType)
  : list DbtProjectType :=
  let enabled := [GITHUB; GITLAB; BITBUCKET; AZURE_DEVOPS] in
  let enabled := if localDbtEnabled then (enabled ++ [DBT])%list else enabled in
  let enabled :=
    if DbtProjectType_eqb type DBT_CLOUD_IDE
    then (enabled ++ [DBT_CLOUD_IDE])%list else enabled in
  let enabled :=
    if DbtProjectType_eqb type NONE then (enabled ++ [NONE])%list
    else enabled in
  enabled.

(** ** Where the dimensions of a table come from *)

Section DimensionOrigin.
Context {T : HostTypes} {H : Host}.

(** A dimension under a key is the base dimension of the column of that name
    or the dimension of a column for one of the intervals that the column is
    expanded into. *)
Definition dimensionFrom (adapterType : SupportedDbtAdapter)
  (model : DbtModelNode) (tableLabel : string) (cols : list DbtModelColumn)
  (key : string) (d : Dimension) : Prop :=
  exists column timeInterval,
    In column cols
    /\ convertDimension adapterType model tableLabel column None timeInterval
       = Return d
    /\ (timeInterval = None /\ key = col_name column
        \/ exists base intervals interval,
             timeInterval = Some interval
             /\ convertDimension adapterType model tableLabel column None None
                = Return base
             /\ expandsTimeIntervals base column = true
             /\ columnIntervals base column = Return intervals
             /\ In interval intervals
             /\ key = col_name column ++ "_" ++ interval).

End DimensionOrigin.

(** ** More sample data *)

Module Scenarios.
Import Demo.

(** The table of [costed] as the first phase of [convertExplores] builds
    it, with the metrics of the scenario. *)
Definition costedWithMetrics : @Table demoTypes :=
  Eval vm_compute in
    match @tableOfModel demoTypes demoHost
            (@translateDbtModelsToTableLineage demoTypes demoHost [costed])
            false POSTGRES scenarioMetrics costed with
    | Return table => table
    | Throw _ => costedTable
    end.

(** The table of [users], without metrics. *)
Definition usersTable : @Table demoTypes :=
  Eval vm_compute in
    match @tableOfModel demoTypes demoHost
            (@translateDbtModelsToTableLineage demoTypes demoHost
               [ordersJoiningMissing; users])
            false POSTGRES [] users with
    | Return table => table
    | Throw _ => costedTable
    end.

(** [users], described in a schema file of the project. *)
Definition documented : @DbtModelNode demoTypes :=
  {| unique_id := unique_id users;
     model_name := model_name users;
     model_database := model_database users;
     model_schema := model_schema users;
     relation_name := relation_name users;
     model_description := model_description users;
     columns := columns users;
     model_config := model_config users;
     model_meta := model_meta users;
     model_tags := model_tags users;
     depends_on_nodes := depends_on_nodes users;
     patch_path := Some "demo://models/schema.yml";
     compiled := compiled users |}.

(** A model that the warehouse does not hold. *)
Definition ghost : @DbtModelNode demoTypes :=
  model "ghost" true [column "id" noDimension None] [].

(** [orders] with a column that the warehouse does not hold. *)
Definition discount : @DbtModelColumn demoTypes :=
  column "discount" noDimension None.
Definition ordersWithDiscount : @DbtModelNode demoTypes :=
  model "orders" true [column "amount" noDimension None; discount] [].

(** [users] with the types of the catalog. *)
Definition usersTyped : list (@DbtModelNode demoTypes) :=
  Eval vm_compute in
    match @attachTypesToModels demoTypes demoHost [users] catalog true true
    with
    | Return out => out
    | Throw _ => []
    end.




(** A chart in which the group [paid] overrides two of the value options. *)
Definition chart : PieChartState :=
  {| groupFieldIds := ["orders_status"];
     metricId := Some "orders_total_revenue";
     isDonut := true;
     valueLabel := "hidden";
     showValue := false;
     showPercentage := true;
     groupLabelOverrides := [("paid", "Paid")];
     groupColorOverrides := [];
     groupValueOptionOverrides :=
       [("paid", [("valueLabel", IsString "inside");
                  ("showValue", IsBool true)]);
        ("open", [("showPercentage", IsBool false)])];
     showLegend := true |}.

End Scenarios.

(** * Properties *)

Open Scope list_scope.
Unset Implicit Arguments.

(** ** Lists of results *)

Lemma mapM_Return_length A B (f : A -> result B) xs ys :
  mapM f xs = Return ys -> List.length ys = List.length xs.
Proof.
  revert ys; induction xs as [|x xs IH]; simpl; intros ys E.
  - now inversion E.
  - destruct (f x); simpl in E; [|discriminate].
    destruct (mapM f xs); simpl in E; [|discriminate].
    inversion E; subst; simpl; f_equal; now apply IH.
Qed.

Lemma mapM_total A B (f : A -> result B) xs :
  (forall x, In x xs -> exists y, f x = Return y) ->
  exists ys, mapM f xs = Return ys.
Proof.
  induction xs as [|x xs IH]; simpl; intros Hf.
  - now exists [].
  - destruct (Hf x (or_introl eq_refl)) as [y ->].
    destruct IH as [ys ->]; [now intros; apply Hf; right|].
    now exists (y :: ys).
Qed.

Lemma mapM_pure A B (f : A -> result B) (g : A -> B) xs :
  (forall x, In x xs -> f x = Return (g x)) ->
  mapM f xs = Return (map g xs).
Proof.
  induction xs as [|x xs IH]; simpl; intros Hf; [reflexivity|].
  rewrite (Hf x (or_introl eq_refl)); simpl.
  rewrite IH; [reflexivity|]. now intros; apply Hf; right.
Qed.

Lemma reduceM_app A B (f : B -> A -> result B) xs ys init :
  reduceM f (xs ++ ys) init = (acc <- reduceM f xs init ;; reduceM f ys acc).
Proof.
  revert init; induction xs as [|x xs IH]; simpl; intros init; [reflexivity|].
  destruct (f init x); simpl; [apply IH|reflexivity].
Qed.

(** ** Objects *)

Lemma includes_In xs x : includes xs x = true <-> In x xs.
Proof.
  unfold includes. rewrite existsb_exists. split.
  - intros [y [Hy E]]. apply String.eqb_eq in E. now subst.
  - intros Hx. exists x. split; [assumption|apply String.eqb_refl].
Qed.

Lemma includes_false xs x : includes xs x = false <-> ~ In x xs.
Proof.
  rewrite <- includes_In. destruct (includes xs x); split; intros; congruence.
Qed.

Lemma obj_get_None V k (o : obj V) :
  obj_get k o = None <-> ~ In k (Object_keys o).
Proof.
  induction o as [|[k' v] o IH]; simpl.
  - tauto.
  - destruct (String.eqb_spec k' k); [subst|].
    + split; [discriminate|]. intros Hn; exfalso; apply Hn; now left.
    + rewrite IH. tauto.
Qed.

Lemma obj_get_Some_In V k (o : obj V) v :
  obj_get k o = Some v -> In k (Object_keys o).
Proof.
  intros E. destruct (in_dec string_dec k (Object_keys o)) as [Hi|Hn];
    [assumption|].
  apply obj_get_None in Hn. congruence.
Qed.

Lemma In_keys_get V k (o : obj V) :
  In k (Object_keys o) <-> exists v, obj_get k o = Some v.
Proof.
  split.
  - intros Hi. destruct (obj_get k o) eqn:E; [now eexists|].
    apply obj_get_None in E. contradiction.
  - intros [v E]. eapply obj_get_Some_In; eassumption.
Qed.

Lemma obj_has_In V k (o : obj V) :
  obj_has k o = true <-> In k (Object_keys o).
Proof. apply includes_In. Qed.

Lemma obj_get_replace V k v k' (o : obj V) :
  In k (Object_keys o) ->
  obj_get k' (obj_replace k v o) = if k =? k' then Some v else obj_get k' o.
Proof.
  induction o as [|[k0 v0] o IH]; simpl; [tauto|]. intros Hi.
  destruct (String.eqb_spec k0 k) as [->|Hne]; simpl.
  - destruct (String.eqb_spec k k'); reflexivity.
  - destruct Hi as [Hi|Hi]; [contradiction|].
    rewrite (IH Hi).
    destruct (String.eqb_spec k0 k') as [->|Hne'].
    + destruct (String.eqb_spec k k'); [subst; contradiction|reflexivity].
    + reflexivity.
Qed.

Lemma obj_get_insert_index V n k v k' (o : obj V) :
  ~ In k (Object_keys o) ->
  obj_get k' (obj_insert_index n k v o)
  = if k =? k' then Some v else obj_get k' o.
Proof.
  induction o as [|[k0 v0] o IH]; simpl; intros Hn.
  - reflexivity.
  - destruct (index_below n k0); simpl.
    + rewrite IH by tauto.
      destruct (String.eqb_spec k0 k') as [->|Hne']; [|reflexivity].
      destruct (String.eqb_spec k k'); [subst; tauto|reflexivity].
    + reflexivity.
Qed.

Lemma obj_get_app V k' (o1 o2 : obj V) :
  obj_get k' (o1 ++ o2)
  = match obj_get k' o1 with Some v => Some v | None => obj_get k' o2 end.
Proof.
  induction o1 as [|[k0 v0] o1 IH]; simpl; [reflexivity|].
  destruct (k0 =? k'); [reflexivity|apply IH].
Qed.

(** Reading a property after [{ ...o, [k]: v }]. *)
Lemma obj_get_set V k v k' (o : obj V) :
  obj_get k' (obj_set k v o) = if k =? k' then Some v else obj_get k' o.
Proof.
  unfold obj_set. destruct (obj_has k o) eqn:Hh.
  - apply obj_get_replace. now apply obj_has_In.
  - assert (Hn : ~ In k (Object_keys o)) by now apply includes_false.
    destruct (array_index k).
    + now apply obj_get_insert_index.
    + rewrite obj_get_app. simpl.
      destruct (String.eqb_spec k k') as [->|Hne].
      * apply obj_get_None in Hn. now rewrite Hn.
      * now destruct (obj_get k' o).
Qed.

Lemma In_keys_set V k v k' (o : obj V) :
  In k' (Object_keys (obj_set k v o)) <-> k' = k \/ In k' (Object_keys o).
Proof.
  rewrite !In_keys_get. setoid_rewrite obj_get_set.
  destruct (String.eqb_spec k k') as [->|Hne].
  - split; [now left|]. intros _. now eexists.
  - split; [now right|]. intros [E|Hi]; [congruence|assumption].
Qed.

(** Reading a property after [{ ...target, ...source }]: the last entry of
    [source] under that name, or else the one of [target]. *)
Lemma obj_get_spread V k (source : list (string * V)) (target : obj V) :
  obj_get k (obj_spread target source)
  = match obj_get k (rev source) with
    | Some v => Some v
    | None => obj_get k target
    end.
Proof.
  unfold obj_spread. revert target.
  induction source as [|[k0 v0] source IH]; simpl; intros target.
  - reflexivity.
  - rewrite IH, obj_get_app, obj_get_set. simpl.
    destruct (obj_get k (rev source)); [reflexivity|].
    now destruct (k0 =? k).
Qed.

Lemma Object_keys_rev V (o : obj V) :
  Object_keys (rev o) = rev (Object_keys o).
Proof. unfold Object_keys. now rewrite map_rev. Qed.

Lemma In_keys_spread V k (source : list (string * V)) (target : obj V) :
  In k (Object_keys (obj_spread target source))
  <-> In k (Object_keys source) \/ In k (Object_keys target).
Proof.
  split.
  - intros Hi. apply In_keys_get in Hi as [v E].
    rewrite obj_get_spread in E.
    destruct (obj_get k (rev source)) eqn:Er.
    + left. apply in_rev. rewrite <- Object_keys_rev.
      eapply obj_get_Some_In; eassumption.
    + right. eapply obj_get_Some_In; eassumption.
  - intros Hs. apply In_keys_get. rewrite obj_get_spread.
    destruct (obj_get k (rev source)) eqn:Er; [now eexists|].
    destruct Hs as [Hs|Ht].
    + apply obj_get_None in Er. rewrite Object_keys_rev in Er.
      exfalso; apply Er. now apply -> in_rev.
    + now apply In_keys_get.
Qed.

(** When the names of an object are written once, the first entry under a
    name is the only one. *)
Lemma obj_get_rev V k (o : obj V) :
  NoDup (Object_keys o) -> obj_get k (rev o) = obj_get k o.
Proof.
  induction o as [|[k0 v0] o IH]; simpl; intros Hnd; [reflexivity|].
  inversion Hnd as [|? ? Hn Hnd']; subst.
  rewrite obj_get_app, IH by assumption. simpl.
  destruct (String.eqb_spec k0 k) as [->|Hne].
  - apply obj_get_None in Hn. now rewrite Hn.
  - now destruct (obj_get k o).
Qed.

(** ** modelCanUseMetric *)

Lemma everyM_true A (p : A -> option bool) xs :
  everyM p xs = Some true <-> forall x, In x xs -> p x = Some true.
Proof.
  induction xs as [|x xs IH]; simpl.
  - split; [intros _ ? []|reflexivity].
  - destruct (p x) as [[|]|] eqn:E.
    + rewrite IH. split.
      * intros Hall y [<-|Hy]; [assumption|now apply Hall].
      * intros Hall y Hy. apply Hall. now right.
    + split; [discriminate|]. intros Hall.
      specialize (Hall x (or_introl eq_refl)). congruence.
    + split; [discriminate|]. intros Hall.
      specialize (Hall x (or_introl eq_refl)). congruence.
Qed.

Lemma everyM_false A (p : A -> option bool) xs :
  everyM p xs = Some false -> exists x, In x xs /\ p x = Some false.
Proof.
  induction xs as [|x xs IH]; simpl; [discriminate|].
  destruct (p x) as [[|]|] eqn:E; intros Hf.
  - destruct (IH Hf) as [y [Hy Ey]]. exists y. split; [now right|assumption].
  - exists x. split; [now left|assumption].
  - discriminate.
Qed.

Lemma everyM_mono A (p q : A -> option bool) xs b :
  (forall x c, In x xs -> p x = Some c -> q x = Some c) ->
  everyM p xs = Some b -> everyM q xs = Some b.
Proof.
  induction xs as [|x xs IH]; simpl; intros Hpq E; [assumption|].
  destruct (p x) as [[|]|] eqn:Ep; try discriminate.
  - rewrite (Hpq x true (or_introl eq_refl) Ep).
    apply IH; [|assumption]. intros y c Hy. apply Hpq. now right.
  - now rewrite (Hpq x false (or_introl eq_refl) Ep).
Qed.

Lemma everyM_total A (p : A -> option bool) xs :
  (forall x, In x xs -> exists b, p x = Some b) ->
  exists b, everyM p xs = Some b.
Proof.
  induction xs as [|x xs IH]; simpl; intros Hp; [now eexists|].
  destruct (Hp x (or_introl eq_refl)) as [[|] ->].
  - apply IH. intros y Hy. apply Hp. now right.
  - now eexists.
Qed.

Section ModelCanUseMetric.
Context {T : HostTypes}.
Variable metrics : list DbtMetric.
Variable modelName : string.

Lemma sameModel_true modelRef :
  sameModel modelRef modelName = true <-> modelRef = Some modelName.
Proof.
  destruct modelRef as [r|]; simpl.
  - rewrite String.eqb_eq. split; congruence.
  - split; discriminate.
Qed.

Lemma findMetric_name metricName metric :
  findMetric metricName metrics = Some metric ->
  metric_name metric = metricName /\ In metric metrics.
Proof.
  intros E. apply find_some in E as [Hin E].
  apply String.eqb_eq in E. now split.
Qed.

Lemma findMetric_present metricName :
  In metricName (map metric_name metrics) <->
  exists metric, findMetric metricName metrics = Some metric.
Proof.
  split.
  - intros Hin. apply in_map_iff in Hin as [m [Em Hm]].
    destruct (findMetric metricName metrics) eqn:E; [now eexists|].
    unfold findMetric, js_find in E.
    apply (find_none _ _ E) in Hm. apply String.eqb_neq in Hm. contradiction.
  - intros [metric E]. apply findMetric_name in E as [<- Hin].
    now apply in_map.
Qed.

(** One unfolding of the source function. *)
Lemma modelCanUseMetric_step fuel metricName :
  modelCanUseMetric (S fuel) metricName modelName metrics
  = match findMetric metricName metrics with
    | None => Some false
    | Some metric =>
        if sameModel (modelRefOf metric) modelName then Some true
        else if calculation_method metric =? "expression" then
          everyM (fun m =>
                    match m with
                    | Some name =>
                        modelCanUseMetric fuel name modelName metrics
                    | None => Some false
                    end)
                 (referencedMetrics metric)
        else Some false
    end.
Proof. reflexivity. Qed.

(** More fuel does not change an answer. *)
Lemma modelCanUseMetric_fuel_mono fuel fuel' metricName b :
  modelCanUseMetric fuel metricName modelName metrics = Some b ->
  fuel <= fuel' ->
  modelCanUseMetric fuel' metricName modelName metrics = Some b.
Proof.
  revert fuel' metricName b.
  induction fuel as [|fuel IH]; intros fuel' metricName b E Hle;
    [discriminate|].
  destruct fuel' as [|fuel']; [lia|].
  rewrite modelCanUseMetric_step in *.
  destruct (findMetric metricName metrics) as [metric|]; [|assumption].
  destruct (sameModel (modelRefOf metric) modelName); [assumption|].
  destruct (calculation_method metric =? "expression"); [|assumption].
  revert E. apply everyM_mono.
  intros [name|] c _ Ec; [|assumption].
  apply IH; [assumption|lia].
Qed.

Lemma modelCanUseMetric_true_Usable fuel metricName :
  modelCanUseMetric fuel metricName modelName metrics = Some true ->
  Usable metrics modelName metricName.
Proof.
  revert metricName. induction fuel as [|fuel IH]; intros metricName E;
    [discriminate|].
  rewrite modelCanUseMetric_step in E.
  destruct (findMetric metricName metrics) as [metric|] eqn:Ef;
    [|discriminate].
  destruct (sameModel (modelRefOf metric) modelName) eqn:Es.
  - eapply Usable_direct; [eassumption|]. now apply sameModel_true.
  - destruct (String.eqb_spec (calculation_method metric) "expression")
      as [Ec|Ec]; [|discriminate].
    rewrite everyM_true in E.
    eapply Usable_expression; [eassumption|assumption| |].
    + intros Hr. specialize (E None Hr). discriminate.
    + intros name Hr. apply IH. exact (E (Some name) Hr).
Qed.

Lemma modelCanUseMetric_false_not_Usable fuel metricName :
  modelCanUseMetric fuel metricName modelName metrics = Some false ->
  ~ Usable metrics modelName metricName.
Proof.
  revert metricName. induction fuel as [|fuel IH]; intros metricName E;
    [discriminate|].
  rewrite modelCanUseMetric_step in E. intros Hu.
  destruct (findMetric metricName metrics) as [metric|] eqn:Ef.
  - destruct (sameModel (modelRefOf metric) modelName) eqn:Es;
      [discriminate|].
    inversion Hu as [? metric' Ef' Er|? metric' Ef' Ec' Hdef Hall]; subst;
      rewrite Ef in Ef'; inversion Ef'; subst metric'.
    + apply sameModel_true in Er. congruence.
    + rewrite Ec' in E. simpl in E.
      apply everyM_false in E as [[name|] [Hr Er]]; [|contradiction].
      exact (IH name Er (Hall name Hr)).
  - inversion Hu; congruence.
Qed.

(** [Usable], by cases on the metric found under the name. *)
Lemma Usable_unfold metricName metric :
  findMetric metricName metrics = Some metric ->
  Usable metrics modelName metricName <->
  modelRefOf metric = Some modelName
  \/ (calculation_method metric = "expression"
      /\ forall r, In r (referencedMetrics metric) ->
                   exists name,
                     r = Some name /\ Usable metrics modelName name).
Proof.
  intros Ef. split.
  - intros Hu.
    inversion Hu as [? metric' Ef' Er|? metric' Ef' Ec' Hdef Hall]; subst;
      rewrite Ef in Ef'; inversion Ef'; subst metric'.
    + now left.
    + right. split; [assumption|]. intros [name|] Hr; [|contradiction].
      exists name. split; [reflexivity|]. now apply Hall.
  - intros [Er|[Ec Hall]].
    + eapply Usable_direct; eassumption.
    + eapply Usable_expression; [eassumption|assumption| |].
      * intros Hr. destruct (Hall None Hr) as [name [E _]]. discriminate.
      * intros name Hr. destruct (Hall (Some name) Hr) as [n [E Hn]].
        now inversion E.
Qed.

(** *** Termination *)

Lemma references_step metricName metric name :
  findMetric metricName metrics = Some metric ->
  (calculation_method metric =? "expression") = true ->
  In (Some name) (referencedMetrics metric) ->
  references metrics metricName name.
Proof.
  intros Ef Ec Hr. exists metric. repeat split; try assumption.
  now apply String.eqb_eq.
Qed.

(** A call made after the names in [visited] have been entered, none of them
    twice, comes back when the fuel covers the names that are left. *)
Lemma modelCanUseMetric_terminates_from :
  acyclic metrics ->
  forall fuel visited metricName,
    NoDup visited ->
    incl visited (map metric_name metrics) ->
    (forall v, In v visited ->
               clos_trans string (references metrics) v metricName) ->
    List.length metrics < List.length visited + fuel ->
    exists b, modelCanUseMetric fuel metricName modelName metrics = Some b.
Proof.
  intros Hacyclic. induction fuel as [|fuel IH];
    intros visited metricName Hnd Hincl Hreach Hlen.
  - exfalso. pose proof (NoDup_incl_length Hnd Hincl) as Hle.
    rewrite length_map in Hle. lia.
  - rewrite modelCanUseMetric_step.
    destruct (findMetric metricName metrics) as [metric|] eqn:Ef;
      [|now eexists].
    destruct (sameModel (modelRefOf metric) modelName); [now eexists|].
    destruct (calculation_method metric =? "expression") eqn:Ec;
      [|now eexists].
    apply everyM_total. intros [name|] Hr; [|now eexists].
    pose proof (references_step _ _ name Ef Ec Hr) as Hstep.
    apply (IH (metricName :: visited)).
    + constructor; [|assumption]. intros Hv.
      exact (Hacyclic metricName (Hreach _ Hv)).
    + intros v [<-|Hv]; [|now apply Hincl].
      apply <- findMetric_present. exists metric. exact Ef.
    + intros v [<-|Hv].
      * now apply t_step.
      * eapply t_trans; [now apply Hreach|now apply t_step].
    + simpl. lia.
Qed.

(** C9. When the reference relation of the expression metrics is acyclic,
    [modelCanUseMetric] comes back for every metric name and model name: a
    recursion depth of one more than the number of metrics is enough, and any
    larger depth gives the same answer. *)
Theorem modelCanUseMetric_terminates :
  acyclic metrics ->
  forall metricName,
  exists b,
    forall fuel, List.length metrics < fuel ->
      modelCanUseMetric fuel metricName modelName metrics = Some b.
Proof.
  intros Hacyclic metricName.
  destruct (modelCanUseMetric_terminates_from Hacyclic
              (S (List.length metrics)) [] metricName) as [b Eb].
  - constructor.
  - intros v [].
  - intros v [].
  - simpl. lia.
  - exists b. intros fuel Hlt.
    eapply modelCanUseMetric_fuel_mono; [exact Eb|lia].
Qed.

End ModelCanUseMetric.

(** A recursion that ends at all ends within the depth that
    [convertExplores] allows. *)
Section FuelAdequacy.
Context {T : HostTypes}.
Variable metrics : list DbtMetric.
Variable modelName : string.

Lemma modelCanUseMetric_None_down fuel fuel' metricName :
  modelCanUseMetric fuel metricName modelName metrics = None ->
  fuel' <= fuel ->
  modelCanUseMetric fuel' metricName modelName metrics = None.
Proof.
  intros En Hle.
  destruct (modelCanUseMetric fuel' metricName modelName metrics) as [b|] eqn:E;
    [|reflexivity].
  rewrite (modelCanUseMetric_fuel_mono _ _ _ _ _ _ E Hle) in En.
  discriminate.
Qed.

Lemma modelCanUseMetric_least_fuel fuel metricName b :
  modelCanUseMetric fuel metricName modelName metrics = Some b ->
  exists k,
    k < fuel
    /\ modelCanUseMetric (S k) metricName modelName metrics = Some b
    /\ modelCanUseMetric k metricName modelName metrics = None.
Proof.
  induction fuel as [|fuel IH]; intros E; [discriminate|].
  destruct (modelCanUseMetric fuel metricName modelName metrics) as [b'|] eqn:E'.
  - assert (b' = b) as ->.
    { rewrite (modelCanUseMetric_fuel_mono _ _ _ _ _ _ E'
                 (Nat.le_succ_diag_r fuel)) in E.
      now inversion E. }
    destruct (IH eq_refl) as [k [Hk [E1 E2]]].
    exists k. repeat split; [lia|assumption|assumption].
  - exists fuel. repeat split; [lia|assumption|assumption].
Qed.

Lemma modelCanUseMetric_adequate_from :
  forall fuel visited metricName k b,
    modelCanUseMetric (S k) metricName modelName metrics = Some b ->
    modelCanUseMetric k metricName modelName metrics = None ->
    NoDup visited ->
    incl visited (map metric_name metrics) ->
    (forall v, In v visited ->
               modelCanUseMetric (S k) v modelName metrics = None) ->
    List.length metrics < List.length visited + fuel ->
    modelCanUseMetric fuel metricName modelName metrics = Some b.
Proof.
  induction fuel as [|fuel IH];
    intros visited metricName k b Eb En Hnd Hincl Hvis Hlen.
  - exfalso. pose proof (NoDup_incl_length Hnd Hincl) as Hle.
    rewrite length_map in Hle. lia.
  - pose proof Eb as Eb'.
    rewrite modelCanUseMetric_step in Eb' |- *.
    destruct (findMetric metricName metrics) as [metric|] eqn:Ef;
      [|assumption].
    destruct (sameModel (modelRefOf metric) modelName); [assumption|].
    destruct (calculation_method metric =? "expression"); [|assumption].
    revert Eb'. apply everyM_mono.
    intros [name|] c _ Ec; [|assumption].
    destruct (modelCanUseMetric_least_fuel _ _ _ Ec) as [k' [Hk' [E1 E2]]].
    apply (IH (metricName :: visited) name k' c E1 E2).
    + constructor; [|assumption]. intros Hv.
      rewrite (Hvis _ Hv) in Eb. discriminate.
    + intros v [<-|Hv]; [|now apply Hincl].
      apply <- findMetric_present. exists metric. exact Ef.
    + intros v [<-|Hv].
      * apply (modelCanUseMetric_None_down k); [exact En|lia].
      * apply (modelCanUseMetric_None_down (S k)); [exact (Hvis _ Hv)|lia].
    + simpl. lia.
Qed.

Lemma modelCanUseMetric_fuel_adequate fuel metricName b :
  modelCanUseMetric fuel metricName modelName metrics = Some b ->
  modelCanUseMetric (S (List.length metrics)) metricName modelName metrics
  = Some b.
Proof.
  intros E.
  destruct (modelCanUseMetric_least_fuel _ _ _ E) as [k [_ [E1 E2]]].
  apply (modelCanUseMetric_adequate_from _ [] metricName k b E1 E2).
  - constructor.
  - intros v [].
  - intros v [].
  - simpl. lia.
Qed.

End FuelAdequacy.

(** A usable metric is answered: the recursion follows the derivation. *)
Lemma Usable_answered {T : HostTypes} metrics modelName metricName :
  Usable metrics modelName metricName ->
  exists fuel,
    modelCanUseMetric fuel metricName modelName metrics = Some true.
Proof.
  induction 1 as [metricName metric Ef Er
                 |metricName metric Ef Ec Hdef Hall IH].
  - exists 1. rewrite modelCanUseMetric_step, Ef.
    apply sameModel_true in Er. now rewrite Er.
  - assert (Hrefs :
      exists fuel,
        everyM (fun m =>
                  match m with
                  | Some name => modelCanUseMetric fuel name modelName metrics
                  | None => Some false
                  end)
               (referencedMetrics metric) = Some true).
    { clear Hall Ef Ec.
      induction (referencedMetrics metric) as [|r refs IHrefs].
      - now exists 0.
      - destruct r as [name|]; [|exfalso; apply Hdef; now left].
        destruct (IH name (or_introl eq_refl)) as [fuel1 E1].
        destruct IHrefs as [fuel2 E2].
        + intros Hn. apply Hdef. now right.
        + intros n Hn. apply IH. now right.
        + exists (Nat.max fuel1 fuel2). simpl.
          rewrite (modelCanUseMetric_fuel_mono _ _ _ _ _ _ E1
                     (Nat.le_max_l fuel1 fuel2)).
          revert E2. apply everyM_mono.
          intros [n|] c _ Ec; [|assumption].
          eapply modelCanUseMetric_fuel_mono; [exact Ec|].
          apply Nat.le_max_r. }
    destruct Hrefs as [fuel E]. exists (S fuel).
    rewrite modelCanUseMetric_step, Ef.
    destruct (sameModel (modelRefOf metric) modelName); [reflexivity|].
    now rewrite Ec, String.eqb_refl.
Qed.

(** C5. For a metric name present in the list, [modelCanUseMetric] returns
    [true] if and only if the first declared model reference of the metric is
    the model, or the metric is an expression metric all of whose references
    are (recursively) usable by the model.  In that case it answers [true]
    at every depth above the number of metrics; whenever it answers at all,
    the answer is [true] exactly in that case; otherwise it returns [false]
    or its recursion has no end, and it returns [false] when the references
    are acyclic.  A metric that is not an expression metric and whose first
    reference is another model is not usable: the answer is [false]. *)
Theorem modelCanUseMetric_iff {T : HostTypes}
  metrics modelName metricName metric :
  findMetric metricName metrics = Some metric ->
  let usable :=
    modelRefOf metric = Some modelName
    \/ (calculation_method metric = "expression"
        /\ forall r, In r (referencedMetrics metric) ->
                     exists name,
                       r = Some name /\ Usable metrics modelName name) in
  (usable <-> Usable metrics modelName metricName)
  /\ (modelCanUseMetric_call metricName modelName metrics = Return true
      <-> usable)
  /\ (usable ->
      forall fuel, List.length metrics < fuel ->
        modelCanUseMetric fuel metricName modelName metrics = Some true)
  /\ (forall fuel b,
        modelCanUseMetric fuel metricName modelName metrics = Some b ->
        (b = true <-> usable))
  /\ (~ usable ->
      modelCanUseMetric_call metricName modelName metrics = Return false
      \/ forall fuel,
           modelCanUseMetric fuel metricName modelName metrics = None)
  /\ (~ usable -> acyclic metrics ->
      modelCanUseMetric_call metricName modelName metrics = Return false)
  /\ (calculation_method metric <> "expression" ->
      modelRefOf metric <> Some modelName ->
      modelCanUseMetric_call metricName modelName metrics = Return false).
Proof.
  intros Ef usable.
  assert (Hu : usable <-> Usable metrics modelName metricName)
    by (symmetry; now apply Usable_unfold).
  assert (Htrue : usable ->
            forall fuel, List.length metrics < fuel ->
              modelCanUseMetric fuel metricName modelName metrics = Some true).
  { intros Hus fuel Hlt. apply Hu, Usable_answered in Hus as [fuel0 E].
    apply modelCanUseMetric_fuel_adequate in E.
    eapply modelCanUseMetric_fuel_mono; [exact E|lia]. }
  assert (Hans : forall fuel b,
            modelCanUseMetric fuel metricName modelName metrics = Some b ->
            (b = true <-> usable)).
  { intros fuel b E. rewrite Hu. destruct b.
    - split; [intros _|reflexivity].
      eapply modelCanUseMetric_true_Usable; eassumption.
    - split; [discriminate|]. intros Hus. exfalso.
      eapply modelCanUseMetric_false_not_Usable; eassumption. }
  assert (Hfalse : ~ usable ->
            modelCanUseMetric_call metricName modelName metrics = Return false
            \/ forall fuel,
                 modelCanUseMetric fuel metricName modelName metrics = None).
  { intros Hnot. unfold modelCanUseMetric_call.
    destruct (modelCanUseMetric (S (List.length metrics)) metricName modelName
                metrics) as [[|]|] eqn:E.
    - exfalso. apply Hnot. now apply (Hans _ _ E).
    - now left.
    - right. intros fuel.
      destruct (modelCanUseMetric fuel metricName modelName metrics)
        as [b|] eqn:E'; [|reflexivity].
      apply modelCanUseMetric_fuel_adequate in E'. congruence. }
  split; [exact Hu|]. split; [|split; [exact Htrue|split; [exact Hans|]]].
  - unfold modelCanUseMetric_call. split.
    + destruct (modelCanUseMetric (S (List.length metrics)) metricName
                  modelName metrics) as [b|] eqn:E; [|discriminate].
      intros Eb. inversion Eb; subst b. now apply (Hans _ _ E).
    + intros Hus. now rewrite (Htrue Hus (S (List.length metrics))) by lia.
  - split; [exact Hfalse|]. split.
    + intros Hnot Hacyclic. destruct (Hfalse Hnot) as [E|Hnone]; [exact E|].
      destruct (modelCanUseMetric_terminates_from metrics modelName Hacyclic
                  (S (List.length metrics)) [] metricName) as [b Eb].
      * constructor.
      * intros v [].
      * intros v [].
      * simpl. lia.
      * rewrite Hnone in Eb. discriminate.
    + intros Hne Hnr. unfold modelCanUseMetric_call.
      rewrite modelCanUseMetric_step, Ef.
      destruct (sameModel (modelRefOf metric) modelName) eqn:Es.
      * apply sameModel_true in Es. contradiction.
      * apply String.eqb_neq in Hne. now rewrite Hne.
Qed.

(** ** convertExplores *)

Lemma bind_Return A B (c : result A) (k : A -> result B) b :
  bind c k = Return b -> exists a, c = Return a /\ k a = Return b.
Proof. destruct c as [a|e]; simpl; [now exists a|discriminate]. Qed.


Section ConvertExplores.
Context {T : HostTypes} {H : Host}.

Lemma convertTable_name adapterType model dbtMetrics table :
  convertTable adapterType model dbtMetrics = Return table ->
  t_name table = model_name model.
Proof.
  unfold convertTable. destruct (compiled model); simpl; [|discriminate].
  intros E. apply bind_Return in E as [[dimensions metrics] [_ E]].
  apply bind_Return in E as [converted [_ E]].
  destruct (0 <? _)%nat; [discriminate|].
  destruct (negb _); [discriminate|]. now inversion E.
Qed.


Lemma withLineage_name table lineage :
  t_name (withLineage table lineage) = t_name table.
Proof. now destruct lineage. Qed.

Variable tableLineage : obj LineageGraph.
Variable loadSources : bool.
Variable adapterType : SupportedDbtAdapter.
Variable metrics : list DbtMetric.

Lemma tableOfModel_name model table :
  tableOfModel tableLineage loadSources adapterType metrics model
  = Return table ->
  t_name table = model_name model.
Proof.
  unfold tableOfModel. intros E.
  apply bind_Return in E as [tableMetrics [_ E]].
  apply bind_Return in E as [table0 [Et E]].
  apply bind_Return in E as [[] [_ E]].
  inversion E. rewrite withLineage_name.
  eapply convertTable_name; eassumption.
Qed.



(** The first [reduce], whatever the accumulator it starts from. *)
Lemma reduceM_convertModelStep models tables errors :
  reduceM (convertModelStep tableLineage loadSources adapterType metrics)
          models (tables, errors)
  = Return
      (tables ++ convertedTables tableLineage loadSources adapterType metrics
                   models,
       errors ++ tableExploreErrors tableLineage loadSources adapterType
                   metrics models).
Proof.
  revert tables errors.
  induction models as [|model models IH]; intros tables errors; simpl.
  - now rewrite !app_nil_r.
  - unfold convertedTables, tableExploreErrors in *. simpl.
    destruct (tableOfModel tableLineage loadSources adapterType metrics model)
      as [table|e]; simpl; rewrite IH; simpl; now rewrite <- !app_assoc.
Qed.

Lemma mapM_compileModel tableLookup models :
  mapM (compileModel adapterType tableLookup) models
  = Return (map (compiledOrError adapterType tableLookup) models).
Proof.
  apply mapM_pure. intros model _. unfold compileModel, compiledOrError.
  now destruct (compileExplore _).
Qed.


Lemma In_convertedTables model table models :
  In model models ->
  tableOfModel tableLineage loadSources adapterType metrics model
  = Return table ->
  In table
     (convertedTables tableLineage loadSources adapterType metrics models).
Proof.
  intros Hin E. unfold convertedTables. apply in_flat_map.
  exists model. split; [assumption|]. rewrite E. now left.
Qed.

End ConvertExplores.

Lemma In_keys_tableLookup {T : HostTypes} (tables : list Table) acc k :
  In k (Object_keys
          (fold_left (fun prev table => obj_set (t_name table) table prev)
                     tables acc))
  <-> In k (map t_name tables) \/ In k (Object_keys acc).
Proof.
  revert acc. induction tables as [|table tables IH]; intros acc; simpl.
  - tauto.
  - rewrite IH, In_keys_set. intuition congruence.
Qed.

Lemma NoDup_map_eq A B (f : A -> B) (xs : list A) a b :
  NoDup (map f xs) -> In a xs -> In b xs -> f a = f b -> a = b.
Proof.
  induction xs as [|x xs IH]; simpl; intros Hnd Ha Hb E; [destruct Ha|].
  inversion Hnd as [|? ? Hn Hnd']; subst.
  destruct Ha as [->|Ha], Hb as [->|Hb]; try reflexivity.
  - exfalso. apply Hn. rewrite E. now apply in_map.
  - exfalso. apply Hn. rewrite <- E. now apply in_map.
  - now apply IH.
Qed.

(** The names that the table lookup holds are the names of the models whose
    conversion came back. *)
Lemma tableLookup_has {T : HostTypes} {H : Host}
  tableLineage loadSources adapterType metrics models name :
  obj_has name
    (tableLookupOf
       (convertedTables tableLineage loadSources adapterType metrics models))
  = true
  <-> exists other table,
        In other models
        /\ tableOfModel tableLineage loadSources adapterType metrics other
           = Return table
        /\ model_name other = name.
Proof.
  rewrite obj_has_In. unfold tableLookupOf. rewrite In_keys_tableLookup.
  split.
  - intros [Hk|[]]. apply in_map_iff in Hk as [table [En Htable]].
    apply in_flat_map in Htable as [other [Hin Htable]].
    destruct (tableOfModel tableLineage loadSources adapterType metrics other)
      as [table'|e] eqn:Et; [|destruct Htable].
    destruct Htable as [->|[]]. exists other, table.
    split; [assumption|]. split; [exact Et|].
    now rewrite <- (tableOfModel_name _ _ _ _ _ _ Et).
  - intros [other [table [Hin [Et <-]]]]. left.
    rewrite <- (tableOfModel_name _ _ _ _ _ _ Et). apply in_map.
    eapply In_convertedTables; eassumption.
Qed.


(** When the models have distinct names, none of them the name of an
    inherited property, the models that the second phase takes up are the
    models whose conversion came back. *)
Lemma validModels_succeeded {T : HostTypes} {H : Host}
  tableLineage loadSources adapterType metrics models :
  NoDup (map model_name models) ->
  (forall model, In model models ->
     ~ In (model_name model) Object_prototype_keys) ->
  validModelsOf
    (tableLookupOf
       (convertedTables tableLineage loadSources adapterType metrics models))
    models
  = filter
      (fun model =>
         match tableOfModel tableLineage loadSources adapterType metrics model
         with
         | Return _ => true
         | Throw _ => false
         end)
      models.
Proof.
  intros Hnd Hown. unfold validModelsOf. apply filter_ext_in.
  intros model Hin. unfold obj_defined.
  rewrite (proj2 (includes_false _ _) (Hown model Hin)), orb_false_r.
  destruct (tableOfModel tableLineage loadSources adapterType metrics model)
    as [table|e] eqn:Et.
  - apply tableLookup_has. now exists model, table.
  - destruct (obj_has _ _) eqn:Eh; [|reflexivity].
    apply tableLookup_has in Eh as [other [table [Hin2 [Et2 En]]]].
    rewrite (NoDup_map_eq _ _ _ _ _ _ Hnd Hin2 Hin En) in Et2. congruence.
Qed.

(** What [convertExplores] returns once the lineage is built. *)
Lemma convertExploresFrom_result {T : HostTypes} {H : Host}
  tableLineage models loadSources adapterType metrics :
  let tableLookup :=
    tableLookupOf
      (convertedTables tableLineage loadSources adapterType metrics models) in
  convertExploresFrom tableLineage models loadSources adapterType metrics
  = Return
      (map (compiledOrError adapterType tableLookup)
           (validModelsOf tableLookup models)
       ++ map inr (tableExploreErrors tableLineage loadSources adapterType
                     metrics models)).
Proof.
  intros tableLookup. unfold convertExploresFrom.
  rewrite reduceM_convertModelStep. simpl.
  fold tableLookup. now rewrite mapM_compileModel.
Qed.



(** ** Names are written once in the objects the translator builds *)

Lemma Object_keys_replace V k v (o : obj V) :
  Object_keys (obj_replace k v o) = Object_keys o.
Proof.
  induction o as [|[k0 v0] o IH]; simpl; [reflexivity|].
  destruct (k0 =? k); simpl; [reflexivity|now rewrite IH].
Qed.

Lemma In_keys_insert_index V n k v k' (o : obj V) :
  In k' (Object_keys (obj_insert_index n k v o))
  <-> k' = k \/ In k' (Object_keys o).
Proof.
  induction o as [|[k0 v0] o IH]; simpl.
  - intuition congruence.
  - destruct (index_below n k0); simpl; [rewrite IH|]; intuition congruence.
Qed.

Lemma NoDup_keys_insert_index V n k v (o : obj V) :
  ~ In k (Object_keys o) ->
  NoDup (Object_keys o) ->
  NoDup (Object_keys (obj_insert_index n k v o)).
Proof.
  induction o as [|[k0 v0] o IH]; simpl; intros Hn Hnd.
  - constructor; [tauto|constructor].
  - destruct (index_below n k0); simpl.
    + inversion Hnd as [|? ? Hn0 Hnd']; subst. constructor.
      * rewrite In_keys_insert_index. intros [->|Hi]; tauto.
      * apply IH; tauto.
    + constructor; assumption.
Qed.

Lemma NoDup_keys_set V k v (o : obj V) :
  NoDup (Object_keys o) -> NoDup (Object_keys (obj_set k v o)).
Proof.
  intros Hnd. unfold obj_set. destruct (obj_has k o) eqn:Hh.
  - now rewrite Object_keys_replace.
  - assert (Hn : ~ In k (Object_keys o)) by now apply includes_false.
    destruct (array_index k).
    + now apply NoDup_keys_insert_index.
    + unfold Object_keys. rewrite map_app. simpl.
      apply NoDup_app; [assumption|constructor; [tauto|constructor]|].
      intros x Hx [<-|[]]. contradiction.
Qed.

Lemma NoDup_keys_spread V (source : list (string * V)) (target : obj V) :
  NoDup (Object_keys target) ->
  NoDup (Object_keys (obj_spread target source)).
Proof.
  unfold obj_spread. revert target.
  induction source as [|[k v] source IH]; simpl; intros target Hnd;
    [assumption|].
  apply IH. now apply NoDup_keys_set.
Qed.

Lemma NoDup_keys_fromEntries V (entries : list (string * V)) :
  NoDup (Object_keys (Object_fromEntries entries)).
Proof. apply NoDup_keys_spread. constructor. Qed.

(** Reading after a spread of an object whose names are written once. *)
Lemma obj_get_spread_obj V k (source target : obj V) :
  NoDup (Object_keys source) ->
  obj_get k (obj_spread target source)
  = match obj_get k source with
    | Some v => Some v
    | None => obj_get k target
    end.
Proof. intros Hnd. now rewrite obj_get_spread, obj_get_rev. Qed.

(** ** convertTable *)

Lemma reduceM_invariant A B (P : B -> Prop) (f : B -> A -> result B) xs :
  (forall acc x acc', P acc -> f acc x = Return acc' -> P acc') ->
  forall init res, P init -> reduceM f xs init = Return res -> P res.
Proof.
  intros Hstep. induction xs as [|x xs IH]; simpl; intros init res Hinit E.
  - inversion E. now subst.
  - apply bind_Return in E as [acc [Ef E]].
    eapply IH; [|eassumption]. eapply Hstep; eassumption.
Qed.

Section ConvertTable.
Context {T : HostTypes} {H : Host}.
Variable adapterType : SupportedDbtAdapter.
Variable model : DbtModelNode.

(** What a model that converts went through. *)
Lemma convertTable_Return dbtMetrics table :
  convertTable adapterType model dbtMetrics = Return table ->
  exists dimensions metrics converted,
    compiled model = true
    /\ convertColumns adapterType model (modelLabel model)
       = Return (dimensions, metrics)
    /\ convertedDbtMetricsOf model (modelLabel model) dbtMetrics
       = Return converted
    /\ duplicatedNamesOf (obj_spread converted metrics) dimensions = []
    /\ t_dimensions table = dimensions
    /\ t_metrics table = obj_spread converted metrics.
Proof.
  unfold convertTable. destruct (compiled model); simpl; [|discriminate].
  intros E. apply bind_Return in E as [[dimensions metrics] [Ecols E]].
  apply bind_Return in E as [converted [Econv E]].
  exists dimensions, metrics, converted.
  destruct (duplicatedNamesOf (obj_spread converted metrics) dimensions)
    as [|name names] eqn:Ed; simpl in E; [|discriminate].
  destruct (negb _); [discriminate|]. inversion E; subst. simpl.
  repeat split; assumption.
Qed.

Lemma convertColumn_NoDup tableLabel acc column acc' :
  convertColumn adapterType model tableLabel acc column = Return acc' ->
  NoDup (Object_keys (fst acc)) /\ NoDup (Object_keys (snd acc)) ->
  NoDup (Object_keys (fst acc')) /\ NoDup (Object_keys (snd acc')).
Proof.
  destruct acc as [prevDimensions prevMetrics]. unfold convertColumn.
  intros E [Hd Hm].
  apply bind_Return in E as [dimension [_ E]].
  apply bind_Return in E as [extraDimensions [_ E]].
  apply bind_Return in E as [columnMetrics [_ E]].
  inversion E; subst; simpl. split.
  - apply NoDup_keys_spread. now apply NoDup_keys_set.
  - now apply NoDup_keys_spread.
Qed.

Lemma convertColumns_NoDup tableLabel dimensions metrics :
  convertColumns adapterType model tableLabel = Return (dimensions, metrics) ->
  NoDup (Object_keys dimensions) /\ NoDup (Object_keys metrics).
Proof.
  unfold convertColumns. intros E.
  pose (P := fun acc : obj Dimension * obj Metric =>
               NoDup (Object_keys (fst acc)) /\ NoDup (Object_keys (snd acc))).
  change (P (dimensions, metrics)).
  revert E. apply (reduceM_invariant _ _ P).
  - intros acc x acc' Hacc Ex. eapply convertColumn_NoDup; eassumption.
  - split; constructor.
Qed.

Lemma duplicatedNamesOf_In (allMetrics : obj Metric)
  (dimensions : obj Dimension) name :
  In name (duplicatedNamesOf allMetrics dimensions)
  <-> In name (Object_keys allMetrics) /\ In name (Object_keys dimensions).
Proof.
  unfold duplicatedNamesOf. rewrite filter_In, includes_In. tauto.
Qed.

(** C3. For a compiled model whose columns and dbt metrics convert, the names
    that are keys of both the merged metric map and the dimension map are
    listed, each once, in the message of the [ParseError] that [convertTable]
    throws when there is at least one, with the plural opening for more than
    one name and the singular opening for exactly one; when there is none,
    [convertTable] returns the table, or throws only for the missing relation
    name. *)
Theorem convertTable_duplicated_names dbtMetrics dimensions metrics converted :
  compiled model = true ->
  convertColumns adapterType model (modelLabel model)
  = Return (dimensions, metrics) ->
  convertedDbtMetricsOf model (modelLabel model) dbtMetrics
  = Return converted ->
  let allMetrics := obj_spread converted metrics in
  let duplicatedNames := duplicatedNamesOf allMetrics dimensions in
  (forall name,
     In name duplicatedNames
     <-> In name (Object_keys allMetrics) /\ In name (Object_keys dimensions))
  /\ NoDup duplicatedNames
  /\ (duplicatedNames <> [] ->
      convertTable adapterType model dbtMetrics
      = Throw (ParseError
                 ((if (1 <? List.length duplicatedNames)%nat
                   then "Found multiple metrics and a dimensions with the same name:"
                   else "Found a metric and a dimension with the same name:")
                  ++ " " ++ join "," duplicatedNames)%string))
  /\ (duplicatedNames = [] ->
      (truthy (relation_name model) = true ->
       exists table,
         convertTable adapterType model dbtMetrics = Return table
         /\ t_dimensions table = dimensions
         /\ t_metrics table = allMetrics)
      /\ (truthy (relation_name model) = false ->
          convertTable adapterType model dbtMetrics
          = Throw (Error "Model has no table relation"))).
Proof.
  intros Hc Ecols Econv allMetrics duplicatedNames.
  split; [intros name; apply duplicatedNamesOf_In|]. split.
  - apply NoDup_filter. apply NoDup_keys_spread.
    apply bind_Return in Econv as [entries [_ E]]. inversion E.
    apply NoDup_keys_fromEntries.
  - unfold convertTable. rewrite Hc, Ecols, Econv. simpl.
    fold allMetrics duplicatedNames. split.
    + intros Hne. destruct duplicatedNames; [congruence|reflexivity].
    + intros ->. simpl. split; intros ->; simpl; [|reflexivity].
      eexists. split; [reflexivity|]. now split.
Qed.

(** C6. In the table that [convertTable] returns, the metric map is the
    converted dbt metrics overwritten by the metrics of the columns: a name
    that a column declares holds the metric of the column, also when a dbt
    metric has the same name; any other name holds the converted dbt metric
    of that name, when there is one. *)
Theorem convertTable_column_metric_wins dbtMetrics table :
  convertTable adapterType model dbtMetrics = Return table ->
  exists dimensions metrics converted,
    convertColumns adapterType model (modelLabel model)
    = Return (dimensions, metrics)
    /\ convertedDbtMetricsOf model (modelLabel model) dbtMetrics
       = Return converted
    /\ t_metrics table = obj_spread converted metrics
    /\ (forall name m,
          obj_get name metrics = Some m ->
          obj_get name (t_metrics table) = Some m)
    /\ (forall name,
          obj_get name metrics = None ->
          obj_get name (t_metrics table) = obj_get name converted).
Proof.
  intros E.
  destruct (convertTable_Return _ _ E)
    as [dimensions [metrics [converted [_ [Ecols [Econv [_ [_ Em]]]]]]]].
  exists dimensions, metrics, converted.
  destruct (convertColumns_NoDup _ _ _ Ecols) as [_ Hnd].
  repeat split; try assumption.
  - intros name m Eg. rewrite Em, obj_get_spread_obj, Eg by assumption.
    reflexivity.
  - intros name Eg. rewrite Em, obj_get_spread_obj, Eg by assumption.
    reflexivity.
Qed.

Lemma append_inj_l (a b c : string) : (a ++ b = a ++ c)%string -> b = c.
Proof.
  induction a as [|ch a IH]; simpl; intros E; [assumption|].
  inversion E. now apply IH.
Qed.

Lemma append_not_self (a b : string) :
  (a ++ b = a)%string -> b = EmptyString.
Proof.
  induction a as [|ch a IH]; simpl; intros E; [assumption|].
  inversion E. now apply IH.
Qed.

Lemma interval_key_not_name (name interval : string) :
  (name ++ "_" ++ interval)%string <> name.
Proof. intros E. apply append_not_self in E. discriminate. Qed.

#[local] Arguments String.append : simpl never.

Variable tableLabel : string.

(** The dimension of a column for an interval. *)
Lemma convertDimension_interval column source interval d :
  convertDimension adapterType model tableLabel column source (Some interval)
  = Return d ->
  interval <> EmptyString ->
  d_name d = (col_name column ++ "_" ++ toLowerCase interval)%string
  /\ d_group d = Some (col_name column)
  /\ d_timeInterval d = Some interval.
Proof.
  unfold convertDimension. intros E Hne.
  destruct (negb (includes DimensionType_values (columnType column)));
    [discriminate|].
  apply bind_Return in E as [sql [_ E]].
  simpl in E. apply String.eqb_neq in Hne. rewrite Hne in E. simpl in E.
  apply bind_Return in E as [sql' [_ E]]. inversion E. simpl. auto.
Qed.

Section ExtraDimensions.
Variable column : DbtModelColumn.

Let step (acc : obj Dimension) (interval : TimeFrames) :=
  d <- convertDimension adapterType model tableLabel column None
         (Some interval) ;;
  Return (obj_set (col_name column ++ "_" ++ interval)%string d acc).

Lemma extraDimensions_keys intervals :
  forall acc extra,
    reduceM step intervals acc = Return extra ->
    forall k, In k (Object_keys extra) ->
      In k (Object_keys acc)
      \/ exists interval,
           In interval intervals
           /\ (col_name column ++ "_" ++ interval)%string = k.
Proof.
  induction intervals as [|interval intervals IH]; simpl; intros acc extra E k Hk.
  - inversion E; subst. now left.
  - apply bind_Return in E as [acc' [Es E]].
    unfold step in Es. apply bind_Return in Es as [d [_ Es]].
    inversion Es; subst acc'.
    destruct (IH _ _ E k Hk) as [Hin|[iv [Hiv Ek]]];
      [|right; exists iv; auto].
    apply In_keys_set in Hin as [->|Hin]; [|now left].
    right. exists interval. auto.
Qed.

Lemma extraDimensions_NoDup intervals :
  forall acc extra,
    reduceM step intervals acc = Return extra ->
    NoDup (Object_keys acc) -> NoDup (Object_keys extra).
Proof.
  intros acc extra E Hnd. revert E.
  apply (reduceM_invariant _ _ (fun o => NoDup (Object_keys o))); [|assumption].
  intros o x o' Ho Es. unfold step in Es.
  apply bind_Return in Es as [d [_ Es]]. inversion Es.
  now apply NoDup_keys_set.
Qed.

Lemma extraDimensions_get interval intervals :
  forall acc extra,
    reduceM step intervals acc = Return extra ->
    In interval intervals
    \/ (exists d,
          obj_get (col_name column ++ "_" ++ interval)%string acc = Some d
          /\ convertDimension adapterType model tableLabel column None
               (Some interval) = Return d) ->
    exists d,
      obj_get (col_name column ++ "_" ++ interval)%string extra = Some d
      /\ convertDimension adapterType model tableLabel column None
           (Some interval) = Return d.
Proof.
  induction intervals as [|iv intervals IH]; simpl; intros acc extra E Hcase.
  - inversion E; subst. destruct Hcase as [[]|Hd]. exact Hd.
  - apply bind_Return in E as [acc' [Es E]].
    unfold step in Es. apply bind_Return in Es as [d [Ed Es]].
    inversion Es; subst acc'. apply (IH _ _ E).
    destruct (string_dec iv interval) as [->|Hne].
    + right. exists d. split; [|assumption].
      rewrite obj_get_set. now rewrite String.eqb_refl.
    + destruct Hcase as [[Heq|Hin]|[d0 [Eg Ed0]]];
        [contradiction|now left|].
      right. exists d0. split; [|assumption].
      rewrite obj_get_set.
      destruct (String.eqb_spec (col_name column ++ "_" ++ iv)
                  (col_name column ++ "_" ++ interval)) as [Ek|_];
        [|exact Eg].
      apply append_inj_l in Ek. apply (append_inj_l "_") in Ek.
      contradiction.
Qed.

End ExtraDimensions.

(** The dimensions after one column. *)
Lemma convertColumn_dimensions prevDimensions prevMetrics column acc' :
  convertColumn adapterType model tableLabel (prevDimensions, prevMetrics)
    column = Return acc' ->
  exists dimension extraDimensions,
    convertDimension adapterType model tableLabel column None None
    = Return dimension
    /\ (if expandsTimeIntervals dimension column then
          intervals <- columnIntervals dimension column ;;
          extraDimensionsOf adapterType model tableLabel column intervals
        else Return []) = Return extraDimensions
    /\ fst acc'
       = obj_spread (obj_set (col_name column) dimension prevDimensions)
           extraDimensions.
Proof.
  unfold convertColumn. intros E.
  apply bind_Return in E as [dimension [Ed E]].
  apply bind_Return in E as [extraDimensions [Ex E]].
  apply bind_Return in E as [columnMetrics [_ E]].
  exists dimension, extraDimensions. inversion E. auto.
Qed.

(** The keys of the extra dimensions of a column are built from the
    intervals that the column is expanded into. *)
Lemma extraDimensions_written dimension column extraDimensions :
  (if expandsTimeIntervals dimension column then
     intervals <- columnIntervals dimension column ;;
     extraDimensionsOf adapterType model tableLabel column intervals
   else Return []) = Return extraDimensions ->
  NoDup (Object_keys extraDimensions)
  /\ forall k, In k (Object_keys extraDimensions) ->
       expandsTimeIntervals dimension column = true
       /\ exists intervals interval,
            columnIntervals dimension column = Return intervals
            /\ In interval intervals
            /\ (col_name column ++ "_" ++ interval)%string = k.
Proof.
  destruct (expandsTimeIntervals dimension column).
  - intros E. apply bind_Return in E as [intervals [Ei E]].
    unfold extraDimensionsOf in E. split.
    + eapply extraDimensions_NoDup; [eassumption|constructor].
    + intros k Hk. split; [reflexivity|].
      destruct (extraDimensions_keys _ _ _ _ E k Hk)
        as [[]|[interval [Hin Ek]]].
      now exists intervals, interval.
  - intros E. inversion E. split; [constructor|intros k []].
Qed.

Lemma extraDimensions_of_column dimension column extraDimensions :
  (if expandsTimeIntervals dimension column then
     intervals <- columnIntervals dimension column ;;
     extraDimensionsOf adapterType model tableLabel column intervals
   else Return []) = Return extraDimensions ->
  NoDup (Object_keys extraDimensions)
  /\ forall k, In k (Object_keys extraDimensions) ->
       exists interval, (col_name column ++ "_" ++ interval)%string = k.
Proof.
  intros E. destruct (extraDimensions_written _ _ _ E) as [Hnd Hkeys].
  split; [assumption|]. intros k Hk.
  destruct (Hkeys k Hk) as [_ [intervals [interval [_ [_ Ek]]]]].
  now exists interval.
Qed.

(** A column that does not write a key leaves it as it was. *)
Lemma convertColumn_keeps key acc column acc' :
  convertColumn adapterType model tableLabel acc column = Return acc' ->
  ~ writesKey adapterType model tableLabel column key ->
  obj_get key (fst acc') = obj_get key (fst acc).
Proof.
  destruct acc as [prevDimensions prevMetrics]. intros E Hw.
  destruct (convertColumn_dimensions _ _ _ _ E)
    as [dimension [extraDimensions [Ed [Ex ->]]]].
  destruct (extraDimensions_written _ _ _ Ex) as [Hnd Hkeys].
  rewrite obj_get_spread_obj by assumption.
  destruct (obj_get key extraDimensions) as [d|] eqn:Eg.
  - exfalso. apply Hw. right.
    apply obj_get_Some_In, Hkeys in Eg
      as [Eexp [intervals [interval [Ei [Hin Ek]]]]].
    now exists dimension, intervals, interval.
  - rewrite obj_get_set. simpl.
    destruct (String.eqb_spec (col_name column) key) as [Ek|_];
      [|reflexivity].
    exfalso. apply Hw. now left.
Qed.

Lemma convertColumns_keep key columns' :
  forall acc res,
    reduceM (convertColumn adapterType model tableLabel) columns' acc
    = Return res ->
    (forall later, In later columns' ->
       ~ writesKey adapterType model tableLabel later key) ->
    obj_get key (fst res) = obj_get key (fst acc).
Proof.
  induction columns' as [|column columns' IH]; simpl; intros acc res E Hw.
  - now inversion E.
  - apply bind_Return in E as [acc' [Es E]].
    rewrite (IH _ _ E) by (intros later Hl; apply Hw; now right).
    eapply convertColumn_keeps; [eassumption|]. apply Hw. now left.
Qed.

(** The base dimension of a column has the type that the column resolves
    to. *)
Lemma convertDimension_base_type column source base :
  convertDimension adapterType model tableLabel column source None
  = Return base ->
  d_type base = columnType column.
Proof.
  unfold convertDimension.
  destruct (negb (includes DimensionType_values (columnType column)));
    [discriminate|].
  intros E. apply bind_Return in E as [sql [_ E]]. now inversion E.
Qed.

Lemma expandsTimeIntervals_true base column :
  d_type base = DimensionType_value DATE
  \/ d_type base = DimensionType_value TIMESTAMP ->
  dimension_field dim_time_intervals column <> Some (IntervalsString "OFF") ->
  expandsTimeIntervals base column = true.
Proof.
  intros Htype Hoff. unfold expandsTimeIntervals.
  apply andb_true_intro. split.
  - apply includes_In. simpl. destruct Htype as [->| ->]; auto.
  - destruct (dimension_field dim_time_intervals column) as [[s|xs]|]; simpl;
      try reflexivity.
    destruct (String.eqb_spec s "OFF") as [->|_]; [congruence|].
    simpl. now destruct (s =? "").
Qed.

End ConvertTable.

(** C7, as the code has it.  For a column whose type resolves to DATE or
    TIMESTAMP and whose [time_intervals] is not ["OFF"], in the table that
    [convertTable] returns: the column has a base dimension, of that type,
    and intervals, which are the explicit list as [validateTimeFrames]
    returns it when a list is given and the default intervals of the type
    otherwise; the base dimension is under the name of the column, and for
    each of these intervals the key [<column>_<interval>] holds the dimension
    converted for that interval, whose name, for an interval that is not
    empty, is [<column>_] followed by the interval in lower case, whose group
    is the name of the column and whose interval is that interval; each of
    the two provided that no later column writes the same key, which a column
    does for its own name and for its name followed by one of its own
    intervals. *)
Theorem convertTable_time_intervals {T : HostTypes} {H : Host}
  adapterType model dbtMetrics table before column after :
  convertTable adapterType model dbtMetrics = Return table ->
  Object_values (columns model) = before ++ column :: after ->
  columnType column = DimensionType_value DATE
  \/ columnType column = DimensionType_value TIMESTAMP ->
  dimension_field dim_time_intervals column <> Some (IntervalsString "OFF") ->
  exists base intervals,
    convertDimension adapterType model (modelLabel model) column None None
    = Return base
    /\ d_type base = columnType column
    /\ match dimension_field dim_time_intervals column with
       | Some (IntervalsArray explicit) => validateTimeFrames explicit
       | _ => Return (getDefaultTimeFrames (columnType column))
       end = Return intervals
    /\ ((forall later, In later after ->
           ~ writesKey adapterType model (modelLabel model) later
               (col_name column)) ->
        obj_get (col_name column) (t_dimensions table) = Some base)
    /\ (forall interval,
          In interval intervals ->
          (forall later, In later after ->
             ~ writesKey adapterType model (modelLabel model) later
                 (col_name column ++ "_" ++ interval)%string) ->
          exists d,
            obj_get (col_name column ++ "_" ++ interval)%string
                    (t_dimensions table) = Some d
            /\ convertDimension adapterType model (modelLabel model) column
                 None (Some interval) = Return d
            /\ (interval <> EmptyString ->
                d_name d
                = (col_name column ++ "_" ++ toLowerCase interval)%string
                /\ d_group d = Some (col_name column)
                /\ d_timeInterval d = Some interval)).
Proof.
  intros Et Hcols Htype Hoff.
  destruct (convertTable_Return _ _ _ _ Et)
    as [dimensions [metrics [converted [_ [Ecols [_ [_ [Edims _]]]]]]]].
  rewrite Edims. clear Edims Et.
  unfold convertColumns in Ecols. rewrite Hcols, reduceM_app in Ecols.
  apply bind_Return in Ecols as [[prevDimensions prevMetrics] [_ Ecols]].
  simpl in Ecols. apply bind_Return in Ecols as [acc [Estep Eafter]].
  destruct (convertColumn_dimensions _ _ _ _ _ _ _ Estep)
    as [base [extraDimensions [Ebase [Ex Eacc]]]].
  pose proof (convertDimension_base_type _ _ _ _ _ _ Ebase) as Ebt.
  destruct (extraDimensions_of_column _ _ _ _ _ _ Ex) as [Hnd Hkeys].
  rewrite expandsTimeIntervals_true in Ex by (rewrite ?Ebt; assumption).
  apply bind_Return in Ex as [intervals [Eint Ex]].
  unfold extraDimensionsOf in Ex.
  exists base, intervals. split; [exact Ebase|]. split; [exact Ebt|].
  split; [unfold columnIntervals in Eint; now rewrite Ebt in Eint|].
  split.
  - intros Hlater.
    pose proof (convertColumns_keep _ _ _ _ _ _ _ Eafter Hlater) as Hkeep.
    cbn [fst] in Hkeep. rewrite Hkeep, Eacc.
    rewrite obj_get_spread_obj by assumption.
    destruct (obj_get (col_name column) extraDimensions) as [d|] eqn:Eg.
    + apply obj_get_Some_In, Hkeys in Eg as [interval Eg].
      now apply interval_key_not_name in Eg.
    + rewrite obj_get_set. now rewrite String.eqb_refl.
  - intros interval Hin Hlater.
    destruct (extraDimensions_get _ _ _ _ interval _ _ _ Ex (or_introl Hin))
      as [d [Eg Econv]].
    exists d.
    pose proof (convertColumns_keep _ _ _ _ _ _ _ Eafter Hlater) as Hkeep.
    cbn [fst] in Hkeep. rewrite Hkeep, Eacc.
    rewrite obj_get_spread_obj, Eg by assumption.
    split; [reflexivity|]. split; [assumption|]. intros Hne.
    eapply convertDimension_interval; eassumption.
Qed.

(** ** convertDbtMetricToLightdashMetric *)

Lemma occurs_cons pat c s :
  occurs pat (String c s) = String.prefix pat (String c s) || occurs pat s.
Proof. reflexivity. Qed.

(** A text in which the pattern does not occur is left as it is. *)
Lemma replace_scan_absent pat rep s :
  occurs pat s = false -> replace_scan pat rep 0 s = s.
Proof.
  induction s as [|c s IH]; intros Ho; [reflexivity|].
  rewrite occurs_cons in Ho. apply orb_false_iff in Ho as [Hp Ho].
  cbn [replace_scan]. rewrite Hp. now rewrite IH.
Qed.

Lemma replace_all_absent pat rep s :
  occurs pat s = false -> replace_all pat rep s = s.
Proof.
  intros Ho. unfold replace_all.
  destruct (String.eqb_spec pat "") as [->|_].
  - destruct s; discriminate.
  - now apply replace_scan_absent.
Qed.

(** After the characters of a match have been stepped over, the scan goes
    on as from the start. *)
Lemma replace_scan_skip pat rep skipped rest :
  replace_scan pat rep (String.length skipped) (skipped ++ rest)
  = replace_scan pat rep 0 rest.
Proof.
  induction skipped as [|c skipped IH]; simpl; [|exact IH].
  now destruct rest.
Qed.

Lemma prefix_append pat rest : String.prefix pat (pat ++ rest) = true.
Proof.
  induction pat as [|c pat IH]; simpl; [now destruct rest|].
  destruct (ascii_dec c c) as [_|Hne]; [exact IH|contradiction].
Qed.

(** The leftmost occurrence of a non-empty pattern gives way to the
    replacement, what comes before it stays, and what comes after it is
    treated in the same way. *)
Lemma replace_all_leftmost pat rep before after :
  pat <> EmptyString ->
  (forall b1 b2, before = (b1 ++ b2)%string -> b2 <> EmptyString ->
                 String.prefix pat (b2 ++ pat ++ after) = false) ->
  replace_all pat rep (before ++ pat ++ after)
  = (before ++ rep ++ replace_all pat rep after)%string.
Proof.
  intros Hne Hleft. unfold replace_all.
  apply String.eqb_neq in Hne. rewrite Hne.
  induction before as [|c before IH].
  - simpl. destruct pat as [|p pat]; [discriminate|].
    change (String p pat ++ after)%string with (String p (pat ++ after)).
    cbn [replace_scan].
    change (String p (pat ++ after)) with (String p pat ++ after)%string.
    rewrite prefix_append. cbn [String.length].
    replace (S (String.length pat) - 1) with (String.length pat) by lia.
    now rewrite replace_scan_skip.
  - change (String c before ++ pat ++ after)%string
      with (String c (before ++ pat ++ after)).
    cbn [replace_scan].
    change (String c (before ++ pat ++ after))
      with (String c before ++ pat ++ after)%string.
    rewrite (Hleft EmptyString (String c before) eq_refl) by discriminate.
    simpl. f_equal. apply IH. intros b1 b2 -> Hb2.
    now apply (Hleft (String c b1) b2).
Qed.

Lemma fold_substituteReference {T : HostTypes} names text :
  fold_left substituteReference (map Some names) text
  = substituteNames names text.
Proof.
  unfold substituteNames. revert text.
  induction names as [|name names IH]; intros text; simpl; [reflexivity|].
  apply IH.
Qed.

(** C4, as the code has it.  An expression metric with a non-empty expression
    whose references are names of word characters, and whose [meta.filters]
    the filter grammar accepts, converts to a metric of type NUMBER; its sql
    is the expression in which, name after name, every occurrence of a
    referenced name has given way to [${name}], as it stands when the metric
    declares no filters and inside [CASE WHEN ... THEN ... ELSE NULL END] when
    it declares some.  An expression metric without expression throws a
    [ParseError]. *)
Theorem convertDbtMetric_expression {T : HostTypes} {H : Host}
  metric tableName tableLabel :
  calculation_method metric = "expression" ->
  (forall text names rules,
     expression metric = Some text ->
     text <> EmptyString ->
     wordReferences metric names ->
     parseFilters (metric_meta_field metmeta_filters metric) = Return rules ->
     exists m,
       convertDbtMetricToLightdashMetric metric tableName tableLabel = Return m
       /\ m_type m = MetricType_NUMBER
       /\ m_name m = metric_name metric
       /\ m_sql m
          = match declaredFilters metric with
            | [] => substituteNames names text
            | _ :: _ =>
                ("CASE WHEN " ++ filterSqlOf (declaredFilters metric)
                 ++ " THEN " ++ substituteNames names text
                 ++ " ELSE NULL END")%string
            end)
  /\ (truthy (expression metric) = false ->
      convertDbtMetricToLightdashMetric metric tableName tableLabel
      = Throw (ParseError ("dbt expression metric "
                           ++ quoted (metric_name metric)
                           ++ " must have the sql field set")%string)).
Proof.
  intros Ec. unfold convertDbtMetricToLightdashMetric. rewrite Ec. simpl.
  split.
  - intros text names rules Ee Hne [Erefs _] Ef.
    rewrite Ee. simpl. apply String.eqb_neq in Hne. rewrite Hne. simpl.
    rewrite Ef. simpl. eexists. split; [reflexivity|]. simpl.
    rewrite Erefs, fold_substituteReference.
    repeat split. unfold declaredFilters.
    destruct (metric_filters metric) as [[|f fs]|]; reflexivity.
  - intros ->. reflexivity.
Qed.

(** ** attachTypesToModels *)

Lemma mapM_In A B (f : A -> result B) xs ys y :
  mapM f xs = Return ys -> In y ys -> exists x, In x xs /\ f x = Return y.
Proof.
  revert ys. induction xs as [|x xs IH]; simpl; intros ys E Hy.
  - inversion E; subst. destruct Hy.
  - apply bind_Return in E as [y0 [Ey E]].
    apply bind_Return in E as [ys0 [Eys E]]. inversion E; subst.
    destruct Hy as [<-|Hy].
    + exists x. split; [now left|assumption].
    + destruct (IH _ Eys Hy) as [x' [Hx Ex]]. exists x'. split;
        [now right|assumption].
Qed.

Lemma mapM_nth_error A B (f : A -> result B) xs ys i x :
  mapM f xs = Return ys -> nth_error xs i = Some x ->
  exists y, nth_error ys i = Some y /\ f x = Return y.
Proof.
  revert ys i. induction xs as [|x0 xs IH]; simpl; intros ys i E Hx.
  - destruct i; discriminate.
  - apply bind_Return in E as [y0 [Ey E]].
    apply bind_Return in E as [ys0 [Eys E]]. inversion E; subst.
    destruct i as [|i]; simpl in *.
    + inversion Hx; subst. now exists y0.
    + now apply IH.
Qed.

Lemma In_obj_replace V k v kv (o : obj V) :
  In kv (obj_replace k v o) -> kv = (k, v) \/ In kv o.
Proof.
  induction o as [|[k0 v0] o IH]; simpl; [tauto|].
  destruct (String.eqb_spec k0 k) as [->|_]; simpl; intuition.
Qed.

Lemma In_obj_insert_index V n k v kv (o : obj V) :
  In kv (obj_insert_index n k v o) -> kv = (k, v) \/ In kv o.
Proof.
  induction o as [|[k0 v0] o IH]; simpl; [intuition|].
  destruct (index_below n k0); simpl; intuition.
Qed.

Lemma In_obj_set V k v kv (o : obj V) :
  In kv (obj_set k v o) -> kv = (k, v) \/ In kv o.
Proof.
  unfold obj_set. destruct (obj_has k o).
  - apply In_obj_replace.
  - destruct (array_index k).
    + apply In_obj_insert_index.
    + rewrite in_app_iff. simpl. intuition.
Qed.

Lemma In_obj_spread V kv (source : list (string * V)) (target : obj V) :
  In kv (obj_spread target source) -> In kv target \/ In kv source.
Proof.
  unfold obj_spread. revert target.
  induction source as [|[k v] source IH]; simpl; intros target Hin;
    [now left|].
  destruct (IH _ Hin) as [Ht|Hs]; [|now right; right].
  apply In_obj_set in Ht as [->|Ht]; [right; now left|now left].
Qed.

Section AttachTypes.
Context {T : HostTypes} {H : Host}.
Variable warehouseCatalog : WarehouseCatalog.
Variable throwOnMissingCatalogEntry caseSensitiveMatching : bool.

Let typed (model : DbtModelNode) (entry : string * DbtModelColumn) :=
  type <- getType warehouseCatalog throwOnMissingCatalogEntry
            caseSensitiveMatching model (fst entry) ;;
  Return (fst entry, withDataType (snd entry) type).

Lemma attachTypesToModel_Return model model' :
  attachTypesToModel warehouseCatalog throwOnMissingCatalogEntry
    caseSensitiveMatching model = Return model' ->
  exists entries,
    mapM (typed model) (columns model) = Return entries
    /\ model' = withColumns model (Object_fromEntries entries).
Proof.
  unfold attachTypesToModel. intros E.
  apply bind_Return in E as [entries [Em E]]. exists entries.
  split; [exact Em|now inversion E].
Qed.

Lemma typed_keys model cols entries :
  mapM (typed model) cols = Return entries ->
  Object_keys entries = Object_keys cols.
Proof.
  revert entries. induction cols as [|[k c] cols IH]; simpl; intros entries E.
  - now inversion E.
  - apply bind_Return in E as [y [Ey E]].
    apply bind_Return in E as [ys [Eys E]]. inversion E; subst.
    unfold typed in Ey. apply bind_Return in Ey as [type [_ Ey]].
    inversion Ey; subst. simpl. f_equal. now apply IH.
Qed.

Lemma typed_get model cols entries k column :
  mapM (typed model) cols = Return entries ->
  obj_get k cols = Some column ->
  exists type,
    getType warehouseCatalog throwOnMissingCatalogEntry caseSensitiveMatching
      model k = Return type
    /\ obj_get k entries = Some (withDataType column type).
Proof.
  revert entries. induction cols as [|[k0 c0] cols IH]; simpl; intros entries E;
    [discriminate|].
  apply bind_Return in E as [y [Ey E]].
  apply bind_Return in E as [ys [Eys E]]. inversion E; subst.
  unfold typed in Ey. apply bind_Return in Ey as [type [Et Ey]].
  inversion Ey; subst. simpl in *.
  destruct (String.eqb_spec k0 k) as [->|_].
  - intros Ec. inversion Ec; subst. now exists type.
  - now apply IH.
Qed.

(** Every column that comes out is a column that went in, with the type the
    catalog gave for it. *)
Lemma attached_column model model' key column' :
  attachTypesToModel warehouseCatalog throwOnMissingCatalogEntry
    caseSensitiveMatching model = Return model' ->
  In (key, column') (columns model') ->
  exists column type,
    In (key, column) (columns model)
    /\ getType warehouseCatalog throwOnMissingCatalogEntry
         caseSensitiveMatching model key = Return type
    /\ column' = withDataType column type.
Proof.
  intros E Hin. apply attachTypesToModel_Return in E as [entries [Em ->]].
  simpl in Hin. apply In_obj_spread in Hin as [[]|Hin].
  destruct (mapM_In _ _ _ _ _ _ Em Hin) as [[k c] [Hc Ec]].
  unfold typed in Ec. apply bind_Return in Ec as [type [Et Ec]].
  inversion Ec; subst. now exists c, type.
Qed.

Lemma attachTypesToModels_Return models out :
  attachTypesToModels models warehouseCatalog throwOnMissingCatalogEntry
    caseSensitiveMatching = Return out ->
  mapM (attachTypesToModel warehouseCatalog throwOnMissingCatalogEntry
          caseSensitiveMatching) models = Return out.
Proof.
  unfold attachTypesToModels. intros E.
  now apply bind_Return in E as [[] [_ E]].
Qed.

End AttachTypes.

Lemma DimensionType_value_recognised {T : HostTypes} {H : Host} t :
  In (DimensionType_value t) DimensionType_values.
Proof.
  unfold DimensionType_values. apply in_map.
  destruct t; simpl; tauto.
Qed.

(** The type of a column is recognised when its override, if it has one that
    is not empty, is a member of the enum, and its [data_type], if it has
    one, is a member of the enum. *)
Lemma columnType_recognised {T : HostTypes} {H : Host} column :
  (forall type, dimension_field dim_type column = Some type ->
                type = EmptyString \/ In type DimensionType_values) ->
  (col_data_type column = None
   \/ exists t, col_data_type column = Some (DimensionType_value t)) ->
  includes DimensionType_values (columnType column) = true.
Proof.
  intros Hover Hdata. apply includes_In. unfold columnType, js_or.
  assert (Hd : In match col_data_type column with
                  | Some s => if s =? "" then DimensionType_value STRING else s
                  | None => DimensionType_value STRING
                  end DimensionType_values).
  { destruct Hdata as [->|[t ->]];
      [apply DimensionType_value_recognised|].
    destruct (DimensionType_value t =? "");
      apply DimensionType_value_recognised. }
  destruct (dimension_field dim_type column) as [type|]; [|exact Hd].
  destruct (String.eqb_spec type "") as [_|Hne]; [exact Hd|].
  destruct (Hover type eq_refl); [contradiction|assumption].
Qed.

(** Where a throw of [convertDimension] comes from once the type of the
    column is recognised. *)
Lemma convertDimension_recognised {T : HostTypes} {H : Host}
  adapterType model tableLabel column source timeInterval :
  includes DimensionType_values (columnType column) = true ->
  (forall e,
     convertDimension adapterType model tableLabel column source timeInterval
     = Throw e ->
     (exists raw, adapterType = OtherAdapter raw
                  /\ e = ParseError ("Cannot recognise warehouse " ++ raw))
     \/ (exists interval sql type,
           timeFrame_getSql interval adapterType interval sql type = Throw e))
  /\ ((forall raw, adapterType <> OtherAdapter raw) ->
      timeInterval = None ->
      exists d,
        convertDimension adapterType model tableLabel column source None
        = Return d).
Proof.
  intros Hrec. unfold convertDimension. rewrite Hrec. simpl. split.
  - intros e E.
    destruct (columnType column =? DimensionType_value TIMESTAMP).
    + destruct adapterType; simpl in E;
        try (destruct timeInterval as [interval|]; [|discriminate];
             destruct (truthy (Some interval)); [|discriminate];
             match type of E with
             | bind ?c _ = _ => destruct c eqn:Eg; [discriminate|]
             end;
             simpl in E; inversion E; subst; right; eauto).
      left. exists raw. inversion E. auto.
    + simpl in E. destruct timeInterval as [interval|]; [|discriminate].
      destruct (truthy (Some interval)); [|discriminate].
      match type of E with
      | bind ?c _ = _ => destruct c eqn:Eg; [discriminate|]
      end.
      simpl in E. inversion E; subst. right. eauto.
  - intros Hsupported _.
    destruct (columnType column =? DimensionType_value TIMESTAMP);
      [|simpl; now eexists].
    destruct adapterType; simpl; try now eexists.
    exfalso. now apply (Hsupported raw).
Qed.

Lemma getType_unresolved {T : HostTypes} {H : Host}
  warehouseCatalog throwOnMissingCatalogEntry caseSensitiveMatching model key :
  getType warehouseCatalog throwOnMissingCatalogEntry caseSensitiveMatching
    model key = Return None ->
  throwOnMissingCatalogEntry = false.
Proof.
  unfold getType. destruct (descend _ _); [discriminate|].
  now destruct throwOnMissingCatalogEntry.
Qed.

(** C8, as the code has it.  A column that comes out of
    [attachTypesToModels] has no [data_type] or the value of a catalog type.
    When the type override of its [meta.dimension] is absent, empty or a
    member of the enum, the type that [convertDimension] resolves for it is
    recognised: [convertDimension] does not throw the unrecognised-type
    error, what it may throw comes from the timezone hook or from the
    time-frame sql, and without interval on a supported adapter it returns a
    dimension. *)
Theorem attached_types_are_recognised {T : HostTypes} {H : Host}
  models warehouseCatalog throwOnMissingCatalogEntry caseSensitiveMatching
  out model' key column' :
  attachTypesToModels models warehouseCatalog throwOnMissingCatalogEntry
    caseSensitiveMatching = Return out ->
  In model' out ->
  In (key, column') (columns model') ->
  (forall type, dimension_field dim_type column' = Some type ->
                type = EmptyString \/ In type DimensionType_values) ->
  (col_data_type column' = None
   \/ exists t, col_data_type column' = Some (DimensionType_value t))
  /\ includes DimensionType_values (columnType column') = true
  /\ forall adapterType model tableLabel source timeInterval,
       (forall e,
          convertDimension adapterType model tableLabel column' source
            timeInterval = Throw e ->
          (exists raw, adapterType = OtherAdapter raw
                       /\ e = ParseError ("Cannot recognise warehouse " ++ raw))
          \/ (exists interval sql type,
                timeFrame_getSql interval adapterType interval sql type
                = Throw e))
       /\ ((forall raw, adapterType <> OtherAdapter raw) ->
           timeInterval = None ->
           exists d,
             convertDimension adapterType model tableLabel column' source None
             = Return d).
Proof.
  intros E Hm Hc Hover.
  apply attachTypesToModels_Return in E.
  destruct (mapM_In _ _ _ _ _ _ E Hm) as [model [_ Em]].
  destruct (attached_column _ _ _ _ _ _ _ Em Hc)
    as [column [type [_ [_ Ecol]]]].
  assert (Hdata : col_data_type column' = None
                  \/ exists t, col_data_type column'
                               = Some (DimensionType_value t)).
  { subst column'. simpl. destruct type as [t|]; [right; now exists t|now left]. }
  pose proof (columnType_recognised column' Hover Hdata) as Hrec.
  split; [exact Hdata|]. split; [exact Hrec|].
  intros adapterType model0 tableLabel source timeInterval.
  now apply convertDimension_recognised.
Qed.

(** C10. When [attachTypesToModels] returns, the list it returns has the
    length and the order of the models: the model at each place keeps every
    field but [columns]; its column map has the same keys, and under each key
    the column keeps every field but [data_type], which is the value of the
    type that [getType] resolves in the catalog, or absent when nothing is
    resolved, which only happens when [throwOnMissingCatalogEntry] is
    false.  (An object holds each of its keys once.) *)
Theorem attachTypesToModels_frame {T : HostTypes} {H : Host}
  models warehouseCatalog throwOnMissingCatalogEntry caseSensitiveMatching out :
  attachTypesToModels models warehouseCatalog throwOnMissingCatalogEntry
    caseSensitiveMatching = Return out ->
  (forall model, In model models -> NoDup (Object_keys (columns model))) ->
  List.length out = List.length models
  /\ forall i model,
       nth_error models i = Some model ->
       exists model',
         nth_error out i = Some model'
         /\ (unique_id model' = unique_id model
             /\ model_name model' = model_name model
             /\ model_database model' = model_database model
             /\ model_schema model' = model_schema model
             /\ relation_name model' = relation_name model
             /\ model_description model' = model_description model
             /\ model_config model' = model_config model
             /\ model_meta model' = model_meta model
             /\ model_tags model' = model_tags model
             /\ depends_on_nodes model' = depends_on_nodes model
             /\ patch_path model' = patch_path model
             /\ compiled model' = compiled model)
         /\ (forall key,
               In key (Object_keys (columns model'))
               <-> In key (Object_keys (columns model)))
         /\ (forall key column,
               obj_get key (columns model) = Some column ->
               exists type column',
                 getType warehouseCatalog throwOnMissingCatalogEntry
                   caseSensitiveMatching model key = Return type
                 /\ obj_get key (columns model') = Some column'
                 /\ col_name column' = col_name column
                 /\ col_description column' = col_description column
                 /\ col_meta column' = col_meta column
                 /\ col_data_type column' = option_map DimensionType_value type
                 /\ (type = None -> throwOnMissingCatalogEntry = false)).
Proof.
  intros E Hobj. apply attachTypesToModels_Return in E. split.
  - eapply mapM_Return_length; eassumption.
  - intros i model Hi.
    destruct (mapM_nth_error _ _ _ _ _ _ _ E Hi) as [model' [Hi' Em]].
    exists model'. split; [exact Hi'|].
    apply attachTypesToModel_Return in Em as [entries [Ee ->]].
    pose proof (typed_keys _ _ _ _ _ _ Ee) as Hkeys.
    split; [simpl; repeat split|]. split.
    + intros key. simpl. unfold Object_fromEntries.
      rewrite In_keys_spread, Hkeys. simpl. tauto.
    + intros key column Eg.
      destruct (typed_get _ _ _ _ _ _ _ _ Ee Eg) as [type [Et Eg']].
      exists type, (withDataType column type).
      split; [exact Et|]. split.
      * simpl. unfold Object_fromEntries.
        rewrite obj_get_spread, obj_get_rev, Eg'; [reflexivity|].
        rewrite Hkeys. apply Hobj. eapply nth_error_In; eassumption.
      * simpl. repeat split. intros ->.
        eapply getType_unresolved; eassumption.
Qed.

(** ** The statements on the concrete host *)

Module DemoFacts.
Import Demo Scenarios.
#[local] Existing Instance demoTypes.
#[local] Existing Instance demoHost.





(** The model [orders] has a column [total_revenue] and may use the dbt
    metric of that name. *)
Lemma convertTable_duplicated_names_witness :
  compiled revenue = true
  /\ convertColumns POSTGRES revenue (modelLabel revenue)
     = Return revenueColumns
  /\ convertTable POSTGRES revenue [total_revenue]
     = Throw (ParseError
                "Found a metric and a dimension with the same name: total_revenue").
Proof.
  split; [reflexivity|]. split; [vm_compute; reflexivity|].
  assert (Ecols : convertColumns POSTGRES revenue (modelLabel revenue)
                  = Return (fst revenueColumns, snd revenueColumns))
    by (vm_compute; reflexivity).
  assert (Econv : convertedDbtMetricsOf revenue (modelLabel revenue)
                    [total_revenue] = Return revenueConverted)
    by (vm_compute; reflexivity).
  destruct (convertTable_duplicated_names POSTGRES revenue [total_revenue]
              (fst revenueColumns) (snd revenueColumns) revenueConverted
              eq_refl Ecols Econv)
    as [_ [_ [Hthrow _]]].
  apply Hthrow. vm_compute. discriminate.
Defined.

(** The scenario of the specification. *)
Lemma convertDbtMetric_expression_witness :
  calculation_method net = "expression"
  /\ exists m,
       convertDbtMetricToLightdashMetric net "orders" "Orders" = Return m
       /\ m_sql m = "${total_revenue} - ${total_cost}".
Proof.
  split; [reflexivity|].
  destruct (convertDbtMetric_expression net "orders" "Orders" eq_refl)
    as [Hreturn _].
  destruct (Hreturn "total_revenue - total_cost"
              ["total_revenue"; "total_cost"] [] eq_refl)
    as [m [Em [_ [_ Esql]]]].
  - discriminate.
  - split; [reflexivity|]. repeat constructor.
  - reflexivity.
  - exists m. split; [exact Em|]. rewrite Esql. vm_compute. reflexivity.
Defined.

(** C4 fails as it is stated: the sql of an expression metric that declares a
    filter is not the substituted expression. *)
Lemma convertDbtMetric_expression_with_filter :
  calculation_method netPaid = "expression"
  /\ expression netPaid = Some "total_revenue - total_cost"
  /\ referencedMetrics netPaid = [Some "total_revenue"; Some "total_cost"]
  /\ exists m,
       convertDbtMetricToLightdashMetric netPaid "orders" "Orders" = Return m
       /\ m_sql m
          = "CASE WHEN (${TABLE}.status = 'paid') THEN ${total_revenue} - ${total_cost} ELSE NULL END"
       /\ m_sql m
          <> substituteNames ["total_revenue"; "total_cost"]
               "total_revenue - total_cost".
Proof.
  repeat split; try reflexivity.
  eexists. split; [vm_compute; reflexivity|].
  split; [reflexivity|]. vm_compute. discriminate.
Qed.

(** The difference of the scenario is usable by [orders], and the call
    returns [true]. *)
Lemma modelCanUseMetric_iff_witness :
  findMetric "net" scenarioMetrics = Some net
  /\ Usable scenarioMetrics "orders" "net"
  /\ modelCanUseMetric_call "net" "orders" scenarioMetrics = Return true.
Proof.
  split; [reflexivity|].
  destruct (modelCanUseMetric_iff scenarioMetrics "orders" "net" net eq_refl)
    as [Hu [Hcall _]].
  assert (Ecall : modelCanUseMetric_call "net" "orders" scenarioMetrics
                  = Return true) by reflexivity.
  split; [|exact Ecall]. apply Hu, Hcall. exact Ecall.
Defined.

(** The column [amount] declares a metric [total_cost], and so does dbt. *)
Lemma convertTable_column_metric_wins_witness :
  convertTable POSTGRES costed [total_revenue; total_cost] = Return costedTable
  /\ exists m,
       obj_get "total_cost" (t_metrics costedTable) = Some m
       /\ m_sql m = "${TABLE}.amount * 0.4".
Proof.
  split; [vm_compute; reflexivity|].
  assert (Et : convertTable POSTGRES costed [total_revenue; total_cost]
               = Return costedTable) by (vm_compute; reflexivity).
  destruct (convertTable_column_metric_wins POSTGRES costed
              [total_revenue; total_cost] costedTable Et)
    as [dimensions [metrics [converted [Ecols [_ [_ [Hwins _]]]]]]].
  vm_compute in Ecols. inversion Ecols; subst metrics.
  eexists. split; [apply Hwins; reflexivity|]. reflexivity.
Defined.

(** C7 fails as it is stated: under the key [created_DAY] the table holds the
    base dimension of the column of that name, which has no group, and the
    dimension under [created_WEEK] is named [created_week]. *)
Lemma time_interval_keys_counterexample :
  convertTable POSTGRES events [] = Return eventsTable
  /\ Object_values (columns events) = [created; created_DAY]
  /\ d_type createdBase = DimensionType_value DATE
  /\ columnIntervals createdBase created
     = Return ["DAY"; "WEEK"; "MONTH"; "YEAR"]
  /\ ~ (exists d,
          obj_get "created_DAY" (t_dimensions eventsTable) = Some d
          /\ d_name d = "created_DAY"
          /\ d_group d = Some "created")
  /\ ~ (exists d,
          obj_get "created_WEEK" (t_dimensions eventsTable) = Some d
          /\ d_name d = "created_WEEK"
          /\ d_group d = Some "created").
Proof.
  split; [vm_compute; reflexivity|]. split; [reflexivity|].
  split; [reflexivity|]. split; [reflexivity|]. split.
  - intros [d [Eg [_ Egroup]]]. vm_compute in Eg. inversion Eg; subst d.
    discriminate.
  - intros [d [Eg [Ename _]]]. vm_compute in Eg. inversion Eg; subst d.
    discriminate.
Qed.

(** The column [created_DAY] is a text column: it writes its own name and
    no other key. *)
Lemma created_DAY_does_not_write name :
  name = "created" \/ name = "created_WEEK" ->
  ~ writesKey POSTGRES events (modelLabel events) created_DAY name.
Proof.
  intros Hname [E|[base [intervals [interval [Eb [Eexp _]]]]]].
  - destruct Hname as [-> | ->]; cbv in E; discriminate E.
  - vm_compute in Eb. inversion Eb; subst base.
    vm_compute in Eexp. discriminate.
Qed.

Lemma convertTable_time_intervals_witness :
  convertTable POSTGRES events [] = Return eventsTable
  /\ obj_get "created" (t_dimensions eventsTable) = Some createdBase
  /\ exists d,
       obj_get "created_WEEK" (t_dimensions eventsTable) = Some d
       /\ d_name d = "created_week"
       /\ d_group d = Some "created".
Proof.
  assert (Et : convertTable POSTGRES events [] = Return eventsTable)
    by (vm_compute; reflexivity).
  assert (Hoff : dimension_field dim_time_intervals created
                 <> Some (IntervalsString "OFF")) by discriminate.
  destruct (convertTable_time_intervals POSTGRES events [] eventsTable
              [] created [created_DAY]
              Et eq_refl (or_introl eq_refl) Hoff)
    as [base [intervals [Eb [_ [Eint [Hbase Hinterval]]]]]].
  vm_compute in Eb. inversion Eb; subst base.
  vm_compute in Eint. inversion Eint; subst intervals.
  split; [exact Et|]. split.
  - apply Hbase. intros later [<-|[]].
    apply created_DAY_does_not_write. now left.
  - destruct (Hinterval "WEEK") as [d [Eg [_ Hd]]].
    + simpl. tauto.
    + intros later [<-|[]]. apply created_DAY_does_not_write. now right.
    + destruct Hd as [Ename [Egroup _]]; [discriminate|].
      exists d. split; [exact Eg|]. split; [exact Ename|exact Egroup].
Defined.

(** C8 fails as it is stated: the column [amount] receives the type NUMBER
    from the catalog, its override names a type that does not exist, and
    [convertDimension] throws the unrecognised-type error. *)
Lemma attached_column_with_unknown_override :
  exists orders' amount',
    attachTypesToModels [ordersInWarehouse; users] catalog true true
    = Return ordersTyped
    /\ nth_error ordersTyped 0 = Some orders'
    /\ obj_get "amount" (columns orders') = Some amount'
    /\ col_data_type amount' = Some (DimensionType_value NUMBER)
    /\ convertDimension POSTGRES orders' (modelLabel orders') amount' None None
       = Throw (unrecognisedTypeError "money" amount' orders').
Proof.
  eexists. eexists. split; [vm_compute; reflexivity|].
  split; [reflexivity|]. split; [reflexivity|]. split; reflexivity.
Qed.

Lemma attached_types_are_recognised_witness :
  exists orders' paid_at',
    attachTypesToModels [ordersInWarehouse; users] catalog true true
    = Return ordersTyped
    /\ In orders' ordersTyped
    /\ In ("paid_at", paid_at') (columns orders')
    /\ includes DimensionType_values (columnType paid_at') = true.
Proof.
  assert (Ea : attachTypesToModels [ordersInWarehouse; users] catalog true true
               = Return ordersTyped) by (vm_compute; reflexivity).
  eexists. eexists. split; [exact Ea|].
  assert (Hm : In (nth 0 ordersTyped users) ordersTyped) by (simpl; tauto).
  assert (Hc : In ("paid_at",
                   withDataType (column "paid_at" noDimension None)
                     (Some TIMESTAMP))
                  (columns (nth 0 ordersTyped users)))
    by (simpl; tauto).
  split; [exact Hm|]. split; [exact Hc|].
  destruct (attached_types_are_recognised
              [ordersInWarehouse; users] catalog true true ordersTyped
              _ _ _ Ea Hm Hc) as [_ [Hrec _]].
  - intros type E. discriminate.
  - exact Hrec.
Defined.

Lemma acyclic_of_rank {T : HostTypes} (metrics : list DbtMetric)
  (rank : string -> nat) :
  (forall a b, references metrics a b -> rank b < rank a) ->
  acyclic metrics.
Proof.
  intros Hrank a Hloop.
  assert (Hlt : forall x y,
             clos_trans string (references metrics) x y -> rank y < rank x).
  { intros x y Hxy. induction Hxy as [x y Hr|x y z _ IH1 _ IH2].
    - now apply Hrank.
    - lia. }
  specialize (Hlt a a Hloop). lia.
Qed.

Lemma scenarioMetrics_acyclic : acyclic scenarioMetrics.
Proof.
  apply (acyclic_of_rank scenarioMetrics
           (fun name => if name =? "net" then 1 else 0)).
  intros a b [metric [Ef [Ec Hin]]].
  apply findMetric_name in Ef as [Ename Hmetric].
  destruct Hmetric as [<-|[<-|[<-|[]]]]; try discriminate Ec.
  subst a. simpl in Hin.
  destruct Hin as [E|[E|[]]]; inversion E; subst b; simpl; lia.
Qed.

Lemma modelCanUseMetric_terminates_witness :
  acyclic scenarioMetrics
  /\ exists b,
       forall fuel, 3 < fuel ->
         modelCanUseMetric fuel "net" "orders" scenarioMetrics = Some b.
Proof.
  split; [exact scenarioMetrics_acyclic|].
  exact (modelCanUseMetric_terminates scenarioMetrics "orders"
           scenarioMetrics_acyclic "net").
Defined.

(** Without acyclicity the recursion has no end: a metric that refers to
    itself is entered again at every depth. *)
Lemma modelCanUseMetric_loop fuel :
  modelCanUseMetric fuel "loop" "orders" [loop] = None.
Proof.
  induction fuel as [|fuel IH]; [reflexivity|].
  rewrite modelCanUseMetric_step. cbn. now rewrite IH.
Qed.

(** In [convertExplores] that endless recursion is the error of the model. *)
Lemma convertExplores_loop :
  convertExplores [users] false POSTGRES [loop]
  = Return
      [inr {| xe_name := "users";
              xe_label := "users";
              xe_tags := Some [];
              xe_errors :=
                [ {| ee_type := "RangeError";
                     ee_message := "Maximum call stack size exceeded" |} ] |}].
Proof. vm_compute. reflexivity. Qed.

Lemma attachTypesToModels_frame_witness :
  attachTypesToModels [ordersInWarehouse; users] catalog true true
  = Return ordersTyped
  /\ List.length ordersTyped = 2.
Proof.
  assert (Ea : attachTypesToModels [ordersInWarehouse; users] catalog true true
               = Return ordersTyped) by (vm_compute; reflexivity).
  split; [exact Ea|].
  destruct (attachTypesToModels_frame
              [ordersInWarehouse; users] catalog true true ordersTyped Ea)
    as [Hlen _].
  - intros model [<-|[<-|[]]]; simpl; repeat constructor; simpl;
      intuition discriminate.
  - exact Hlen.
Defined.

End DemoFacts.

(** * More of the code *)

(** ** Sets of group fields (usePieChartConfig) *)

Lemma Set_add_In set x y : In y (Set_add set x) <-> y = x \/ In y set.
Proof.
  unfold Set_add. destruct (includes set x) eqn:E.
  - apply includes_In in E. split; [now right|].
    intros [->|Hy]; assumption.
  - rewrite in_app_iff. simpl. intuition.
Qed.

Lemma Set_add_NoDup set x : NoDup set -> NoDup (Set_add set x).
Proof.
  intros Hnd. unfold Set_add. destruct (includes set x) eqn:E; [assumption|].
  apply includes_false in E. apply NoDup_app; [assumption| |].
  - constructor; [intros []|constructor].
  - intros y Hy [<-|[]]. contradiction.
Qed.

Lemma Set_fold_In xs : forall acc y,
  In y (fold_left Set_add xs acc) <-> In y acc \/ In y xs.
Proof.
  induction xs as [|x xs IH]; simpl; intros acc y; [tauto|].
  rewrite IH, Set_add_In. intuition.
Qed.

Lemma Set_fold_NoDup xs : forall acc,
  NoDup acc -> NoDup (fold_left Set_add xs acc).
Proof.
  induction xs as [|x xs IH]; simpl; intros acc Hnd; [assumption|].
  apply IH. now apply Set_add_NoDup.
Qed.

Lemma Set_fold_fresh xs : forall acc,
  NoDup (acc ++ xs) -> fold_left Set_add xs acc = acc ++ xs.
Proof.
  induction xs as [|x xs IH]; simpl; intros acc Hnd.
  - now rewrite app_nil_r.
  - assert (Hx : includes acc x = false).
    { apply includes_false. intros Hin.
      apply NoDup_remove_2 in Hnd. apply Hnd.
      apply in_or_app. now left. }
    unfold Set_add at 2. rewrite Hx.
    rewrite IH; rewrite <- app_assoc; simpl; [reflexivity|assumption].
Qed.

Lemma Set_from_In xs y : In y (Set_from xs) <-> In y xs.
Proof. unfold Set_from. rewrite Set_fold_In. simpl. tauto. Qed.

Lemma Set_from_NoDup xs : NoDup (Set_from xs).
Proof. apply Set_fold_NoDup. constructor. Qed.

Lemma Set_from_fresh xs : NoDup xs -> Set_from xs = xs.
Proof. intros Hnd. unfold Set_from. now rewrite Set_fold_fresh. Qed.

Lemma Set_delete_In set x y : In y (Set_delete set x) <-> In y set /\ y <> x.
Proof.
  unfold Set_delete. rewrite filter_In, negb_true_iff, String.eqb_neq.
  tauto.
Qed.

Lemma Set_delete_NoDup set x : NoDup set -> NoDup (Set_delete set x).
Proof. apply NoDup_filter. Qed.

Lemma Set_delete_absent set x : ~ In x set -> Set_delete set x = set.
Proof.
  intros Hn. unfold Set_delete. induction set as [|y set IH]; simpl;
    [reflexivity|].
  destruct (String.eqb_spec y x) as [->|_]; simpl.
  - exfalso. apply Hn. now left.
  - f_equal. apply IH. intros Hin. apply Hn. now right.
Qed.

Lemma Set_delete_length set x :
  NoDup set -> In x set ->
  S (List.length (Set_delete set x)) = List.length set.
Proof.
  unfold Set_delete. induction set as [|y set IH]; simpl; intros Hnd Hin;
    [destruct Hin|].
  inversion Hnd as [|? ? Hn Hnd']; subst.
  destruct (String.eqb_spec y x) as [->|Hne]; simpl.
  - f_equal. fold (Set_delete set x). now rewrite Set_delete_absent.
  - f_equal. apply IH; [assumption|]. destruct Hin; [contradiction|assumption].
Qed.

(** X1. After a group is changed the group fields hold no field twice; they
    are the new field and the fields that were there, the old one apart.  When
    the fields were distinct and the new field was not among them, the new
    field takes the last place, not the place of the old one, and the number
    of fields is kept when the old field was there. *)
Theorem handleGroupChange_fields prevValue newValue prev :
  NoDup (handleGroupChange prevValue newValue prev)
  /\ (forall id,
        In id (handleGroupChange prevValue newValue prev)
        <-> id = newValue \/ (In id prev /\ id <> prevValue))
  /\ (NoDup prev -> ~ In newValue prev ->
      handleGroupChange prevValue newValue prev
      = Set_delete prev prevValue ++ [newValue]
      /\ (In prevValue prev ->
          List.length (handleGroupChange prevValue newValue prev)
          = List.length prev)).
Proof.
  unfold handleGroupChange. split; [|split].
  - apply Set_add_NoDup, Set_delete_NoDup, Set_from_NoDup.
  - intros id. rewrite Set_add_In, Set_delete_In, Set_from_In. tauto.
  - intros Hnd Hnew. rewrite Set_from_fresh by assumption.
    assert (Hfresh : includes (Set_delete prev prevValue) newValue = false).
    { apply includes_false. rewrite Set_delete_In. tauto. }
    unfold Set_add. rewrite Hfresh. split; [reflexivity|].
    intros Hold. rewrite length_app. simpl.
    rewrite <- (Set_delete_length prev prevValue Hnd Hold). lia.
Qed.

(** X2. Removing a group leaves the other fields, each once and in their
    order, and the removed field is gone; removing a field that is not there
    changes nothing in distinct fields. *)
Theorem handleRemoveGroup_fields dimensionId prev :
  NoDup (handleRemoveGroup dimensionId prev)
  /\ ~ In dimensionId (handleRemoveGroup dimensionId prev)
  /\ (forall id,
        In id (handleRemoveGroup dimensionId prev)
        <-> In id prev /\ id <> dimensionId)
  /\ (NoDup prev ->
      handleRemoveGroup dimensionId prev
      = filter (fun id => negb (id =? dimensionId)) prev
      /\ (~ In dimensionId prev -> handleRemoveGroup dimensionId prev = prev)).
Proof.
  unfold handleRemoveGroup. split; [|split; [|split]].
  - apply Set_delete_NoDup, Set_from_NoDup.
  - rewrite Set_delete_In. tauto.
  - intros id. rewrite Set_delete_In, Set_from_In. tauto.
  - intros Hnd. rewrite Set_from_fresh by assumption. split; [reflexivity|].
    apply Set_delete_absent.
Qed.

Lemma find_first A (p : A -> bool) xs x :
  find p xs = Some x ->
  exists before after,
    xs = before ++ x :: after /\ p x = true
    /\ forall y, In y before -> p y = false.
Proof.
  induction xs as [|y xs IH]; simpl; [discriminate|].
  destruct (p y) eqn:Ep.
  - intros E. inversion E; subst. exists [], xs. repeat split; auto.
    intros z [].
  - intros E. destruct (IH E) as [before [after [-> [Hp Hb]]]].
    exists (y :: before), after. repeat split; auto.
    intros z [<-|Hz]; auto.
Qed.

Lemma handleGroupAdd_full dimensionIds prev :
  (forall id, In id dimensionIds -> In id prev) ->
  handleGroupAdd dimensionIds prev = prev.
Proof.
  unfold handleGroupAdd, js_find. intros Hall.
  destruct (find _ dimensionIds) as [id|] eqn:Ef; [|reflexivity].
  apply find_some in Ef as [Hin Hp].
  apply negb_true_iff, includes_false in Hp.
  exfalso. apply Hp. now apply Hall.
Qed.

Lemma handleGroupAdd_next dimensionIds prev before nextId after :
  dimensionIds = before ++ nextId :: after ->
  (forall id, In id before -> In id prev) ->
  ~ In nextId prev ->
  nextId <> EmptyString ->
  handleGroupAdd dimensionIds prev = Set_from prev ++ [nextId].
Proof.
  unfold handleGroupAdd, js_find. intros -> Hbefore Hnew Hne.
  assert (Ef : find (fun id => negb (includes prev id))
                    (before ++ nextId :: after) = Some nextId).
  { clear Hne. induction before as [|b before IH]; simpl.
    - apply includes_false in Hnew. now rewrite Hnew.
    - assert (Hb : includes prev b = true)
        by (apply includes_In, Hbefore; now left).
      rewrite Hb. simpl. apply IH. intros id Hid. apply Hbefore. now right. }
  rewrite Ef. simpl. apply String.eqb_neq in Hne. rewrite Hne. simpl.
  unfold Set_add.
  assert (Hfresh : includes (Set_from prev) nextId = false)
    by (apply includes_false; now rewrite Set_from_In).
  now rewrite Hfresh.
Qed.

(** X3. Adding a group appends the first dimension that is not yet a group
    field, when its id is not empty, and leaves the fields as they are when
    every dimension is one already: the fields never lose a member and never
    gain a field that is no dimension. *)
Theorem handleGroupAdd_fields dimensionIds prev :
  ((forall id, In id dimensionIds -> In id prev) ->
   handleGroupAdd dimensionIds prev = prev)
  /\ (forall before nextId after,
        dimensionIds = before ++ nextId :: after ->
        (forall id, In id before -> In id prev) ->
        ~ In nextId prev ->
        nextId <> EmptyString ->
        handleGroupAdd dimensionIds prev = Set_from prev ++ [nextId])
  /\ (forall id, In id prev -> In id (handleGroupAdd dimensionIds prev))
  /\ (forall id,
        In id (handleGroupAdd dimensionIds prev) ->
        In id prev \/ In id dimensionIds).
Proof.
  split; [apply handleGroupAdd_full|].
  split; [apply handleGroupAdd_next|].
  unfold handleGroupAdd, js_find. split.
  - intros id Hid.
    destruct (find _ dimensionIds) as [next|]; [|assumption].
    destruct (negb (truthy (Some next))); [assumption|].
    apply Set_add_In. right. now apply Set_from_In.
  - intros id Hid.
    destruct (find _ dimensionIds) as [next|] eqn:Ef; [|now left].
    destruct (negb (truthy (Some next))); [now left|].
    apply Set_add_In in Hid as [->|Hid].
    + right. now apply find_some in Ef as [Hin _].
    + left. now apply Set_from_In.
Qed.

(** X4. The Add Group button and the updater agree.  With distinct dimension
    ids, none empty, and distinct group fields that are all dimensions: when
    the button is enabled the updater adds one field, a dimension that was
    not a group field; when it is disabled the updater changes nothing. *)
Theorem addGroup_button_agrees dimensionIds prev :
  NoDup dimensionIds ->
  ~ In EmptyString dimensionIds ->
  NoDup prev ->
  incl prev dimensionIds ->
  (addGroupDisabled (List.length dimensionIds) prev = false ->
   exists nextId,
     In nextId dimensionIds /\ ~ In nextId prev
     /\ handleGroupAdd dimensionIds prev = prev ++ [nextId])
  /\ (addGroupDisabled (List.length dimensionIds) prev = true ->
      handleGroupAdd dimensionIds prev = prev).
Proof.
  intros Hd Hne Hp Hincl. unfold addGroupDisabled. split.
  - intros Hen. apply orb_false_iff in Hen as [_ Hlen].
    apply Nat.eqb_neq in Hlen.
    destruct (find (fun id => negb (includes prev id)) dimensionIds)
      as [nextId|] eqn:Ef.
    + destruct (find_first _ _ _ _ Ef) as [before [after [E [Hnew Hb]]]].
      apply negb_true_iff, includes_false in Hnew.
      assert (Hin : In nextId dimensionIds)
        by (rewrite E; apply in_or_app; right; now left).
      exists nextId. split; [assumption|]. split; [assumption|].
      rewrite (handleGroupAdd_next dimensionIds prev before nextId after E).
      * now rewrite Set_from_fresh.
      * intros id Hid. apply includes_In.
        specialize (Hb id Hid). now apply negb_false_iff in Hb.
      * assumption.
      * intros ->. contradiction.
    + exfalso. apply Hlen. apply Nat.le_antisymm.
      * now apply NoDup_incl_length.
      * apply NoDup_incl_length; [assumption|].
        intros id Hid. pose proof (find_none _ _ Ef id Hid) as Hn.
        apply negb_false_iff in Hn. now apply includes_In.
  - intros Hdis. apply orb_true_iff in Hdis as [Hz|Hlen].
    + apply Nat.eqb_eq in Hz. destruct dimensionIds; [reflexivity|discriminate].
    + apply Nat.eqb_eq in Hlen.
      apply handleGroupAdd_full.
      apply NoDup_length_incl; [assumption|lia|assumption].
Qed.

(** ** The two effects (usePieChartConfig) *)

Lemma isEqual_true xs ys : isEqual xs ys = true <-> xs = ys.
Proof.
  unfold isEqual. destruct (list_eq_dec string_dec xs ys); split;
    congruence.
Qed.

(** The value of the group fields after the first effect. *)
Lemma groupFieldIdsEffect_value dimensionIds fields :
  groupFieldIdsEffect false dimensionIds fields
  = if (List.length (filter (fun id => includes dimensionIds id) fields)
        =? 0)%nat
       && truthy (hd_error dimensionIds)
    then match hd_error dimensionIds with Some first => [first] | None => [] end
    else filter (fun id => includes dimensionIds id) fields.
Proof.
  unfold groupFieldIdsEffect.
  set (kept := filter (fun id => includes dimensionIds id) fields).
  destruct (hd_error dimensionIds) as [first|].
  - destruct ((List.length kept =? 0)%nat && truthy (Some first));
      [reflexivity|].
    destruct (isEqual kept fields) eqn:E; [|reflexivity].
    now apply isEqual_true in E.
  - rewrite andb_false_r.
    destruct (isEqual kept fields) eqn:E; [|reflexivity].
    now apply isEqual_true in E.
Qed.

Lemma filter_idem A (p : A -> bool) xs : filter p (filter p xs) = filter p xs.
Proof.
  induction xs as [|x xs IH]; simpl; [reflexivity|].
  destruct (p x) eqn:E; simpl; [rewrite E; f_equal|]; exact IH.
Qed.

Lemma filter_all A (p : A -> bool) xs :
  (forall x, In x xs -> p x = true) -> filter p xs = xs.
Proof.
  induction xs as [|x xs IH]; simpl; intros Hall; [reflexivity|].
  rewrite (Hall x (or_introl eq_refl)). f_equal. apply IH.
  intros y Hy. apply Hall. now right.
Qed.

(** X5. While the results load the first effect leaves the group fields
    alone.  Once they are loaded it leaves only dimensions among the group
    fields, keeps group fields that are all dimensions as they are when there
    is one at least, puts the first dimension when none of the group fields is
    a dimension and the id of the first dimension is not empty, and running
    it again changes nothing. *)
Theorem groupFieldIdsEffect_settles dimensionIds fields :
  groupFieldIdsEffect true dimensionIds fields = fields
  /\ (forall id,
        In id (groupFieldIdsEffect false dimensionIds fields) ->
        In id dimensionIds)
  /\ (incl fields dimensionIds -> fields <> [] ->
      groupFieldIdsEffect false dimensionIds fields = fields)
  /\ (forall first rest,
        dimensionIds = first :: rest -> first <> EmptyString ->
        (forall id, In id fields -> ~ In id dimensionIds) ->
        groupFieldIdsEffect false dimensionIds fields = [first])
  /\ groupFieldIdsEffect false dimensionIds
       (groupFieldIdsEffect false dimensionIds fields)
     = groupFieldIdsEffect false dimensionIds fields.
Proof.
  split; [reflexivity|].
  rewrite !groupFieldIdsEffect_value.
  set (keep := fun id => includes dimensionIds id).
  split; [|split; [|split]].
  - intros id.
    destruct ((List.length (filter keep fields) =? 0)%nat
              && truthy (hd_error dimensionIds)).
    + destruct dimensionIds as [|first rest]; simpl; [intros []|].
      intros [<-|[]]. now left.
    + intros Hid. apply filter_In in Hid as [_ Hid]. now apply includes_In.
  - intros Hincl Hne.
    assert (E : filter keep fields = fields).
    { apply filter_all. intros x Hx. apply includes_In. now apply Hincl. }
    rewrite E. destruct fields; [contradiction|reflexivity].
  - intros first rest -> Hfirst Hnone.
    assert (E : filter keep fields = []).
    { clear Hfirst. induction fields as [|x xs IH]; [reflexivity|].
      simpl. assert (Hx : keep x = false).
      { apply includes_false. apply Hnone. now left. }
      rewrite Hx. apply IH. intros id Hid. apply Hnone. now right. }
    rewrite E. simpl. apply String.eqb_neq in Hfirst. now rewrite Hfirst.
  - destruct ((List.length (filter keep fields) =? 0)%nat
              && truthy (hd_error dimensionIds)) eqn:Ec.
    + destruct dimensionIds as [|first rest]; [reflexivity|].
      simpl. assert (Hk : keep first = true)
        by (apply includes_In; now left).
      now rewrite Hk.
    + rewrite filter_idem. now rewrite Ec.
Qed.

(** X6. While the results load the second effect leaves the metric alone.
    Once they are loaded it keeps a metric that is not empty and is one of
    the numeric metrics, and puts the first numeric metric, or null when
    there is none, in every other case: when no metric is set, when it is
    empty and when it is not one of the numeric metrics.  The metric is then
    absent exactly when there is no numeric metric, it is never a metric that
    is not numeric, and running the effect again changes nothing. *)
Theorem metricIdEffect_settles allNumericMetricIds metric :
  metricIdEffect true allNumericMetricIds metric = metric
  /\ (forall id,
        metric = Some id -> id <> EmptyString -> In id allNumericMetricIds ->
        metricIdEffect false allNumericMetricIds metric = metric)
  /\ ((forall id, metric = Some id ->
                  id = EmptyString \/ ~ In id allNumericMetricIds) ->
      metricIdEffect false allNumericMetricIds metric
      = hd_error allNumericMetricIds)
  /\ (forall first rest,
        allNumericMetricIds = first :: rest ->
        metricIdEffect false allNumericMetricIds metric = metric
        \/ metricIdEffect false allNumericMetricIds metric = Some first)
  /\ (metricIdEffect false allNumericMetricIds metric = None
      <-> allNumericMetricIds = [])
  /\ (forall id,
        metricIdEffect false allNumericMetricIds metric = Some id ->
        In id allNumericMetricIds)
  /\ metricIdEffect false allNumericMetricIds
       (metricIdEffect false allNumericMetricIds metric)
     = metricIdEffect false allNumericMetricIds metric.
Proof.
  split; [reflexivity|].
  assert (Hhd : forall id, hd_error allNumericMetricIds = Some id ->
                           In id allNumericMetricIds).
  { intros id E. destruct allNumericMetricIds; inversion E. now left. }
  assert (Hval : metricIdEffect false allNumericMetricIds metric = metric
                 /\ (exists id, metric = Some id /\ id <> EmptyString
                                /\ In id allNumericMetricIds)
                 \/ metricIdEffect false allNumericMetricIds metric
                    = hd_error allNumericMetricIds).
  { unfold metricIdEffect. destruct metric as [id|]; [|now right].
    destruct (truthy (Some id)) eqn:Et; [|now right].
    destruct (includes allNumericMetricIds id) eqn:Ei; [|now right].
    left. split; [reflexivity|]. exists id. split; [reflexivity|].
    simpl in Et. apply negb_true_iff, String.eqb_neq in Et.
    split; [assumption|now apply includes_In]. }
  split; [|split; [|split; [|split; [|split]]]].
  - intros id -> Hne Hin. unfold metricIdEffect. simpl.
    apply String.eqb_neq in Hne. rewrite Hne. simpl.
    apply includes_In in Hin. now rewrite Hin.
  - intros Hnot. destruct Hval as [[_ [id [Em [Hne Hin]]]]|E]; [|exact E].
    destruct (Hnot id Em); contradiction.
  - intros first rest Eall. destruct Hval as [[E _]|E]; [now left|].
    right. rewrite E, Eall. reflexivity.
  - destruct Hval as [[E [id [-> [_ Hin]]]]| ->].
    + rewrite E. split; [discriminate|]. intros ->. destruct Hin.
    + destruct allNumericMetricIds; simpl; split; congruence.
  - intros id E. destruct Hval as [[E' [id' [-> [_ Hin]]]]|E'].
    + rewrite E' in E. now inversion E; subst.
    + rewrite E' in E. now apply Hhd.
  - destruct Hval as [[E _]| E]; rewrite E; [exact E|].
    unfold metricIdEffect.
    destruct (hd_error allNumericMetricIds) as [id|]; [|reflexivity].
    destruct (truthy (Some id) && includes allNumericMetricIds id);
      reflexivity.
Qed.

(** ** Overrides of the groups (usePieChartConfig) *)

Lemma obj_get_rest V key k (o : obj V) :
  obj_get k (obj_rest key o) = if key =? k then None else obj_get k o.
Proof.
  unfold obj_rest. induction o as [|[k0 v0] o IH]; simpl.
  - now destruct (key =? k).
  - destruct (String.eqb_spec k0 key) as [->|Hne]; simpl.
    + rewrite IH. destruct (String.eqb_spec key k); reflexivity.
    + rewrite IH. destruct (String.eqb_spec k0 k) as [->|_]; [|reflexivity].
      destruct (String.eqb_spec key k); [congruence|reflexivity].
Qed.

Lemma NoDup_keys_rest V key (o : obj V) :
  NoDup (Object_keys o) -> NoDup (Object_keys (obj_rest key o)).
Proof.
  unfold obj_rest. induction o as [|[k0 v0] o IH]; simpl; intros Hnd;
    [constructor|].
  inversion Hnd as [|? ? Hn Hnd']; subst.
  destruct (negb (k0 =? key)); simpl; [|now apply IH].
  constructor; [|now apply IH]. intros Hin. apply Hn.
  unfold Object_keys in *. apply in_map_iff in Hin as [[k v] [E Hin]].
  apply filter_In in Hin as [Hin _]. apply in_map_iff. now exists (k, v).
Qed.

Lemma handleGroupLabelChange_get key value prev k :
  obj_get k (handleGroupLabelChange key value prev)
  = if key =? k then (if value =? "" then None else Some value)
    else obj_get k prev.
Proof.
  unfold handleGroupLabelChange. destruct (value =? "").
  - apply obj_get_rest.
  - rewrite obj_get_set, obj_get_rest. now destruct (key =? k).
Qed.

(** X7. Changing the label (or colour) override of a group to a text that is
    not empty stores the text under the group, changing it to the empty text
    removes the override, and the overrides of the other groups are read as
    before; no group is recorded twice. *)
Theorem handleGroupLabelChange_overrides key value prev :
  (value <> EmptyString ->
   obj_get key (handleGroupLabelChange key value prev) = Some value)
  /\ obj_get key (handleGroupLabelChange key "" prev) = None
  /\ (forall other, other <> key ->
        obj_get other (handleGroupLabelChange key value prev)
        = obj_get other prev)
  /\ (NoDup (Object_keys prev) ->
      NoDup (Object_keys (handleGroupLabelChange key value prev)))
  /\ handleGroupColorChange key value prev
     = handleGroupLabelChange key value prev.
Proof.
  split; [|split; [|split; [|split]]].
  - intros Hne. rewrite handleGroupLabelChange_get, String.eqb_refl.
    apply String.eqb_neq in Hne. now rewrite Hne.
  - now rewrite handleGroupLabelChange_get, String.eqb_refl.
  - intros other Hne. rewrite handleGroupLabelChange_get.
    destruct (String.eqb_spec key other); [congruence|reflexivity].
  - intros Hnd. unfold handleGroupLabelChange.
    destruct (value =? ""); [now apply NoDup_keys_rest|].
    now apply NoDup_keys_set, NoDup_keys_rest.
  - reflexivity.
Qed.

(** X8. Changing options of a group merges them into the options the group
    already overrides: an option that is given is read as given, an option
    that is not given is read as before, and the other groups are read as
    before. *)
Theorem handleGroupValueOptionChange_merges label value prev :
  NoDup (Object_keys value) ->
  exists merged,
    obj_get label (handleGroupValueOptionChange label value prev) = Some merged
    /\ (forall optionName given,
          obj_get optionName value = Some given ->
          obj_get optionName merged = Some given)
    /\ (forall optionName,
          obj_get optionName value = None ->
          obj_get optionName merged
          = match obj_get label prev with
            | Some before => obj_get optionName before
            | None => None
            end)
    /\ (forall other, other <> label ->
          obj_get other (handleGroupValueOptionChange label value prev)
          = obj_get other prev).
Proof.
  intros Hnd. unfold handleGroupValueOptionChange. eexists.
  split; [rewrite obj_get_set, String.eqb_refl; reflexivity|].
  split; [|split].
  - intros optionName given E. now rewrite obj_get_spread_obj, E.
  - intros optionName E. rewrite obj_get_spread_obj, E by assumption.
    now destruct (obj_get label prev).
  - intros other Hne. rewrite obj_get_set.
    destruct (String.eqb_spec label other); [congruence|reflexivity].
Qed.

Lemma obj_get_In V k v (o : obj V) : obj_get k o = Some v -> In (k, v) o.
Proof.
  induction o as [|[k0 v0] o IH]; simpl; [discriminate|].
  destruct (String.eqb_spec k0 k) as [->|_].
  - intros E. inversion E. now left.
  - intros E. right. now apply IH.
Qed.

Lemma In_obj_get V k v (o : obj V) :
  NoDup (Object_keys o) -> In (k, v) o -> obj_get k o = Some v.
Proof.
  induction o as [|[k0 v0] o IH]; simpl; intros Hnd Hin; [destruct Hin|].
  inversion Hnd as [|? ? Hn Hnd']; subst.
  destruct Hin as [E|Hin].
  - inversion E; subst. now rewrite String.eqb_refl.
  - destruct (String.eqb_spec k0 k) as [->|_]; [|now apply IH].
    exfalso. apply Hn. unfold Object_keys. apply in_map_iff.
    now exists (k, v).
Qed.

(** An object built from entries that hold each key once has these
    entries. *)
Lemma In_fromEntries V (entries : list (string * V)) kv :
  NoDup (Object_keys entries) ->
  In kv (Object_fromEntries entries) <-> In kv entries.
Proof.
  intros Hnd. split.
  - intros Hin. apply In_obj_spread in Hin as [[]|Hin]. exact Hin.
  - destruct kv as [k v]. intros Hin. apply obj_get_In.
    unfold Object_fromEntries. rewrite obj_get_spread_obj by assumption.
    now rewrite (In_obj_get _ _ _ _ Hnd Hin).
Qed.

Lemma mapValues_keys V W (o : obj V) (f : V -> W) :
  Object_keys (map (fun kv => (fst kv, f (snd kv))) o) = Object_keys o.
Proof.
  unfold Object_keys. rewrite map_map. reflexivity.
Qed.

Lemma In_mapValues V W (o : obj V) (f : V -> W) k w :
  NoDup (Object_keys o) ->
  In (k, w) (mapValues o f) <-> exists v, In (k, v) o /\ w = f v.
Proof.
  intros Hnd. unfold mapValues.
  rewrite In_fromEntries by now rewrite mapValues_keys.
  rewrite in_map_iff. split.
  - intros [[k0 v0] [E Hin]]. inversion E; subst. now exists v0.
  - intros [v [Hin ->]]. now exists (k, v).
Qed.

Lemma optionDefined_rest dropped optionName value :
  optionDefined optionName (obj_rest dropped value)
  = if dropped =? optionName then false else optionDefined optionName value.
Proof.
  unfold optionDefined. rewrite obj_get_rest.
  now destruct (dropped =? optionName).
Qed.

Lemma isOptionOverriden_dropOption dropped optionName overrides :
  NoDup (Object_keys overrides) ->
  isOptionOverriden optionName (dropOption dropped overrides)
  = if dropped =? optionName then false
    else isOptionOverriden optionName overrides.
Proof.
  intros Hnd. unfold isOptionOverriden, dropOption.
  apply eq_true_iff_eq.
  transitivity (exists value, In value (Object_values overrides)
                              /\ optionDefined optionName
                                   (obj_rest dropped value) = true).
  - rewrite existsb_exists. unfold Object_values. split.
    + intros [w [Hin Hw]]. apply in_map_iff in Hin as [[k w'] [E Hin]].
      simpl in E. subst w'.
      apply In_mapValues in Hin as [v [Hin ->]]; [|assumption].
      exists v. split; [|assumption]. apply in_map_iff. now exists (k, v).
    + intros [v [Hin Hv]]. apply in_map_iff in Hin as [[k v'] [E Hin]].
      simpl in E. subst v'. exists (obj_rest dropped v).
      split; [|assumption]. apply in_map_iff.
      exists (k, obj_rest dropped v). split; [reflexivity|].
      apply In_mapValues; [assumption|]. now exists v.
  - destruct (dropped =? optionName) eqn:Ed.
    + split; [|discriminate]. intros [v [_ Hv]].
      rewrite optionDefined_rest, Ed in Hv. discriminate.
    + rewrite existsb_exists. split; intros [v [Hin Hv]]; exists v;
        (split; [assumption|]);
        rewrite optionDefined_rest, Ed in *; assumption.
Qed.

Lemma obj_get_map V W (o : obj V) (f : V -> W) k :
  obj_get k (map (fun kv => (fst kv, f (snd kv))) o)
  = option_map f (obj_get k o).
Proof.
  induction o as [|[k0 v0] o IH]; simpl; [reflexivity|].
  destruct (k0 =? k); [reflexivity|exact IH].
Qed.

Lemma obj_get_mapValues V W (o : obj V) (f : V -> W) k :
  NoDup (Object_keys o) ->
  obj_get k (mapValues o f) = option_map f (obj_get k o).
Proof.
  intros Hnd. unfold mapValues, Object_fromEntries.
  rewrite obj_get_spread_obj by now rewrite mapValues_keys.
  rewrite obj_get_map. now destruct (obj_get k o).
Qed.

(** X9. Changing the value label of the chart, or toggling its value or its
    percentage, sets that option of the chart, leaves the two other options
    of the chart as they are and drops the override of that option from
    every group: afterwards no group overrides it, the two other options are
    overridden exactly as before, every group that had overrides still has
    them, without that option and with every other option as it was, and the
    rest of the state is kept. *)
Theorem chart_option_change_drops_overrides newValueLabel st :
  NoDup (Object_keys (groupValueOptionOverrides st)) ->
  let overridden optionName st' :=
    isOptionOverriden optionName (groupValueOptionOverrides st') in
  (valueLabel (handleValueLabelChange newValueLabel st) = newValueLabel
   /\ showValue (handleValueLabelChange newValueLabel st) = showValue st
   /\ showPercentage (handleValueLabelChange newValueLabel st)
      = showPercentage st
   /\ overridden "valueLabel" (handleValueLabelChange newValueLabel st) = false
   /\ overridden "showValue" (handleValueLabelChange newValueLabel st)
      = overridden "showValue" st
   /\ overridden "showPercentage" (handleValueLabelChange newValueLabel st)
      = overridden "showPercentage" st)
  /\ (showValue (handleToggleShowValue st) = negb (showValue st)
      /\ valueLabel (handleToggleShowValue st) = valueLabel st
      /\ showPercentage (handleToggleShowValue st) = showPercentage st
      /\ overridden "showValue" (handleToggleShowValue st) = false
      /\ overridden "valueLabel" (handleToggleShowValue st)
         = overridden "valueLabel" st
      /\ overridden "showPercentage" (handleToggleShowValue st)
         = overridden "showPercentage" st)
  /\ (showPercentage (handleToggleShowPercentage st)
      = negb (showPercentage st)
      /\ valueLabel (handleToggleShowPercentage st) = valueLabel st
      /\ showValue (handleToggleShowPercentage st) = showValue st
      /\ overridden "showPercentage" (handleToggleShowPercentage st) = false
      /\ overridden "valueLabel" (handleToggleShowPercentage st)
         = overridden "valueLabel" st
      /\ overridden "showValue" (handleToggleShowPercentage st)
         = overridden "showValue" st)
  /\ (forall dropped st',
        dropped = "valueLabel" /\ st' = handleValueLabelChange newValueLabel st
        \/ dropped = "showValue" /\ st' = handleToggleShowValue st
        \/ dropped = "showPercentage"
           /\ st' = handleToggleShowPercentage st ->
        groupFieldIds st' = groupFieldIds st
        /\ metricId st' = metricId st
        /\ isDonut st' = isDonut st
        /\ groupLabelOverrides st' = groupLabelOverrides st
        /\ groupColorOverrides st' = groupColorOverrides st
        /\ showLegend st' = showLegend st
        /\ (forall group,
              In group (Object_keys (groupValueOptionOverrides st'))
              <-> In group (Object_keys (groupValueOptionOverrides st)))
        /\ (forall group,
              obj_get group (groupValueOptionOverrides st')
              = option_map (obj_rest dropped)
                  (obj_get group (groupValueOptionOverrides st)))
        /\ (forall group options,
              obj_get group (groupValueOptionOverrides st) = Some options ->
              exists options',
                obj_get group (groupValueOptionOverrides st') = Some options'
                /\ obj_get dropped options' = None
                /\ forall other, other <> dropped ->
                     obj_get other options' = obj_get other options)).
Proof.
  intros Hnd overridden. unfold overridden. simpl.
  rewrite !isOptionOverriden_dropOption by assumption. simpl.
  assert (Hkeys : forall dropped group,
             In group (Object_keys
                         (dropOption dropped (groupValueOptionOverrides st)))
             <-> In group (Object_keys (groupValueOptionOverrides st))).
  { intros dropped group. unfold dropOption, mapValues, Object_fromEntries.
    rewrite In_keys_spread, mapValues_keys. simpl. tauto. }
  assert (Hget : forall dropped group,
             obj_get group (dropOption dropped (groupValueOptionOverrides st))
             = option_map (obj_rest dropped)
                 (obj_get group (groupValueOptionOverrides st))).
  { intros dropped group. unfold dropOption. now apply obj_get_mapValues. }
  assert (Hread : forall dropped group options,
             obj_get group (groupValueOptionOverrides st) = Some options ->
             exists options',
               obj_get group
                 (dropOption dropped (groupValueOptionOverrides st))
               = Some options'
               /\ obj_get dropped options' = None
               /\ forall other, other <> dropped ->
                    obj_get other options' = obj_get other options).
  { intros dropped group options Eg. exists (obj_rest dropped options).
    split; [now rewrite Hget, Eg|]. split.
    - now rewrite obj_get_rest, String.eqb_refl.
    - intros other Hne. rewrite obj_get_rest.
      destruct (String.eqb_spec dropped other); [congruence|reflexivity]. }
  split; [repeat split|]. split; [repeat split|]. split; [repeat split|].
  intros dropped st' [[-> ->]|[[-> ->]|[-> ->]]]; simpl;
    (repeat split; try reflexivity;
     [apply Hkeys|apply Hkeys|apply Hget|apply Hread]).
Qed.

(** ** Labels and default colours of the groups (usePieChartConfig) *)

(** X10. The group labels hold no label twice.  There is none while the
    results or the explore are missing or when there is no group field;
    otherwise they are exactly the labels of the rows, and the label of a row
    is the formatted values of its group fields, joined by [" - "], a missing
    value being written as the empty text. *)
Theorem groupLabels_distinct rows hasExplore fields :
  NoDup (groupLabels rows hasExplore fields)
  /\ (forall label,
        In label (groupLabels rows hasExplore fields)
        <-> hasExplore = true /\ fields <> []
            /\ exists loaded row,
                 rows = Some loaded /\ In row loaded
                 /\ rowLabel fields row = label)
  /\ (forall row id,
        rowLabel [id] row
        = match formattedOf row id with Some text => text | None => "" end)
  /\ (forall row id1 id2 text1 text2,
        formattedOf row id1 = Some text1 ->
        formattedOf row id2 = Some text2 ->
        rowLabel [id1; id2] row = (text1 ++ " - " ++ text2)%string).
Proof.
  split; [|split; [|split]].
  - unfold groupLabels. destruct rows as [loaded|]; [|constructor].
    destruct (negb hasExplore || (List.length fields =? 0)%nat);
      [constructor|apply Set_from_NoDup].
  - intros label. unfold groupLabels. destruct rows as [loaded|].
    + destruct hasExplore; simpl.
      * destruct fields as [|f fs]; simpl.
        -- split; [intros []|]. intros [_ [Hne _]]. now apply Hne.
        -- unfold uniq. rewrite Set_from_In, in_map_iff. split.
           ++ intros [row [E Hin]]. split; [reflexivity|].
              split; [discriminate|]. now exists loaded, row.
           ++ intros [_ [_ [loaded' [row [E [Hin El]]]]]].
              inversion E; subst loaded'. now exists row.
      * split; [intros []|]. intros [E _]. discriminate.
    + split; [intros []|]. intros [_ [_ [loaded [row [E _]]]]]. discriminate.
  - intros row id. unfold rowLabel, join_defined, join. simpl.
    reflexivity.
  - intros row id1 id2 text1 text2 E1 E2.
    unfold rowLabel, join_defined, join. simpl. now rewrite E1, E2.
Qed.

Lemma mapi_from_keys V (f : string -> nat -> V) start labels :
  Object_keys (mapi_from (fun name index => (name, f name index)) start labels)
  = labels.
Proof.
  revert start. induction labels as [|l labels IH]; intros start; simpl;
    [reflexivity|].
  now rewrite IH.
Qed.

Lemma mapi_from_get V (f : string -> nat -> V) labels :
  forall start i name,
    NoDup labels ->
    nth_error labels i = Some name ->
    obj_get name
      (mapi_from (fun name index => (name, f name index)) start labels)
    = Some (f name (start + i)).
Proof.
  induction labels as [|l labels IH]; intros start i name Hnd Hi;
    [destruct i; discriminate|].
  inversion Hnd as [|? ? Hn Hnd']; subst. simpl.
  destruct i as [|i]; simpl in Hi.
  - inversion Hi; subst. now rewrite String.eqb_refl, Nat.add_0_r.
  - destruct (String.eqb_spec l name) as [->|_].
    + exfalso. apply Hn. eapply nth_error_In; eassumption.
    + rewrite (IH (S start) i name Hnd' Hi). f_equal. f_equal. lia.
Qed.

(** X11. The default colours go round the palette: for distinct labels, the
    label at place [i] is given the colour at place [i] modulo the size of
    the palette, which is a colour whenever the palette is not empty and is
    undefined when it is; only the labels are given a colour. *)
Theorem groupColorDefaults_cycle labels defaultColors :
  NoDup labels ->
  (forall i name,
     nth_error labels i = Some name ->
     obj_get name (groupColorDefaults labels defaultColors)
     = Some (nth_error defaultColors (i mod List.length defaultColors))
     /\ (defaultColors <> [] ->
         exists colour,
           nth_error defaultColors (i mod List.length defaultColors)
           = Some colour)
     /\ (defaultColors = [] ->
         obj_get name (groupColorDefaults labels defaultColors) = Some None))
  /\ (forall name,
        In name (Object_keys (groupColorDefaults labels defaultColors))
        <-> In name labels).
Proof.
  intros Hnd. unfold groupColorDefaults, Object_fromEntries. split.
  - intros i name Hi.
    assert (Eg : obj_get name
                   (obj_spread []
                      (mapi_from
                         (fun name index =>
                            (name,
                             nth_error defaultColors
                               (index mod List.length defaultColors)))
                         0 labels))
                 = Some (nth_error defaultColors
                           (i mod List.length defaultColors))).
    { rewrite obj_get_spread_obj by now rewrite mapi_from_keys.
      now rewrite (mapi_from_get _ _ labels 0 i name Hnd Hi). }
    split; [exact Eg|]. split.
    + intros Hne.
      destruct (nth_error defaultColors (i mod List.length defaultColors))
        as [colour|] eqn:En; [now exists colour|].
      apply nth_error_None in En.
      assert (List.length defaultColors <> 0)
        by (destruct defaultColors; [contradiction|discriminate]).
      pose proof (Nat.mod_upper_bound i (List.length defaultColors)). lia.
    + intros ->. rewrite Eg. simpl. now destruct i.
  - intros name. rewrite In_keys_spread, mapi_from_keys. simpl. tauto.
Qed.

(** ** The project types on offer (DbtSettingsForm) *)

(** X12. The project types on offer hold no type twice and always hold the
    four git providers, first and in the same order; the local dbt type is
    offered exactly when local dbt is enabled, the dbt Cloud IDE type and the
    type None exactly when they are the type of the project.  So the type of
    the project is on offer unless it is the local dbt type while local dbt
    is disabled. *)
Theorem enabledTypes_offer localDbtEnabled type :
  NoDup (enabledTypes localDbtEnabled type)
  /\ firstn 4 (enabledTypes localDbtEnabled type)
     = [GITHUB; GITLAB; BITBUCKET; AZURE_DEVOPS]
  /\ (In DBT (enabledTypes localDbtEnabled type) <-> localDbtEnabled = true)
  /\ (In DBT_CLOUD_IDE (enabledTypes localDbtEnabled type)
      <-> type = DBT_CLOUD_IDE)
  /\ (In NONE (enabledTypes localDbtEnabled type) <-> type = NONE)
  /\ (In type (enabledTypes localDbtEnabled type)
      <-> type <> DBT \/ localDbtEnabled = true).
Proof.
  destruct localDbtEnabled, type; cbv [enabledTypes DbtProjectType_eqb app];
    (split; [repeat constructor; simpl; intuition discriminate|]);
    (split; [reflexivity|]);
    simpl; repeat split; intros; try discriminate; try tauto;
    intuition (try discriminate; try congruence).
Qed.

(** ** Lineage (generateTableLineage, translateDbtModelsToTableLineage) *)

(** A [reduce] that writes one entry for each element: what is read under
    the key of an element that no later element shares. *)
Lemma fold_set_last A V (key : A -> string) (val : A -> V) xs :
  forall acc before x after,
    xs = before ++ x :: after ->
    (forall y, In y after -> key y <> key x) ->
    obj_get (key x)
      (fold_left (fun prev y => obj_set (key y) (val y) prev) xs acc)
    = Some (val x).
Proof.
  intros acc before x after -> Hafter. rewrite fold_left_app. simpl.
  generalize (fold_left (fun prev y => obj_set (key y) (val y) prev)
                        before acc) as acc'.
  intros acc'.
  assert (Hkeep : forall ys o,
             (forall y, In y ys -> key y <> key x) ->
             obj_get (key x)
               (fold_left (fun prev y => obj_set (key y) (val y) prev) ys o)
             = obj_get (key x) o).
  { induction ys as [|y ys IH]; intros o Hys; simpl; [reflexivity|].
    rewrite IH by (intros z Hz; apply Hys; now right).
    rewrite obj_get_set.
    destruct (String.eqb_spec (key y) (key x)) as [E|_]; [|reflexivity].
    exfalso. exact (Hys y (or_introl eq_refl) E). }
  rewrite Hkeep by assumption.
  now rewrite obj_get_set, String.eqb_refl.
Qed.

Lemma fold_set_keys A V (key : A -> string) (val : A -> V) xs :
  forall acc k,
    In k (Object_keys
            (fold_left (fun prev y => obj_set (key y) (val y) prev) xs acc))
    <-> In k (map key xs) \/ In k (Object_keys acc).
Proof.
  induction xs as [|x xs IH]; intros acc k; simpl; [tauto|].
  rewrite IH, In_keys_set. intuition congruence.
Qed.

Lemma fold_set_NoDup A V (key : A -> string) (val : A -> V) xs :
  forall acc,
    NoDup (Object_keys acc) ->
    NoDup (Object_keys
             (fold_left (fun prev y => obj_set (key y) (val y) prev) xs acc)).
Proof.
  induction xs as [|x xs IH]; intros acc Hnd; simpl; [assumption|].
  apply IH. now apply NoDup_keys_set.
Qed.

(** X13. The lineage graph of a model always holds, under the name of the
    node of the model itself, the data of the direct dependencies of the
    model; its keys, each once, are the names of the nodes of the family of
    the model: its dependants, its dependencies and itself. *)
Theorem generateTableLineage_own_entry {T : HostTypes} {H : Host}
  (model : DbtModelNode) (depGraph : DepGraph) :
  obj_get (nodeName (getNodeData depGraph (unique_id model)))
          (generateTableLineage model depGraph)
  = Some (map (getNodeData depGraph)
              (directDependenciesOf depGraph (unique_id model)))
  /\ NoDup (Object_keys (generateTableLineage model depGraph))
  /\ (forall name,
        In name (Object_keys (generateTableLineage model depGraph))
        <-> exists nodeId,
              (In nodeId (dependantsOf depGraph (unique_id model))
               \/ In nodeId (dependenciesOf depGraph (unique_id model))
               \/ nodeId = unique_id model)
              /\ nodeName (getNodeData depGraph nodeId) = name).
Proof.
  unfold generateTableLineage. split; [|split].
  - rewrite app_assoc.
    apply (fold_set_last _ _
             (fun nodeId => nodeName (getNodeData depGraph nodeId))
             (fun nodeId => map (getNodeData depGraph)
                                (directDependenciesOf depGraph nodeId))
             _ [] _ (unique_id model) [] eq_refl).
    intros y [].
  - apply (fold_set_NoDup _ _
             (fun nodeId => nodeName (getNodeData depGraph nodeId))
             (fun nodeId => map (getNodeData depGraph)
                                (directDependenciesOf depGraph nodeId))).
    constructor.
  - intros name.
    rewrite (fold_set_keys _ _
               (fun nodeId => nodeName (getNodeData depGraph nodeId))
               (fun nodeId => map (getNodeData depGraph)
                                  (directDependenciesOf depGraph nodeId))).
    rewrite in_map_iff. simpl. split.
    + intros [[nodeId [E Hin]]|[]]. exists nodeId. split; [|assumption].
      rewrite !in_app_iff in Hin. simpl in Hin. intuition.
    + intros [nodeId [Hin E]]. left. exists nodeId. split; [assumption|].
      rewrite !in_app_iff. simpl. intuition.
Qed.

Lemma translateDbtModelsToTableLineage_get {T : HostTypes} {H : Host}
  models before model after :
  models = before ++ model :: after ->
  (forall later, In later after -> model_name later <> model_name model) ->
  obj_get (model_name model) (translateDbtModelsToTableLineage models)
  = Some (generateTableLineage model (buildModelGraph models)).
Proof.
  intros E Hafter. unfold translateDbtModelsToTableLineage.
  exact (fold_set_last _ _ model_name
           (fun m => generateTableLineage m (buildModelGraph models))
           models [] before model after E Hafter).
Qed.

Lemma translateDbtModelsToTableLineage_keys {T : HostTypes} {H : Host}
  models name :
  In name (Object_keys (translateDbtModelsToTableLineage models))
  <-> In name (map model_name models).
Proof.
  unfold translateDbtModelsToTableLineage.
  rewrite (fold_set_keys _ _ model_name
             (fun m => generateTableLineage m (buildModelGraph models))).
  simpl. tauto.
Qed.

Lemma tableOfModel_Return {T : HostTypes} {H : Host}
  tableLineage loadSources adapterType metrics model table :
  tableOfModel tableLineage loadSources adapterType metrics model
  = Return table ->
  exists tableMetrics converted,
    filterM (fun metric =>
               modelCanUseMetric_call (metric_name metric) (model_name model)
                 metrics) metrics = Return tableMetrics
    /\ convertTable adapterType model tableMetrics = Return converted
    /\ (loadSources = false \/ patch_path model = None)
    /\ table = withLineage converted (obj_get (model_name model) tableLineage).
Proof.
  unfold tableOfModel. intros E.
  apply bind_Return in E as [tableMetrics [Ef E]].
  apply bind_Return in E as [converted [Ec E]].
  apply bind_Return in E as [[] [Es E]].
  exists tableMetrics, converted. repeat split; try assumption.
  - destruct loadSources; [|now left]. right.
    destruct (patch_path model); [discriminate|reflexivity].
  - now inversion E.
Qed.

(** X14. A table that the first phase of [convertExplores] builds for one of
    the models always carries a lineage graph, and when no later model has
    the same name it is the lineage graph of that model in the graph of all
    the models. *)
Theorem tableOfModel_lineage {T : HostTypes} {H : Host}
  models loadSources adapterType metrics model table :
  In model models ->
  tableOfModel (translateDbtModelsToTableLineage models) loadSources
    adapterType metrics model = Return table ->
  (exists lineage, t_lineageGraph table = Some lineage)
  /\ (forall before after,
        models = before ++ model :: after ->
        (forall later, In later after ->
           model_name later <> model_name model) ->
        t_lineageGraph table
        = Some (generateTableLineage model (buildModelGraph models))).
Proof.
  intros Hin Et.
  destruct (tableOfModel_Return _ _ _ _ _ _ Et)
    as [tableMetrics [converted [_ [_ [_ ->]]]]].
  split.
  - assert (Hk : In (model_name model)
                    (Object_keys (translateDbtModelsToTableLineage models)))
      by (apply translateDbtModelsToTableLineage_keys; now apply in_map).
    apply In_keys_get in Hk as [lineage ->]. now exists lineage.
  - intros before after E Hafter.
    now rewrite (translateDbtModelsToTableLineage_get _ _ _ _ E Hafter).
Qed.

(** ** More on convertExplores *)

Lemma succeeded_or_failed_length {T : HostTypes} {H : Host}
  tableLineage loadSources adapterType metrics models :
  List.length
    (filter
       (fun model =>
          match tableOfModel tableLineage loadSources adapterType metrics model
          with
          | Return _ => true
          | Throw _ => false
          end)
       models)
  + List.length
      (tableExploreErrors tableLineage loadSources adapterType metrics models)
  = List.length models.
Proof.
  unfold tableExploreErrors.
  induction models as [|model models IH]; simpl; [reflexivity|].
  destruct (tableOfModel tableLineage loadSources adapterType metrics model);
    simpl; lia.
Qed.

(** The entries of the two phases, counted: every model whose conversion
    came back is taken up by the second phase, and a model whose conversion
    threw counts once more when it is taken up too. *)
Lemma entries_length {T : HostTypes} {H : Host}
  tableLineage loadSources adapterType metrics
  (valid : DbtModelNode -> bool) models :
  let failed model :=
    match tableOfModel tableLineage loadSources adapterType metrics model with
    | Return _ => false
    | Throw _ => true
    end in
  (forall model, In model models -> failed model = false ->
                 valid model = true) ->
  List.length (filter valid models)
  + List.length
      (tableExploreErrors tableLineage loadSources adapterType metrics models)
  = List.length models
    + List.length (filter failed (filter valid models)).
Proof.
  intros failed. subst failed. unfold tableExploreErrors.
  induction models as [|model models IH]; intros Hvalid; [reflexivity|].
  assert (IH' := IH (fun m Hm => Hvalid m (or_intror Hm))).
  pose proof (Hvalid model (or_introl eq_refl)) as Hmodel.
  cbn [filter flat_map]. cbv beta in Hmodel.
  destruct (tableOfModel tableLineage loadSources adapterType metrics model)
    as [table|e] eqn:Et.
  - rewrite (Hmodel eq_refl). cbn [filter]. rewrite Et.
    cbn [app Datatypes.length]. lia.
  - destruct (valid model); cbn [filter]; rewrite ?Et;
      rewrite ?length_app; cbn [app Datatypes.length]; lia.
Qed.

(** X15. Once the lineage is built [convertExplores] returns and loses no
    model: its result has one entry for each model and one more for each
    model whose table conversion threw and which the second phase takes up
    all the same, so at least as many entries as there are models and at
    most twice as many, and exactly one entry for each model when the models
    have distinct names, none of them the name of a property that every
    object inherits. *)
Theorem convertExplores_one_entry_per_model {T : HostTypes} {H : Host}
  models loadSources adapterType metrics :
  convertExplores models loadSources adapterType metrics
  = convertExploresFrom (translateDbtModelsToTableLineage models) models
      loadSources adapterType metrics
  /\ forall tableLineage,
  let failed model :=
    match tableOfModel tableLineage loadSources adapterType metrics model with
    | Return _ => false
    | Throw _ => true
    end in
  let tableLookup :=
    tableLookupOf
      (convertedTables tableLineage loadSources adapterType metrics models) in
  exists out,
    convertExploresFrom tableLineage models loadSources adapterType metrics
    = Return out
    /\ List.length out
       = List.length models
         + List.length (filter failed (validModelsOf tableLookup models))
    /\ List.length models <= List.length out <= 2 * List.length models
    /\ (NoDup (map model_name models) ->
        (forall model, In model models ->
           ~ In (model_name model) Object_prototype_keys) ->
        List.length out = List.length models).
Proof.
  split; [reflexivity|]. intros tableLineage failed tableLookup.
  eexists. split; [apply convertExploresFrom_result|].
  fold tableLookup. rewrite length_app, !length_map.
  assert (Hcount :
    List.length (validModelsOf tableLookup models)
    + List.length
        (tableExploreErrors tableLineage loadSources adapterType metrics
           models)
    = List.length models
      + List.length (filter failed (validModelsOf tableLookup models))).
  { unfold validModelsOf. apply entries_length.
    intros model Hin Hok.
    destruct (tableOfModel tableLineage loadSources adapterType metrics model)
      as [table|e] eqn:Et; [|discriminate].
    unfold obj_defined. apply orb_true_iff. left.
    apply tableLookup_has. now exists model, table. }
  split; [exact Hcount|]. split.
  - pose proof (filter_length_le failed (validModelsOf tableLookup models)).
    pose proof (filter_length_le
                  (fun model => obj_defined (model_name model) tableLookup)
                  models) as Hle.
    fold (validModelsOf tableLookup models) in Hle. lia.
  - intros Hnd Hown. unfold tableLookup.
    rewrite validModels_succeeded by assumption.
    apply succeeded_or_failed_length.
Qed.

Lemma filterM_In A (p : A -> result bool) xs ys :
  filterM p xs = Return ys ->
  forall y, In y ys <-> In y xs /\ p y = Return true.
Proof.
  revert ys. induction xs as [|x xs IH]; simpl; intros ys E y.
  - inversion E; subst. simpl. tauto.
  - apply bind_Return in E as [b [Ep E]].
    apply bind_Return in E as [ys' [Ef E]]. inversion E; subst.
    specialize (IH ys' Ef y). destruct b; simpl; rewrite IH.
    + split.
      * intros [<-|[Hin Hy]]; [split; [now left|assumption]|].
        split; [now right|assumption].
      * intros [[<-|Hin] Hy]; [now left|right; now split].
    + split.
      * intros [Hin Hy]. split; [now right|assumption].
      * intros [[<-|Hin] Hy]; [congruence|now split].
Qed.

Lemma filterM_Throw A (p : A -> result bool) xs e :
  (forall x, In x xs -> (exists b, p x = Return b) \/ p x = Throw e) ->
  (exists x, In x xs /\ p x = Throw e) ->
  filterM p xs = Throw e.
Proof.
  induction xs as [|x xs IH]; simpl; intros Hall [y [Hy Ey]]; [destruct Hy|].
  destruct (Hall x (or_introl eq_refl)) as [[b Eb]|Ex].
  - rewrite Eb. simpl. rewrite IH; [reflexivity| |].
    + intros z Hz. apply Hall. now right.
    + destruct Hy as [<-|Hy]; [congruence|]. now exists y.
  - now rewrite Ex.
Qed.

(** X16. With [loadSources] set, a model that has a patch path is never
    given a table: its conversion always throws, and it throws the error
    [Not Implemented] whenever the table itself could be built. *)
Theorem tableOfModel_sources_not_implemented {T : HostTypes} {H : Host}
  tableLineage adapterType metrics model path :
  patch_path model = Some path ->
  (exists e,
     tableOfModel tableLineage true adapterType metrics model = Throw e)
  /\ (forall tableMetrics table,
        filterM (fun metric =>
                   modelCanUseMetric_call (metric_name metric)
                     (model_name model) metrics) metrics
        = Return tableMetrics ->
        convertTable adapterType model tableMetrics = Return table ->
        tableOfModel tableLineage true adapterType metrics model
        = Throw (Error "Not Implemented")).
Proof.
  intros Hp. split.
  - destruct (tableOfModel tableLineage true adapterType metrics model)
      as [table|e] eqn:Et; [|now exists e].
    apply tableOfModel_Return in Et as [_ [_ [_ [_ [[Hl|Hn] _]]]]];
      congruence.
  - intros tableMetrics table Ef Ec. unfold tableOfModel.
    rewrite Ef. simpl. rewrite Ec. simpl. now rewrite Hp.
Qed.

(** X17. When the check of one of the metrics for a model recurses without
    end, the conversion of the model throws a [RangeError], whatever the
    model and the other metrics are. *)
Theorem tableOfModel_endless_recursion {T : HostTypes} {H : Host}
  tableLineage loadSources adapterType metrics model metric :
  In metric metrics ->
  (forall fuel,
     modelCanUseMetric fuel (metric_name metric) (model_name model) metrics
     = None) ->
  tableOfModel tableLineage loadSources adapterType metrics model
  = Throw (RangeError "Maximum call stack size exceeded").
Proof.
  intros Hin Hloop. unfold tableOfModel.
  rewrite (filterM_Throw _ _ metrics
             (RangeError "Maximum call stack size exceeded"));
    [reflexivity| |].
  - intros m _. unfold modelCanUseMetric_call.
    destruct (modelCanUseMetric _ _ _ _) as [b|]; [left; now exists b|].
    now right.
  - exists metric. split; [assumption|]. unfold modelCanUseMetric_call.
    now rewrite Hloop.
Qed.

(** ** The metrics of a table *)

Lemma mapM_app_Return A B (f : A -> result B) xs1 xs2 ys :
  mapM f (xs1 ++ xs2) = Return ys ->
  exists ys1 ys2,
    ys = ys1 ++ ys2 /\ mapM f xs1 = Return ys1 /\ mapM f xs2 = Return ys2.
Proof.
  revert ys. induction xs1 as [|x xs1 IH]; simpl; intros ys E.
  - now exists [], ys.
  - apply bind_Return in E as [y [Ey E]].
    apply bind_Return in E as [ys' [Eys E]]. inversion E; subst.
    destruct (IH _ Eys) as [ys1 [ys2 [-> [E1 E2]]]].
    exists (y :: ys1), ys2. rewrite Ey, E1. simpl. auto.
Qed.

Section ConvertedMetrics.
Context {T : HostTypes} {H : Host}.
Variable model : DbtModelNode.
Variable tableLabel : string.

Let entryOf (metric : DbtMetric) :=
  m <- convertDbtMetricToLightdashMetric metric (model_name model)
         tableLabel ;;
  Return (metric_name metric, m).

Lemma entryOf_Return metric entry :
  entryOf metric = Return entry ->
  fst entry = metric_name metric
  /\ convertDbtMetricToLightdashMetric metric (model_name model) tableLabel
     = Return (snd entry).
Proof.
  unfold entryOf. intros E. apply bind_Return in E as [m [Em E]].
  inversion E; subst. simpl. auto.
Qed.

Lemma entries_keys dbtMetrics entries :
  mapM entryOf dbtMetrics = Return entries ->
  Object_keys entries = map metric_name dbtMetrics.
Proof.
  revert entries. induction dbtMetrics as [|metric ms IH]; simpl;
    intros entries E.
  - now inversion E.
  - apply bind_Return in E as [entry [Ee E]].
    apply bind_Return in E as [rest [Er E]]. inversion E; subst.
    apply entryOf_Return in Ee as [Ek _]. simpl. rewrite Ek. f_equal.
    now apply IH.
Qed.

Lemma convertedDbtMetricsOf_Return dbtMetrics converted :
  convertedDbtMetricsOf model tableLabel dbtMetrics = Return converted ->
  exists entries,
    mapM entryOf dbtMetrics = Return entries
    /\ converted = Object_fromEntries entries.
Proof.
  unfold convertedDbtMetricsOf. intros E.
  apply bind_Return in E as [entries [Em E]]. exists entries.
  split; [exact Em|now inversion E].
Qed.

(** Where an entry of the converted dbt metrics comes from. *)
Lemma converted_from_metric dbtMetrics converted name m :
  convertedDbtMetricsOf model tableLabel dbtMetrics = Return converted ->
  obj_get name converted = Some m ->
  exists metric,
    In metric dbtMetrics /\ metric_name metric = name
    /\ convertDbtMetricToLightdashMetric metric (model_name model) tableLabel
       = Return m.
Proof.
  intros E Eg. apply convertedDbtMetricsOf_Return in E as [entries [Em ->]].
  apply obj_get_In, In_obj_spread in Eg as [[]|Hin].
  destruct (mapM_In _ _ _ _ _ _ Em Hin) as [metric [Hmetric Ee]].
  apply entryOf_Return in Ee as [Ek Ec]. simpl in *.
  exists metric. auto.
Qed.

Lemma converted_last_metric dbtMetrics converted before metric after m :
  convertedDbtMetricsOf model tableLabel dbtMetrics = Return converted ->
  dbtMetrics = before ++ metric :: after ->
  (forall later, In later after -> metric_name later <> metric_name metric) ->
  convertDbtMetricToLightdashMetric metric (model_name model) tableLabel
  = Return m ->
  obj_get (metric_name metric) converted = Some m.
Proof.
  intros E -> Hafter Ec.
  apply convertedDbtMetricsOf_Return in E as [entries [Em ->]].
  apply mapM_app_Return in Em as [es1 [es2 [-> [_ Em]]]].
  simpl in Em. apply bind_Return in Em as [entry [Ee Em]].
  apply bind_Return in Em as [es3 [Em3 Em]]. inversion Em; subst es2.
  apply entryOf_Return in Ee as [Ek Ee]. rewrite Ec in Ee.
  inversion Ee as [Esnd]. destruct entry as [k m']. simpl in *. subst k m'.
  unfold Object_fromEntries. rewrite obj_get_spread, rev_app_distr. simpl.
  rewrite <- app_assoc. rewrite obj_get_app.
  assert (En : obj_get (metric_name metric) (rev es3) = None).
  { apply obj_get_None. rewrite Object_keys_rev, <- in_rev.
    rewrite (entries_keys _ _ Em3). intros Hin.
    apply in_map_iff in Hin as [later [E Hl]]. exact (Hafter later Hl E). }
  rewrite En. simpl. now rewrite String.eqb_refl.
Qed.

End ConvertedMetrics.

(** X18. The converted dbt metrics of a model are keyed by the names of the
    metrics: every metric has an entry under its name, an entry under a name
    is the conversion of a metric of that name and bears that name, and of
    metrics that share a name the last one is the one that is kept. *)
Theorem convertedDbtMetricsOf_keys {T : HostTypes} {H : Host}
  model tableLabel dbtMetrics converted :
  convertedDbtMetricsOf model tableLabel dbtMetrics = Return converted ->
  (forall name,
     In name (Object_keys converted) <-> In name (map metric_name dbtMetrics))
  /\ NoDup (Object_keys converted)
  /\ (forall name m,
        obj_get name converted = Some m ->
        m_name m = name
        /\ exists metric,
             In metric dbtMetrics /\ metric_name metric = name
             /\ convertDbtMetricToLightdashMetric metric (model_name model)
                  tableLabel = Return m)
  /\ (forall before metric after m,
        dbtMetrics = before ++ metric :: after ->
        (forall later, In later after ->
           metric_name later <> metric_name metric) ->
        convertDbtMetricToLightdashMetric metric (model_name model) tableLabel
        = Return m ->
        obj_get (metric_name metric) converted = Some m).
Proof.
  intros E. split; [|split; [|split]].
  - intros name.
    destruct (convertedDbtMetricsOf_Return _ _ _ _ E) as [entries [Em ->]].
    unfold Object_fromEntries. rewrite In_keys_spread.
    rewrite (entries_keys _ _ _ _ Em). simpl. tauto.
  - destruct (convertedDbtMetricsOf_Return _ _ _ _ E) as [entries [_ ->]].
    apply NoDup_keys_fromEntries.
  - intros name m Eg.
    destruct (converted_from_metric _ _ _ _ _ _ E Eg)
      as [metric [Hin [En Ec]]].
    split; [|now exists metric].
    unfold convertDbtMetricToLightdashMetric in Ec.
    apply bind_Return in Ec as [[type sql] [_ Ec]].
    apply bind_Return in Ec as [filters [_ Ec]].
    inversion Ec. simpl. exact En.
  - intros before metric after m Ed Hafter Ec.
    eapply converted_last_metric; eassumption.
Qed.

Lemma filterM_Return_all A (p : A -> result bool) xs ys :
  filterM p xs = Return ys ->
  forall x, In x xs -> exists b, p x = Return b.
Proof.
  revert ys. induction xs as [|x xs IH]; simpl; intros ys E y Hy;
    [destruct Hy|].
  apply bind_Return in E as [b [Ep E]].
  apply bind_Return in E as [ys' [Ef E]].
  destruct Hy as [<-|Hy]; [now exists b|]. eapply IH; eassumption.
Qed.

Lemma withLineage_metrics {T : HostTypes} (table : Table) lineage :
  t_metrics (withLineage table lineage) = t_metrics table.
Proof. now destruct lineage. Qed.

(** X19. In a table that the first phase of [convertExplores] builds, a
    metric that no column declares is the conversion of a dbt metric of that
    name that the model can use, and every dbt metric that the model can use
    has an entry under its name. *)
Theorem tableOfModel_metrics_usable {T : HostTypes} {H : Host}
  tableLineage loadSources adapterType metrics model table :
  tableOfModel tableLineage loadSources adapterType metrics model
  = Return table ->
  exists dimensions columnMetrics,
    convertColumns adapterType model (modelLabel model)
    = Return (dimensions, columnMetrics)
    /\ (forall name m,
          obj_get name (t_metrics table) = Some m ->
          obj_get name columnMetrics = Some m
          \/ (obj_get name columnMetrics = None
              /\ exists metric,
                   In metric metrics /\ metric_name metric = name
                   /\ Usable metrics (model_name model) name
                   /\ convertDbtMetricToLightdashMetric metric
                        (model_name model) (modelLabel model) = Return m))
    /\ (forall metric,
          In metric metrics ->
          Usable metrics (model_name model) (metric_name metric) ->
          In (metric_name metric) (Object_keys (t_metrics table))).
Proof.
  intros Et.
  destruct (tableOfModel_Return _ _ _ _ _ _ Et)
    as [tableMetrics [converted0 [Ef [Ec [_ ->]]]]].
  rewrite withLineage_metrics.
  destruct (convertTable_Return _ _ _ _ Ec)
    as [dimensions [columnMetrics [converted
         [_ [Ecols [Econv [_ [_ Em]]]]]]]].
  exists dimensions, columnMetrics. split; [exact Ecols|].
  destruct (convertColumns_NoDup _ _ _ _ _ Ecols) as [_ Hnd].
  pose proof (filterM_In _ _ _ _ Ef) as Hsel.
  rewrite Em. split.
  - intros name m Eg. rewrite obj_get_spread_obj in Eg by assumption.
    destruct (obj_get name columnMetrics) as [cm|]; [now left|]. right.
    split; [reflexivity|].
    destruct (converted_from_metric _ _ _ _ _ _ Econv Eg)
      as [metric [Hin [En Econverted]]].
    apply Hsel in Hin as [Hin Hcall].
    exists metric. repeat split; try assumption.
    unfold modelCanUseMetric_call in Hcall. rewrite En in Hcall.
    destruct (modelCanUseMetric _ name _ _) as [[|]|] eqn:Eu;
      try discriminate.
    eapply modelCanUseMetric_true_Usable; eassumption.
  - intros metric Hin Hu. apply In_keys_spread. right.
    destruct (convertedDbtMetricsOf_Return _ _ _ _ Econv)
      as [entries [Eentries ->]].
    unfold Object_fromEntries. rewrite In_keys_spread. left.
    rewrite (entries_keys _ _ _ _ Eentries). apply in_map.
    apply Hsel. split; [assumption|].
    unfold modelCanUseMetric_call.
    destruct (modelCanUseMetric _ (metric_name metric) _ _) as [[|]|] eqn:Eu.
    + reflexivity.
    + exfalso. eapply modelCanUseMetric_false_not_Usable; eassumption.
    + destruct (filterM_Return_all _ _ _ _ Ef metric Hin) as [b Eb].
      unfold modelCanUseMetric_call in Eb. rewrite Eu in Eb. discriminate.
Qed.

(** ** What a table keeps *)



(** ** The dimensions of a table *)

Lemma convertTable_label {T : HostTypes} {H : Host}
  adapterType model dbtMetrics table :
  convertTable adapterType model dbtMetrics = Return table ->
  t_label table = modelLabel model.
Proof.
  unfold convertTable. destruct (compiled model); simpl; [|discriminate].
  intros E. apply bind_Return in E as [[dimensions metrics] [_ E]].
  apply bind_Return in E as [converted [_ E]].
  destruct (0 <? _)%nat; [discriminate|].
  destruct (negb _); [discriminate|]. now inversion E.
Qed.

Lemma convertDimension_frame {T : HostTypes} {H : Host}
  adapterType model tableLabel column source timeInterval d :
  convertDimension adapterType model tableLabel column source timeInterval
  = Return d ->
  d_fieldType d = DIMENSION
  /\ d_table d = model_name model
  /\ d_tableLabel d = tableLabel
  /\ d_source d = source
  /\ d_timeInterval d = timeInterval.
Proof.
  unfold convertDimension. intros E.
  destruct (negb (includes DimensionType_values (columnType column)));
    [discriminate|].
  apply bind_Return in E as [sql [_ E]].
  destruct timeInterval as [interval|]; [|inversion E; simpl; auto].
  destruct (truthy (Some interval)); [|inversion E; simpl; auto].
  apply bind_Return in E as [sql' [_ E]]. inversion E; simpl; auto.
Qed.

Section DimensionKeys.
Context {T : HostTypes} {H : Host}.
Variable adapterType : SupportedDbtAdapter.
Variable model : DbtModelNode.
Variable tableLabel : string.

Let dimensionFrom := dimensionFrom adapterType model tableLabel.

#[local] Arguments String.append : simpl never.

Lemma extraDimensions_values column intervals :
  forall acc extra,
    reduceM
      (fun acc interval =>
         d <- convertDimension adapterType model tableLabel column None
                (Some interval) ;;
         Return (obj_set (col_name column ++ "_" ++ interval)%string d acc))
      intervals acc = Return extra ->
    forall key d,
      obj_get key extra = Some d ->
      obj_get key acc = Some d
      \/ exists interval,
           In interval intervals
           /\ key = (col_name column ++ "_" ++ interval)%string
           /\ convertDimension adapterType model tableLabel column None
                (Some interval) = Return d.
Proof.
  induction intervals as [|interval intervals IH]; simpl;
    intros acc extra E key d Eg.
  - inversion E; subst. now left.
  - apply bind_Return in E as [acc' [Es E]].
    apply bind_Return in Es as [d0 [Ed Es]]. inversion Es; subst acc'.
    destruct (IH _ _ E key d Eg) as [Eacc|[iv [Hiv Hex]]];
      [|right; exists iv; auto].
    rewrite obj_get_set in Eacc.
    destruct (String.eqb_spec (col_name column ++ "_" ++ interval) key)
      as [<-|_]; [|now left].
    inversion Eacc; subst d0. right. exists interval. auto.
Qed.

Lemma convertColumn_from cols acc column acc' :
  In column cols ->
  convertColumn adapterType model tableLabel acc column = Return acc' ->
  (forall key d, obj_get key (fst acc) = Some d -> dimensionFrom cols key d) ->
  forall key d, obj_get key (fst acc') = Some d -> dimensionFrom cols key d.
Proof.
  destruct acc as [prevDimensions prevMetrics]. intros Hin E Hprev key d Eg.
  destruct (convertColumn_dimensions _ _ _ _ _ _ _ E)
    as [dimension [extraDimensions [Ed [Ex Eacc]]]].
  destruct (extraDimensions_of_column _ _ _ _ _ _ Ex) as [Hnd _].
  rewrite Eacc, obj_get_spread_obj in Eg by assumption.
  destruct (obj_get key extraDimensions) as [d'|] eqn:Ee.
  - inversion Eg; subst d'.
    destruct (expandsTimeIntervals dimension column) eqn:Eexp;
      [|inversion Ex; subst; discriminate].
    apply bind_Return in Ex as [intervals [Ei Ex]].
    destruct (extraDimensions_values _ _ _ _ Ex key d Ee)
      as [Hnil|[interval [Hiv [Ek Ec]]]]; [discriminate|].
    exists column, (Some interval).
    split; [assumption|]. split; [assumption|].
    right. exists dimension, intervals, interval. auto 10.
  - rewrite obj_get_set in Eg.
    destruct (String.eqb_spec (col_name column) key) as [<-|_].
    + inversion Eg; subst d. exists column, None.
      repeat split; try assumption. left. split; reflexivity.
    + apply Hprev. exact Eg.
Qed.

Lemma convertColumns_from cols :
  forall processed acc res,
    incl processed cols ->
    reduceM (convertColumn adapterType model tableLabel) processed acc
    = Return res ->
    (forall key d, obj_get key (fst acc) = Some d ->
                   dimensionFrom cols key d) ->
    forall key d, obj_get key (fst res) = Some d -> dimensionFrom cols key d.
Proof.
  induction processed as [|column processed IH]; simpl;
    intros acc res Hincl E Hacc.
  - inversion E; subst. exact Hacc.
  - apply bind_Return in E as [acc' [Es E]].
    apply (IH acc' res); [intros c Hc; apply Hincl; now right|assumption|].
    eapply convertColumn_from; [|eassumption|assumption].
    apply Hincl. now left.
Qed.

Lemma convertColumns_names cols :
  forall acc res,
    reduceM (convertColumn adapterType model tableLabel) cols acc
    = Return res ->
    (forall key, In key (Object_keys (fst acc)) ->
                 In key (Object_keys (fst res)))
    /\ (forall column, In column cols ->
                       In (col_name column) (Object_keys (fst res))).
Proof.
  induction cols as [|column cols IH]; simpl; intros acc res E.
  - inversion E; subst. split; [auto|intros c []].
  - apply bind_Return in E as [acc' [Es E]].
    destruct (IH _ _ E) as [Hkeep Hcols].
    assert (Hstep : forall key,
               key = col_name column \/ In key (Object_keys (fst acc)) ->
               In key (Object_keys (fst acc'))).
    { destruct acc as [prevDimensions prevMetrics].
      destruct (convertColumn_dimensions _ _ _ _ _ _ _ Es)
        as [dimension [extraDimensions [_ [_ ->]]]].
      intros key Hk. apply In_keys_spread. right.
      now apply In_keys_set. }
    split.
    + intros key Hk. apply Hkeep, Hstep. now right.
    + intros c [<-|Hc]; [|now apply Hcols].
      apply Hkeep, Hstep. now left.
Qed.

End DimensionKeys.

(** X21. In the table that [convertTable] returns every column of the model
    has an entry in the dimension map under its name, and every entry of the
    dimension map is, for one of the columns, its base dimension under the
    name of the column or, under [<column>_<interval>], its dimension for one
    of the intervals that the column is expanded into; every dimension
    belongs to the table, and every key is a key that one of the columns
    writes. *)
Theorem convertTable_dimensions_from_columns {T : HostTypes} {H : Host}
  adapterType model dbtMetrics table :
  convertTable adapterType model dbtMetrics = Return table ->
  (forall column,
     In column (Object_values (columns model)) ->
     In (col_name column) (Object_keys (t_dimensions table)))
  /\ (forall key d,
        obj_get key (t_dimensions table) = Some d ->
        (exists column timeInterval,
           In column (Object_values (columns model))
           /\ convertDimension adapterType model (modelLabel model) column
                None timeInterval = Return d
           /\ (timeInterval = None /\ key = col_name column
               \/ exists base intervals interval,
                    timeInterval = Some interval
                    /\ convertDimension adapterType model (modelLabel model)
                         column None None = Return base
                    /\ (d_type base = DimensionType_value DATE
                        \/ d_type base = DimensionType_value TIMESTAMP)
                    /\ dimension_field dim_time_intervals column
                       <> Some (IntervalsString "OFF")
                    /\ match dimension_field dim_time_intervals column with
                       | Some (IntervalsArray explicit) =>
                           validateTimeFrames explicit
                       | _ => Return (getDefaultTimeFrames (d_type base))
                       end = Return intervals
                    /\ In interval intervals
                    /\ key = (col_name column ++ "_" ++ interval)%string))
        /\ dimensionFrom adapterType model (modelLabel model)
             (Object_values (columns model)) key d
        /\ d_table d = t_name table
        /\ d_tableLabel d = t_label table)
  /\ (forall key,
        In key (Object_keys (t_dimensions table)) ->
        exists column,
          In column (Object_values (columns model))
          /\ writesKey adapterType model (modelLabel model) column key).
Proof.
  intros E.
  pose proof (convertTable_name _ _ _ _ E) as En.
  pose proof (convertTable_label _ _ _ _ E) as El.
  destruct (convertTable_Return _ _ _ _ E)
    as [dimensions [metrics [converted [_ [Ecols [_ [_ [Ed _]]]]]]]].
  rewrite Ed, En, El. unfold convertColumns in Ecols.
  assert (Hfrom : forall key d,
             obj_get key dimensions = Some d ->
             dimensionFrom adapterType model (modelLabel model)
               (Object_values (columns model)) key d).
  { intros key d Eg.
    apply (convertColumns_from adapterType model (modelLabel model)
             (Object_values (columns model))
             (Object_values (columns model)) ([], []) (dimensions, metrics)
             (incl_refl _) Ecols); [|exact Eg].
    intros k d0 E0. discriminate. }
  split; [|split].
  - destruct (convertColumns_names _ _ _ _ _ _ Ecols) as [_ Hcols].
    exact Hcols.
  - intros key d Eg. pose proof (Hfrom key d Eg) as Hd.
    split; [|split; [exact Hd|]].
    + destruct Hd as [column [timeInterval [Hin [Ec Hkey]]]].
      exists column, timeInterval. split; [assumption|].
      split; [assumption|].
      destruct Hkey as [Hbase|[base [intervals [interval
                         [-> [Eb [Eexp [Ei [Hiv ->]]]]]]]]]; [now left|].
      right. exists base, intervals, interval.
      split; [reflexivity|]. split; [assumption|].
      unfold expandsTimeIntervals in Eexp.
      apply andb_true_iff in Eexp as [Etype Eoff].
      apply includes_In in Etype. split.
      { destruct Etype as [Ety|[Ety|[]]]; [left|right]; symmetry; exact Ety. }
      split; [|auto].
      intros Eoff'. rewrite Eoff' in Eoff. discriminate.
    + destruct Hd as [column [timeInterval [_ [Ec _]]]].
      apply convertDimension_frame in Ec as [_ [Et [Etl _]]]. auto.
  - intros key Hk. apply In_keys_get in Hk as [d Eg].
    destruct (Hfrom key d Eg) as [column [timeInterval [Hin [_ Hkey]]]].
    exists column. split; [assumption|].
    destruct Hkey as [[_ ->]|[base [intervals [interval
                       [_ [Eb [Eexp [Ei [Hiv ->]]]]]]]]]; [now left|].
    right. now exists base, intervals, interval.
Qed.

(** ** More on attachTypesToModels *)

Lemma forEachM_app A (f : A -> result unit) xs ys :
  forEachM f (xs ++ ys) = (_ <- forEachM f xs ;; forEachM f ys).
Proof.
  induction xs as [|x xs IH]; simpl; [reflexivity|].
  destruct (f x) as [[]|e]; simpl; [exact IH|reflexivity].
Qed.

Lemma forEachM_pass A (f : A -> result unit) xs :
  (forall x, In x xs -> f x = Return tt) -> forEachM f xs = Return tt.
Proof.
  induction xs as [|x xs IH]; simpl; intros Hf; [reflexivity|].
  rewrite (Hf x (or_introl eq_refl)). simpl. apply IH.
  intros y Hy. apply Hf. now right.
Qed.

Lemma forEachM_Return A (f : A -> result unit) xs :
  forEachM f xs = Return tt -> forall x, In x xs -> f x = Return tt.
Proof.
  induction xs as [|x xs IH]; simpl; intros E y Hy; [destruct Hy|].
  apply bind_Return in E as [[] [Ex E]].
  destruct Hy as [<-|Hy]; [assumption|now apply IH].
Qed.

Lemma mapM_ext_Return A B (f g : A -> result B) xs ys :
  (forall x y, In x xs -> f x = Return y -> g x = Return y) ->
  mapM f xs = Return ys -> mapM g xs = Return ys.
Proof.
  revert ys. induction xs as [|x xs IH]; simpl; intros ys Hfg E;
    [assumption|].
  apply bind_Return in E as [y [Ey E]].
  apply bind_Return in E as [ys' [Eys E]]. inversion E; subst.
  rewrite (Hfg x y (or_introl eq_refl) Ey). simpl.
  rewrite (IH ys'); [reflexivity| |assumption].
  intros z w Hz. apply Hfg. now right.
Qed.

Section AttachTypesMore.
Context {T : HostTypes} {H : Host}.
Variable warehouseCatalog : WarehouseCatalog.
Variable caseSensitiveMatching : bool.

Lemma getType_lenient model key :
  exists type,
    getType warehouseCatalog false caseSensitiveMatching model key
    = Return type.
Proof.
  unfold getType. destruct (descend _ _) as [type|]; now eexists.
Qed.

Lemma attachTypesToModel_lenient model :
  exists model',
    attachTypesToModel warehouseCatalog false caseSensitiveMatching model
    = Return model'.
Proof.
  unfold attachTypesToModel.
  destruct (mapM_total _ _
              (fun entry : string * DbtModelColumn =>
                 type <- getType warehouseCatalog false caseSensitiveMatching
                           model (fst entry) ;;
                 Return (fst entry, withDataType (snd entry) type))
              (Object_entries (columns model))) as [entries ->].
  - intros entry _. destruct (getType_lenient model (fst entry)) as [type ->].
    simpl. now eexists.
  - simpl. now eexists.
Qed.

Lemma checkModelInCatalog_found throwOnMissingCatalogEntry model :
  findCatalogTable warehouseCatalog caseSensitiveMatching model <> None ->
  checkModelInCatalog warehouseCatalog throwOnMissingCatalogEntry
    caseSensitiveMatching model = Return tt.
Proof.
  unfold checkModelInCatalog.
  destruct (findCatalogTable _ _ _); [reflexivity|congruence].
Qed.

Lemma checkModelInCatalog_Return model :
  checkModelInCatalog warehouseCatalog true caseSensitiveMatching model
  = Return tt ->
  findCatalogTable warehouseCatalog caseSensitiveMatching model <> None.
Proof.
  unfold checkModelInCatalog.
  destruct (findCatalogTable _ _ _); [discriminate|discriminate].
Qed.

End AttachTypesMore.

(** X22. With [throwOnMissingCatalogEntry] false [attachTypesToModels]
    returns for every list of models and every catalog, and with an empty
    catalog every column comes out without [data_type]. *)
Theorem attachTypesToModels_lenient {T : HostTypes} {H : Host}
  models warehouseCatalog caseSensitiveMatching :
  exists out,
    attachTypesToModels models warehouseCatalog false caseSensitiveMatching
    = Return out
    /\ (warehouseCatalog = [] ->
        forall model' key column',
          In model' out -> In (key, column') (columns model') ->
          col_data_type column' = None).
Proof.
  unfold attachTypesToModels.
  rewrite forEachM_pass.
  - simpl.
    destruct (mapM_total _ _
                (attachTypesToModel warehouseCatalog false
                   caseSensitiveMatching) models) as [out Eout].
    + intros model _. apply attachTypesToModel_lenient.
    + exists out. split; [exact Eout|].
      intros -> model' key column' Hm Hc.
      destruct (mapM_In _ _ _ _ _ _ Eout Hm) as [model [_ Em]].
      destruct (attached_column _ _ _ _ _ _ _ Em Hc)
        as [column [type [_ [Et ->]]]].
      unfold getType, findCatalogTable in Et. simpl in Et.
      inversion Et. reflexivity.
  - intros model _. unfold checkModelInCatalog.
    now destruct (findCatalogTable _ _ _).
Qed.

(** X23. With [throwOnMissingCatalogEntry] set, the first model that has no
    table in the catalog makes [attachTypesToModels] throw the error that
    names that model, before any column of any model is looked up. *)
Theorem attachTypesToModels_missing_model {T : HostTypes} {H : Host}
  models warehouseCatalog caseSensitiveMatching before model after :
  models = before ++ model :: after ->
  (forall earlier, In earlier before ->
     findCatalogTable warehouseCatalog caseSensitiveMatching earlier <> None) ->
  findCatalogTable warehouseCatalog caseSensitiveMatching model = None ->
  attachTypesToModels models warehouseCatalog true caseSensitiveMatching
  = Throw (missingModelError model).
Proof.
  intros -> Hbefore Hmissing. unfold attachTypesToModels.
  rewrite forEachM_app, forEachM_pass.
  - simpl. unfold checkModelInCatalog at 1. now rewrite Hmissing.
  - intros earlier Hin. apply checkModelInCatalog_found. now apply Hbefore.
Qed.

(** X24. With [throwOnMissingCatalogEntry] set and every model in the
    catalog, the first column, in the order of the models and of their
    columns, that the catalog does not resolve makes [attachTypesToModels]
    throw the error that names that column and its model. *)
Theorem attachTypesToModels_missing_column {T : HostTypes} {H : Host}
  models warehouseCatalog caseSensitiveMatching
  before model after done earlier key column later :
  (forall m, In m models ->
     findCatalogTable warehouseCatalog caseSensitiveMatching m <> None) ->
  models = before ++ model :: after ->
  mapM (attachTypesToModel warehouseCatalog true caseSensitiveMatching) before
  = Return done ->
  columns model = earlier ++ (key, column) :: later ->
  (forall entry, In entry earlier ->
     exists type,
       getType warehouseCatalog true caseSensitiveMatching model (fst entry)
       = Return type) ->
  getType warehouseCatalog false caseSensitiveMatching model key
  = Return None ->
  attachTypesToModels models warehouseCatalog true caseSensitiveMatching
  = Throw (missingColumnError model key).
Proof.
  intros Hfound -> Edone Ecols Hearlier Hmissing.
  unfold attachTypesToModels. rewrite forEachM_pass.
  - simpl.
    assert (Em : attachTypesToModel warehouseCatalog true
                   caseSensitiveMatching model
                 = Throw (missingColumnError model key)).
    { unfold attachTypesToModel, Object_entries. rewrite Ecols.
      clear Ecols.
      induction earlier as [|entry earlier IH]; simpl.
      - unfold getType in *.
        destruct (descend _ _); [discriminate|reflexivity].
      - destruct (Hearlier entry (or_introl eq_refl)) as [type ->]. simpl.
        assert (IH' := IH (fun e He => Hearlier e (or_intror He))).
        destruct (mapM _ (earlier ++ (key, column) :: later)) as [es|e];
          simpl in *; [discriminate|exact IH']. }
    clear Hfound. revert done Edone.
    induction before as [|m before IH]; simpl; intros done Edone.
    + now rewrite Em.
    + apply bind_Return in Edone as [m' [Em' Edone]].
      apply bind_Return in Edone as [done' [Edone' _]].
      rewrite Em'. simpl. now rewrite (IH done' Edone').
  - intros m Hin. apply checkModelInCatalog_found. now apply Hfound.
Qed.

(** One level of the lookup: a key found with exact comparison is the key
    that the comparison without case finds, when no two keys of the level
    differ by case only. *)
Lemma matchWithin_level V (level : option (obj V)) wanted v :
  descend level (matchWithin true level wanted) = Some v ->
  exists o key,
    level = Some o /\ In (key, v) o
    /\ (caseDistinct (Object_keys o) ->
        descend level (matchWithin false level wanted) = Some v).
Proof.
  destruct level as [o|]; [|discriminate].
  unfold matchWithin, js_find.
  destruct (find (catalogKeyMatches true wanted) (Object_keys o))
    as [key|] eqn:Ef; [|discriminate].
  destruct (truthy (Some key)) eqn:Et; [|discriminate].
  cbn [descend]. intros Ev. exists o, key. split; [reflexivity|].
  split; [now apply obj_get_In|].
  intros Hdistinct.
  apply find_some in Ef as [Hin Em]. unfold catalogKeyMatches in Em.
  apply String.eqb_eq in Em. subst wanted.
  destruct (find (catalogKeyMatches false key) (Object_keys o))
    as [key'|] eqn:Ef'.
  - apply find_some in Ef' as [Hin' Em']. unfold catalogKeyMatches in Em'.
    apply String.eqb_eq in Em'.
    assert (key' = key) as -> by now apply Hdistinct.
    rewrite Et. exact Ev.
  - apply (find_none _ _ Ef') in Hin. unfold catalogKeyMatches in Hin.
    now rewrite String.eqb_refl in Hin.
Qed.

Section CaseInsensitive.
Context {T : HostTypes} {H : Host}.
Variable warehouseCatalog : WarehouseCatalog.
Hypothesis distinct : catalogCaseDistinct warehouseCatalog.

Lemma findCatalogTable_any_case model table :
  findCatalogTable warehouseCatalog true model = Some table ->
  findCatalogTable warehouseCatalog false model = Some table
  /\ caseDistinct (Object_keys table).
Proof.
  unfold findCatalogTable. cbv zeta. intros Et.
  destruct distinct as [Hdbs Hrest].
  apply matchWithin_level in Et as [tables [t [Es [Hint Ht]]]].
  destruct (matchWithin_level _ _ _ _ Es) as [schemas [s [Ed [Hins Hs]]]].
  destruct (matchWithin_level _ _ _ _ Ed) as [dbs [d [Ec [Hind Hd]]]].
  inversion Ec; subst dbs.
  destruct (Hrest _ _ Hind) as [Hschemas Hrest'].
  destruct (Hrest' _ _ Hins) as [Htables Hcols].
  rewrite Ed in Hs. rewrite Es in Ht.
  rewrite (Hd Hdbs), (Hs Hschemas). split.
  - apply Ht. exact Htables.
  - exact (Hcols _ _ Hint).
Qed.

Lemma getType_any_case throwOnMissingCatalogEntry model key type :
  getType warehouseCatalog true true model key = Return type ->
  getType warehouseCatalog throwOnMissingCatalogEntry false model key
  = Return type.
Proof.
  unfold getType.
  destruct (descend (findCatalogTable warehouseCatalog true model) _)
    as [ty|] eqn:Ety; [|discriminate].
  intros E. inversion E; subst type.
  destruct (matchWithin_level _ _ _ _ Ety) as [cols [k [Et [_ Hk]]]].
  destruct (findCatalogTable_any_case _ _ Et) as [Et' Hcols].
  rewrite Et', <- Et, (Hk Hcols). reflexivity.
Qed.

End CaseInsensitive.

(** X25. When the keys of the catalog are ASCII texts and no two keys of
    one level differ by case only, models that attach with exact matching and
    [throwOnMissingCatalogEntry] set attach to the same result with
    matching without case, whatever the flag. *)
Theorem attachTypesToModels_any_case {T : HostTypes} {H : Host}
  models warehouseCatalog throwOnMissingCatalogEntry out :
  catalogCaseDistinct warehouseCatalog ->
  attachTypesToModels models warehouseCatalog true true = Return out ->
  attachTypesToModels models warehouseCatalog throwOnMissingCatalogEntry false
  = Return out.
Proof.
  intros Hdistinct. unfold attachTypesToModels. intros E.
  apply bind_Return in E as [[] [Echeck Eout]].
  rewrite forEachM_pass.
  - simpl. apply (mapM_ext_Return _ _ _ _ _ _) with (2 := Eout).
    intros model model' _. unfold attachTypesToModel. intros Em.
    apply bind_Return in Em as [entries [Eentries Em]].
    rewrite (mapM_ext_Return _ _ _ _ _ _) with (2 := Eentries);
      [exact Em|].
    intros entry entry' _ Ee.
    apply bind_Return in Ee as [type [Etype Ee]].
    now rewrite (getType_any_case _ Hdistinct _ _ _ _ Etype).
  - intros model Hin. apply checkModelInCatalog_found.
    apply (forEachM_Return _ _ _ Echeck) in Hin.
    apply checkModelInCatalog_Return in Hin.
    destruct (findCatalogTable warehouseCatalog true model) as [table|] eqn:Et;
      [|congruence].
    destruct (findCatalogTable_any_case _ Hdistinct _ _ Et) as [-> _].
    discriminate.
Qed.

(** X26. The warehouse tables asked for are the same before and after the
    types are attached: [getSchemaStructureFromDbtModels] gives the same
    list on the result of [attachTypesToModels] as on its argument. *)
Theorem attachTypesToModels_schema_structure {T : HostTypes} {H : Host}
  models warehouseCatalog throwOnMissingCatalogEntry caseSensitiveMatching
  out :
  attachTypesToModels models warehouseCatalog throwOnMissingCatalogEntry
    caseSensitiveMatching = Return out ->
  getSchemaStructureFromDbtModels out
  = getSchemaStructureFromDbtModels models.
Proof.
  unfold attachTypesToModels. intros E.
  apply bind_Return in E as [[] [_ E]]. revert out E.
  induction models as [|model models IH]; simpl; intros out E.
  - inversion E. reflexivity.
  - apply bind_Return in E as [model' [Em E]].
    apply bind_Return in E as [out' [Eout E]]. inversion E; subst out.
    simpl. rewrite (IH out' Eout). f_equal.
    unfold attachTypesToModel in Em.
    apply bind_Return in Em as [entries [_ Em]]. inversion Em.
    reflexivity.
Qed.

(** ** convertDimension on a warehouse that is not supported *)

(** X27. On an adapter outside the supported ones only timestamp columns
    fail: a column whose type resolves to [TIMESTAMP] makes
    [convertDimension] throw the unrecognised-warehouse error for every time
    interval, before the time frame is looked at, and a column of any other
    recognised type gives its base dimension, with the sql of the column
    unchanged. *)
Theorem convertDimension_unknown_warehouse {T : HostTypes} {H : Host}
  raw model tableLabel column source :
  (columnType column = DimensionType_value TIMESTAMP ->
   forall timeInterval,
     convertDimension (OtherAdapter raw) model tableLabel column source
       timeInterval
     = Throw (ParseError ("Cannot recognise warehouse " ++ raw)%string))
  /\ (includes DimensionType_values (columnType column) = true ->
      columnType column <> DimensionType_value TIMESTAMP ->
      exists d,
        convertDimension (OtherAdapter raw) model tableLabel column source None
        = Return d
        /\ d_sql d = js_or (dimension_field dim_sql column)
                           (defaultSql (col_name column))
        /\ d_type d = columnType column).
Proof.
  split.
  - intros Etype timeInterval. unfold convertDimension.
    rewrite Etype at 1.
    rewrite (proj2 (includes_In _ _) (DimensionType_value_recognised TIMESTAMP)).
    cbn [negb]. rewrite Etype at 1. rewrite String.eqb_refl. reflexivity.
  - intros Hrec Hother. unfold convertDimension. rewrite Hrec. cbn [negb].
    apply String.eqb_neq in Hother. rewrite Hother. simpl.
    eexists. split; [reflexivity|]. split; reflexivity.
Qed.

(** ** The properties above on the sample data *)

Module ScenarioFacts.
Import Demo Scenarios.
#[local] Existing Instance demoTypes.
#[local] Existing Instance demoHost.

Ltac distinct_strings :=
  repeat constructor; simpl; intuition discriminate.

Ltac case_distinct :=
  let a := fresh "a" in
  let b := fresh "b" in
  let Ha := fresh "Ha" in
  let Hb := fresh "Hb" in
  let E := fresh "E" in
  split; [repeat constructor|];
  intros a b Ha Hb E; simpl in Ha, Hb;
  repeat match goal with
         | Hor : _ \/ _ |- _ => destruct Hor
         | Hf : False |- _ => destruct Hf
         end;
  subst; try reflexivity; vm_compute in E; discriminate.

(** Two dimensions, one of them a group already: the button is enabled and
    the other dimension is added. *)
Lemma addGroup_button_agrees_witness :
  (addGroupDisabled 2 ["status"] = false ->
   exists nextId,
     In nextId ["status"; "country"] /\ ~ In nextId ["status"]
     /\ handleGroupAdd ["status"; "country"] ["status"]
        = ["status"] ++ [nextId])
  /\ (addGroupDisabled 2 ["status"] = true ->
      handleGroupAdd ["status"; "country"] ["status"] = ["status"]).
Proof.
  apply (addGroup_button_agrees ["status"; "country"] ["status"]).
  - distinct_strings.
  - simpl. intuition discriminate.
  - distinct_strings.
  - intros id Hid. simpl in *. tauto.
Defined.

(** A group that shows its value gets its percentage switched off: both
    options are then set for it. *)
Lemma handleGroupValueOptionChange_merges_witness :
  exists merged,
    obj_get "paid"
      (handleGroupValueOptionChange "paid" [("showPercentage", IsBool false)]
         (groupValueOptionOverrides chart))
    = Some merged
    /\ obj_get "showPercentage" merged = Some (IsBool false)
    /\ obj_get "showValue" merged = Some (IsBool true).
Proof.
  destruct (handleGroupValueOptionChange_merges
              "paid" [("showPercentage", IsBool false)]
              (groupValueOptionOverrides chart))
    as [merged [Em [Hgiven [Hkept _]]]].
  - distinct_strings.
  - exists merged. split; [exact Em|]. split.
    + apply Hgiven. reflexivity.
    + rewrite (Hkept "showValue" eq_refl). reflexivity.
Defined.

(** Changing the value label of the sample chart removes the override of
    the group [paid] for it and keeps the one for the value. *)
Lemma chart_option_change_drops_overrides_witness :
  isOptionOverriden "valueLabel" (groupValueOptionOverrides chart) = true
  /\ isOptionOverriden "valueLabel"
       (groupValueOptionOverrides (handleValueLabelChange "outside" chart))
     = false
  /\ isOptionOverriden "showValue"
       (groupValueOptionOverrides (handleValueLabelChange "outside" chart))
     = true.
Proof.
  destruct (chart_option_change_drops_overrides "outside" chart)
    as [[_ [_ [_ [Hdropped [Hkept _]]]]] _].
  - distinct_strings.
  - split; [reflexivity|]. split; [exact Hdropped|].
    rewrite Hkept. reflexivity.
Defined.

(** Three labels on a palette of two colours: the third label gets the
    first colour again. *)
Lemma groupColorDefaults_cycle_witness :
  obj_get "refunded"
    (groupColorDefaults ["paid"; "open"; "refunded"] ["#5470c6"; "#91cc75"])
  = Some (Some "#5470c6").
Proof.
  destruct (groupColorDefaults_cycle
              ["paid"; "open"; "refunded"] ["#5470c6"; "#91cc75"])
    as [Hcolour _].
  - distinct_strings.
  - destruct (Hcolour 2 "refunded" eq_refl) as [E _]. exact E.
Defined.

(** The table of [users] carries the lineage of [users]. *)
Lemma tableOfModel_lineage_witness :
  tableOfModel (translateDbtModelsToTableLineage [ordersJoiningMissing; users])
    false POSTGRES [] users = Return usersTable
  /\ t_lineageGraph usersTable
     = Some (generateTableLineage users
               (buildModelGraph [ordersJoiningMissing; users])).
Proof.
  assert (E : tableOfModel
                (translateDbtModelsToTableLineage [ordersJoiningMissing; users])
                false POSTGRES [] users = Return usersTable)
    by (vm_compute; reflexivity).
  split; [exact E|].
  destruct (tableOfModel_lineage [ordersJoiningMissing; users] false POSTGRES
              [] users usersTable) as [_ Hlast].
  - simpl. tauto.
  - exact E.
  - apply (Hlast [ordersJoiningMissing] []); [reflexivity|].
    intros later [].
Defined.

(** With [loadSources] set the documented model gets the error of the
    missing implementation. *)
Lemma tableOfModel_sources_not_implemented_witness :
  patch_path documented = Some "demo://models/schema.yml"
  /\ tableOfModel [] true POSTGRES [] documented
     = Throw (Error "Not Implemented").
Proof.
  split; [reflexivity|].
  destruct (tableOfModel_sources_not_implemented
              [] POSTGRES [] documented "demo://models/schema.yml" eq_refl)
    as [_ Hthrow].
  destruct (convertTable POSTGRES documented []) as [table|e] eqn:Et;
    [|vm_compute in Et; discriminate].
  apply (Hthrow [] table); [reflexivity|exact Et].
Defined.

(** The metric that refers to itself is the error of the model. *)
Lemma tableOfModel_endless_recursion_witness :
  tableOfModel [] false POSTGRES [loop] costed
  = Throw (RangeError "Maximum call stack size exceeded").
Proof.
  apply (tableOfModel_endless_recursion [] false POSTGRES [loop] costed loop).
  - simpl. tauto.
  - exact DemoFacts.modelCanUseMetric_loop.
Defined.

(** The converted metrics of [revenue] are keyed by the name of the
    metric. *)
Lemma convertedDbtMetricsOf_keys_witness :
  convertedDbtMetricsOf revenue (modelLabel revenue) [total_revenue]
  = Return revenueConverted
  /\ (forall name,
        In name (Object_keys revenueConverted) <-> In name ["total_revenue"]).
Proof.
  assert (E : convertedDbtMetricsOf revenue (modelLabel revenue)
                [total_revenue] = Return revenueConverted)
    by (vm_compute; reflexivity).
  split; [exact E|].
  destruct (convertedDbtMetricsOf_keys revenue (modelLabel revenue)
              [total_revenue] revenueConverted E) as [Hkeys _].
  exact Hkeys.
Defined.

(** The metrics of the scenario are all in the table of [costed]: the
    difference is usable because both of its operands are. *)
Lemma tableOfModel_metrics_usable_witness :
  tableOfModel (translateDbtModelsToTableLineage [costed]) false POSTGRES
    scenarioMetrics costed = Return costedWithMetrics
  /\ (Usable scenarioMetrics "orders" "net" ->
      In "net" (Object_keys (t_metrics costedWithMetrics))).
Proof.
  assert (E : tableOfModel (translateDbtModelsToTableLineage [costed]) false
                POSTGRES scenarioMetrics costed = Return costedWithMetrics)
    by (vm_compute; reflexivity).
  split; [exact E|].
  destruct (tableOfModel_metrics_usable _ _ _ _ _ _ E)
    as [dimensions [columnMetrics [_ [_ Hall]]]].
  apply (Hall net). simpl. tauto.
Defined.


(** Every column of [events] has its dimension in the table. *)
Lemma convertTable_dimensions_from_columns_witness :
  convertTable POSTGRES events [] = Return eventsTable
  /\ In "created" (Object_keys (t_dimensions eventsTable))
  /\ In "created_DAY" (Object_keys (t_dimensions eventsTable)).
Proof.
  assert (E : convertTable POSTGRES events [] = Return eventsTable)
    by (vm_compute; reflexivity).
  split; [exact E|].
  destruct (convertTable_dimensions_from_columns POSTGRES events []
              eventsTable E) as [Hcolumns _].
  split.
  - apply (Hcolumns created). simpl. tauto.
  - apply (Hcolumns created_DAY). simpl. tauto.
Defined.

(** [ghost] is missing from the warehouse: its error is thrown although
    [users] comes first and is there. *)
Lemma attachTypesToModels_missing_model_witness :
  attachTypesToModels [users; ghost] catalog true true
  = Throw (missingModelError ghost).
Proof.
  apply (attachTypesToModels_missing_model
           [users; ghost] catalog true [users] ghost []).
  - reflexivity.
  - intros earlier [<-|[]]. vm_compute. discriminate.
  - vm_compute. reflexivity.
Defined.

(** The column [discount] is missing from the warehouse. *)
Lemma attachTypesToModels_missing_column_witness :
  attachTypesToModels [users; ordersWithDiscount] catalog true true
  = Throw (missingColumnError ordersWithDiscount "discount").
Proof.
  apply (attachTypesToModels_missing_column
           [users; ordersWithDiscount] catalog true
           [users] ordersWithDiscount [] usersTyped
           [("amount", column "amount" noDimension None)]
           "discount" discount []).
  - intros m [<-|[<-|[]]]; vm_compute; discriminate.
  - reflexivity.
  - vm_compute. reflexivity.
  - reflexivity.
  - intros entry [<-|[]]. eexists. vm_compute. reflexivity.
  - vm_compute. reflexivity.
Defined.

Lemma catalog_case_distinct : catalogCaseDistinct catalog.
Proof.
  split; [case_distinct|].
  intros db schemas [Edb|[]]. inversion Edb; subst; clear Edb.
  split; [case_distinct|].
  intros s tables [Es|[]]. inversion Es; subst; clear Es.
  split; [case_distinct|].
  intros t cols [Et|[Et|[]]]; inversion Et; subst; case_distinct.
Qed.

(** The models that attach to the sample catalog with exact matching attach
    to the same result without it. *)
Lemma attachTypesToModels_any_case_witness :
  attachTypesToModels [ordersInWarehouse; users] catalog false false
  = Return ordersTyped.
Proof.
  apply (attachTypesToModels_any_case
           [ordersInWarehouse; users] catalog false ordersTyped).
  - exact catalog_case_distinct.
  - vm_compute. reflexivity.
Defined.

(** The tables asked for the sample models are the same once typed. *)
Lemma attachTypesToModels_schema_structure_witness :
  getSchemaStructureFromDbtModels ordersTyped
  = getSchemaStructureFromDbtModels [ordersInWarehouse; users].
Proof.
  apply (attachTypesToModels_schema_structure
           [ordersInWarehouse; users] catalog true true ordersTyped).
  vm_compute. reflexivity.
Defined.

End ScenarioFacts.
